(** * Design-token audit (audit-tokens.js): a shallow embedding

    The audit script walks two parsed JSON documents (the primitive and the
    semantic token tree), runs six checkers over them, collects findings in
    three buckets and prints a readiness score.  This file embeds the script
    function by function and proves properties of the embedding.

    Data model.
    - A parsed JSON document is a [json] value.  An object lists its own
      properties in the order [Object.entries] enumerates them; its keys are
      pairwise distinct.  An array has the index keys "0", "1", ...
    - A JavaScript string is a [string]; a character stands for one code
      unit, so the model covers code units below 256.
    - A JavaScript number is the rational it denotes ([Q]); a number of a
      document is the value of the double that [JSON.parse] produced.  The
      script compares numbers and takes remainders, which is exact on
      doubles.  Where it converts a string to a number the literal is
      rounded to a double ([roundToDouble]).  The score is the one computed
      number: [computeScore] gives it on rationals, [Score64] on doubles,
      and the two are compared.
    - [undefined] is [None] in an [option json].
    - A finding is a constructor of [passMsg], [warningMsg] or
      [criticalMsg] that carries the values the message interpolates; the
      message text is in the constructor's comment.  Building the message
      converts these values to strings, which can throw ([render]).
    - Mutation of the global [results] object is state passing in the monad
      [M]; an uncaught exception is the outcome [Thrown].  Variables that a
      visit callback captures and updates are the accumulator of
      [traverseTokens].
    - The functions of the script are embedded with no bound on the call
      stack.  [traverseTokensWithin], [checkReferencesWithin] and
      [auditWithin] are the two recursive functions and the run on a stack
      that holds a given number of nested calls: they end in a RangeError
      when a call finds the stack exhausted. *)

From Stdlib Require Import List String Ascii Bool Arith ZArith QArith Qround Lia.
From Stdlib Require Import DecimalString Floats.
Import ListNotations.
Local Close Scope Q_scope.
Local Open Scope string_scope.
Local Open Scope list_scope.
Local Open Scope nat_scope.

(** ** Strings *)

(** [s.startsWith(p)] *)
Definition startsWith (s p : string) : bool := String.prefix p s.

(** [s.endsWith(p)] *)
Definition endsWith (s p : string) : bool :=
  let n := String.length s in
  let m := String.length p in
  (m <=? n) && String.eqb (String.substring (n - m) m s) p.

(** [s.slice(1, -1)] *)
Definition slice_1_m1 (s : string) : string :=
  String.substring 1 (String.length s - 2) s.

(** [arr.includes(x)] on an array of strings *)
Definition includes (arr : list string) (x : string) : bool :=
  existsb (String.eqb x) arr.

(** [arr.includes(x)] where [x] may be [undefined] *)
Definition includes_opt (arr : list string) (x : option string) : bool :=
  match x with
  | Some s => includes arr s
  | None => false
  end.

Definition lowerChar (c : ascii) : ascii :=
  let n := nat_of_ascii c in
  if (65 <=? n) && (n <=? 90) || (192 <=? n) && (n <=? 214)
     || (216 <=? n) && (n <=? 222)
  then ascii_of_nat (n + 32) else c.

(** [s.toLowerCase()] *)
Fixpoint toLowerCase (s : string) : string :=
  match s with
  | EmptyString => EmptyString
  | String c s' => String (lowerChar c) (toLowerCase s')
  end.

(** The key of the [n]-th element of an array. *)
Definition indexKey (n : nat) : string :=
  NilZero.string_of_uint (Nat.to_uint n).

(** ** Numbers *)

(** The values of the Number type that the script can meet. *)
Inductive num : Type :=
| NaN
| Fin (q : Q)
| PosInf
| NegInf.

(** [a < b] *)
Definition num_lt (a b : num) : bool :=
  match a, b with
  | NaN, _ | _, NaN => false
  | Fin x, Fin y => negb (Qle_bool y x)
  | Fin _, PosInf => true
  | NegInf, Fin _ => true
  | NegInf, PosInf => true
  | _, _ => false
  end.

(** [a > b] *)
Definition num_gt (a b : num) : bool := num_lt b a.

Definition Qtrunc (q : Q) : Z :=
  if Qle_bool 0 q then Qfloor q else Qceiling q.

(** [a % b] for a finite non-zero [b] *)
Definition num_rem (a : num) (b : Q) : num :=
  match a with
  | Fin q => Fin (q - b * inject_Z (Qtrunc (q / b)))%Q
  | _ => NaN
  end.

(** [a !== 0] *)
Definition num_nonzero (a : num) : bool :=
  match a with
  | Fin q => negb (Qeq_bool q 0)
  | _ => true
  end.

Definition Qofnat (n : nat) : Q := inject_Z (Z.of_nat n).

(** *** Rounding to a double *)

(** [2^k <= n / d], for positive [n] and [d]. *)
Definition atLeastPow2 (n d k : Z) : bool :=
  if (0 <=? k)%Z then (d * 2 ^ k <=? n)%Z else (d <=? n * 2 ^ (- k))%Z.

(** The double nearest to [q], ties to the even mantissa: the value of
    [q] rounded to 53 significant bits, to a multiple of 2^-1074 below
    2^-1022, and to an infinity from 2^1024 - 2^970 on. *)
Definition roundToDouble (q : Q) : num :=
  let n := Z.abs (Qnum q) in
  let d := Z.pos (Qden q) in
  if (n =? 0)%Z then Fin 0
  else
    let e0 := (Z.log2 n - Z.log2 d - 1)%Z in
    let e := if atLeastPow2 n d (e0 + 1) then (e0 + 1)%Z else e0 in
    let p := Z.max (e - 52) (-1074) in
    let n' := if (0 <=? p)%Z then n else (n * 2 ^ (- p))%Z in
    let d' := if (0 <=? p)%Z then (d * 2 ^ p)%Z else d in
    let lo := (n' / d')%Z in
    let r := (n' mod d')%Z in
    let m := if (2 * r <? d')%Z then lo
             else if (d' <? 2 * r)%Z then (lo + 1)%Z
             else if Z.even lo then lo else (lo + 1)%Z in
    let negative := (Qnum q <? 0)%Z in
    if (0 <=? p)%Z && (2 ^ 1024 <=? m * 2 ^ p)%Z then
      if negative then NegInf else PosInf
    else
      let v := if (0 <=? p)%Z then inject_Z (m * 2 ^ p)
               else (inject_Z m / inject_Z (2 ^ (- p)))%Q in
      Fin (if negative then (- v)%Q else v).

(** *** StringToNumber (ECMA-262, 7.1.4.1.1) *)

Definition isStrWhiteSpace (c : ascii) : bool :=
  let n := nat_of_ascii c in
  (9 <=? n) && (n <=? 13) || (n =? 32) || (n =? 160).

Fixpoint dropWhile {A} (p : A -> bool) (l : list A) : list A :=
  match l with
  | x :: l' => if p x then dropWhile p l' else l
  | [] => []
  end.

Definition trimWhiteSpace (l : list ascii) : list ascii :=
  rev (dropWhile isStrWhiteSpace (rev (dropWhile isStrWhiteSpace l))).

Definition digitValue (base : Z) (c : ascii) : option Z :=
  let n := Z.of_nat (nat_of_ascii c) in
  let d :=
    (if (48 <=? n) && (n <=? 57) then n - 48
     else if (97 <=? n) && (n <=? 102) then n - 87
     else if (65 <=? n) && (n <=? 70) then n - 55
     else 99)%Z in
  if (d <? base)%Z then Some d else None.

(** Reads the longest run of digits: its value, its length, the rest. *)
Fixpoint takeDigits (base : Z) (l : list ascii) (acc : Z) (n : nat)
  : Z * nat * list ascii :=
  match l with
  | c :: l' =>
      match digitValue base c with
      | Some d => takeDigits base l' (acc * base + d)%Z (S n)
      | None => (acc, n, l)
      end
  | [] => (acc, n, l)
  end.

Definition pow10 (e : Z) : Q :=
  if (0 <=? e)%Z then inject_Z (10 ^ e) else (/ inject_Z (10 ^ (- e)))%Q.

Definition splitSign (l : list ascii) : bool * list ascii :=
  match l with
  | "+"%char :: l' => (false, l')
  | "-"%char :: l' => (true, l')
  | _ => (false, l)
  end.

Definition parseExponent (l : list ascii) : option Z :=
  match l with
  | [] => Some 0%Z
  | c :: l' =>
      if (Ascii.eqb c "e" || Ascii.eqb c "E")%char then
        let '(neg, l'') := splitSign l' in
        match takeDigits 10 l'' 0 0 with
        | (_, O, _) => None
        | (e, _, []) => Some (if neg then - e else e)%Z
        | _ => None
        end
      else None
  end.

Definition parseUnsignedDecimal (l : list ascii) : num :=
  if String.eqb (string_of_list_ascii l) "Infinity" then PosInf else
  let '(ip, ni, r1) := takeDigits 10 l 0 0 in
  let '(fp, nf, r2) :=
    match r1 with
    | "."%char :: r1' => takeDigits 10 r1' 0 0
    | _ => (0%Z, O, r1)
    end in
  match ni + nf with
  | O => NaN
  | _ =>
      match parseExponent r2 with
      | Some e =>
          roundToDouble
            (inject_Z (ip * 10 ^ Z.of_nat nf + fp) * pow10 (e - Z.of_nat nf))%Q
      | None => NaN
      end
  end.

Definition num_neg (a : num) : num :=
  match a with
  | NaN => NaN
  | Fin q => Fin (- q)%Q
  | PosInf => NegInf
  | NegInf => PosInf
  end.

Definition parseNonDecimal (base : Z) (l : list ascii) : num :=
  match takeDigits base l 0 0 with
  | (_, O, _) => NaN
  | (v, _, []) => roundToDouble (inject_Z v)
  | _ => NaN
  end.

Definition StringToNumber (s : string) : num :=
  match trimWhiteSpace (list_ascii_of_string s) with
  | [] => Fin 0
  | ("0"%char :: c :: l') as l =>
      if (Ascii.eqb c "x" || Ascii.eqb c "X")%char then parseNonDecimal 16 l'
      else if (Ascii.eqb c "o" || Ascii.eqb c "O")%char then parseNonDecimal 8 l'
      else if (Ascii.eqb c "b" || Ascii.eqb c "B")%char then parseNonDecimal 2 l'
      else parseUnsignedDecimal l
  | l =>
      let '(neg, l') := splitSign l in
      let v := parseUnsignedDecimal l' in
      if neg then num_neg v else v
  end.

(** ** Parsed JSON values *)

Unset Elimination Schemes.
Inductive json : Type :=
| JNull
| JBool (b : bool)
| JNum (q : Q)
| JStr (s : string)
| JArr (elems : list json)
| JObj (props : list (string * json)).
Set Elimination Schemes.

(** [typeof v] *)
Definition typeof (v : option json) : string :=
  match v with
  | None => "undefined"
  | Some JNull => "object"
  | Some (JBool _) => "boolean"
  | Some (JNum _) => "number"
  | Some (JStr _) => "string"
  | Some (JArr _) => "object"
  | Some (JObj _) => "object"
  end.

(** ToBoolean: the test of [if (v)], [!v] and [v && ...]. *)
Definition truthy (v : option json) : bool :=
  match v with
  | None => false
  | Some JNull => false
  | Some (JBool b) => b
  | Some (JNum q) => negb (Qeq_bool q 0)
  | Some (JStr s) => negb (String.eqb s "")
  | Some (JArr _) => true
  | Some (JObj _) => true
  end.

(** [Array.isArray(v)] *)
Definition isArray (v : option json) : bool :=
  match v with
  | Some (JArr _) => true
  | _ => false
  end.

(** [v === "lit"] for a string literal *)
Definition eqString (v : option json) (lit : string) : bool :=
  match v with
  | Some (JStr s) => String.eqb s lit
  | _ => false
  end.

Fixpoint lookup (k : string) (props : list (string * json)) : option json :=
  match props with
  | [] => None
  | (k', v) :: rest => if String.eqb k k' then Some v else lookup k rest
  end.

Definition hasOwn (k : string) (props : list (string * json)) : bool :=
  existsb (fun kv => String.eqb k (fst kv)) props.

Fixpoint getIndex (k : string) (l : list json) (i : nat) : option json :=
  match l with
  | [] => None
  | x :: l' => if String.eqb k (indexKey i) then Some x else getIndex k l' (S i)
  end.

Fixpoint getChar (k : string) (s : string) (i : nat) : option json :=
  match s with
  | EmptyString => None
  | String c s' =>
      if String.eqb k (indexKey i) then Some (JStr (String c EmptyString))
      else getChar k s' (S i)
  end.

(** [v.k] for a value [v] that is neither [null] nor [undefined], and a key
    [k] that names no method of a prototype. *)
Definition getProp (v : json) (k : string) : option json :=
  match v with
  | JObj props => lookup k props
  | JArr l =>
      if String.eqb k "length" then Some (JNum (Qofnat (List.length l)))
      else getIndex k l 0
  | JStr s =>
      if String.eqb k "length" then Some (JNum (Qofnat (String.length s)))
      else getChar k s 0
  | _ => None
  end.

(** [k in v], for a key that names no property of a prototype.  [None]: the
    right operand is not an object, a TypeError. *)
Definition inOperator (k : string) (v : json) : option bool :=
  match v with
  | JObj props => Some (hasOwn k props)
  | JArr l =>
      Some (String.eqb k "length"
            || existsb (String.eqb k) (map indexKey (seq 0 (List.length l))))
  | _ => None
  end.

(** [Object.entries(v)]; [None]: [v] is [null], a TypeError. *)
Definition entries (v : json) : option (list (string * json)) :=
  match v with
  | JNull => None
  | JObj props => Some props
  | JArr l => Some (combine (map indexKey (seq 0 (List.length l))) l)
  | JStr s =>
      let cs := list_ascii_of_string s in
      Some (combine (map indexKey (seq 0 (List.length cs)))
                    (map (fun c => JStr (String c EmptyString)) cs))
  | _ => Some []
  end.

(** ToNumber.  An array converts through its string: "" when empty, the
    string of its element when it has one (with [null] printed as ""), and a
    string with a comma otherwise; an object prints as "[object Object]". *)
Fixpoint toNumber_json (v : json) : num :=
  match v with
  | JNull => Fin 0
  | JBool b => Fin (if b then 1 else 0)
  | JNum q => Fin q
  | JStr s => StringToNumber s
  | JArr [] => Fin 0
  | JArr [x] =>
      match x with
      | JNull => Fin 0
      | JBool _ => NaN
      | JObj _ => NaN
      | _ => toNumber_json x
      end
  | JArr _ => NaN
  | JObj _ => NaN
  end.

Definition toNumber (v : option json) : num :=
  match v with
  | None => NaN
  | Some j => toNumber_json j
  end.

(** ToPrimitive succeeds.  An object converts through [toString], which
    every object inherits; an object with an own property of that name
    hides the method behind a value that cannot be called, and the
    conversion is a TypeError.  An array joins the strings of its
    elements. *)
Fixpoint convertible (v : json) : bool :=
  match v with
  | JObj props => negb (hasOwn "toString" props)
  | JArr elems => forallb convertible elems
  | _ => true
  end.

Definition convertibleOpt (v : option json) : bool :=
  match v with
  | Some j => convertible j
  | None => true
  end.

Definition isHexDigit (c : ascii) : bool :=
  match digitValue 16 c with
  | Some _ => true
  | None => false
  end.

(** [/^#[0-9A-Fa-f]{6}$/.test(s)] on a string *)
Definition isHexColor (s : string) : bool :=
  match list_ascii_of_string s with
  | "#"%char :: ds => (List.length ds =? 6) && forallb isHexDigit ds
  | _ => false
  end.

(** [/^#[0-9A-Fa-f]{6}$/.test(v)]: the regular expression is applied to
    [String(v)].  Only a string, or an array that prints as its single
    element, can print with a leading "#". *)
Fixpoint hexTest (v : json) : bool :=
  match v with
  | JStr s => isHexColor s
  | JArr [x] =>
      match x with
      | JNull => false
      | _ => hexTest x
      end
  | _ => false
  end.

(** ** Findings and the results object *)

Inductive layer : Type := primitive | semantic | unknown.

(** Messages pushed by [addPass]. *)
Inductive passMsg : Type :=
| AllHaveType                (* All tokens have $type declarations *)
| AllHaveDescription         (* All tokens have $description *)
| AllReferencesValid (n : nat) (* All ${n} token references are valid *)
| NoCircularReferences       (* No obvious circular references detected (basic check) *)
| NoLayerPrefixInPaths       (* No layer prefixes found in token paths *)
| NamingFollowsConvention    (* Token naming follows {type}.{category}.{scale}.{state?} convention *)
| AllFormatsCorrect          (* All token values use correct format for their type *)
| ScaleComplete (category : string) (* color.${category}: Complete 12-step scale (100-1200) *)
| StatesDefined              (* Interactive states (default, hover, pressed) are defined *)
| WhiteDefined               (* color.white is defined *)
| BlackDefined               (* color.black is defined *)
| TypesConsistent            (* All token categories use consistent $type declarations *)
| DescriptionsClear          (* All descriptions are clear and specific *)
| AccessibilityIncluded.     (* Accessibility information (contrast ratios) included in $extensions *)

(** Messages pushed by [addWarning]; [tp] is the token path. *)
Inductive warningMsg : Type :=
| HueRange (tp : string) (h : json)          (* Hue value ${h} outside expected range 0-360 *)
| SaturationRange (tp : string) (s : json)   (* Saturation value ${s} outside expected range 0-100 *)
| LightnessRange (tp : string) (l : json)    (* Lightness value ${l} outside expected range 0-100 *)
| UnexpectedUnit (tp : string) (unit : option json) (* Unexpected unit "${unit}". Primitives should use "px" or "em" *)
| TypographyMissing (tp : string) (missing : list string) (* Typography missing recommended properties: ... *)
| MissingDescription (tp : string)           (* Missing $description property *)
| DescriptionTooShort (tp : string) (len : option json) (* Description too short (${len} chars). Should be descriptive. *)
| DepthExceeded (tp : string) (depth : nat)  (* Nesting depth ${depth} exceeds recommended max of 4 *)
| StateNotFourLevels (tp : string) (state : string) (* Token with state "${state}" should have 4 levels *)
| FontWeightRange (tp : string) (v : json)   (* fontWeight should be 100-900 in increments of 100, got ${v} *)
| LineHeightRange (tp : string) (v : json)   (* lineHeight value ${v} seems unusual (expected 0.5-3) *)
| MissingEssential (pattern : string)        (* Missing essential semantic token pattern: ${pattern} *)
| MissingScales (category : string) (missing : list string) (* color.${category}: Missing scale values: ... *)
| NoInteractiveStates                        (* No interactive states found. Consider adding hover/pressed states. *)
| MissingWhite                               (* Missing color.white primitive token *)
| MissingBlack                               (* Missing color.black primitive token *)
| DescriptionGeneric (tp : string) (desc : string) (* Description may be too generic: "${desc}" *)
| MultipleTypes (category : string) (types : list (option json)) (* Category "${category}" has multiple types: ... Should be consistent. *)
| NoAccessibilityInfo.                       (* Consider adding contrast ratio information to text color tokens for WCAG compliance *)

(** Messages pushed by [addCritical]; [tp] is the token path. *)
Inductive criticalMsg : Type :=
| ColorStringFormat (tp : string) (value : string) (* Color uses string format ("${value}"). Must use HSL object format per ADR 006 *)
| ColorInvalidFormat (tp : string)           (* Invalid color value format *)
| ColorMissingProps (tp : string) (missing : list string) (* Missing required color properties: ... *)
| ColorSpaceNotHsl (tp : string) (got : option json) (* colorSpace must be "hsl", got "${got}" *)
| ColorComponents (tp : string)              (* components must be array of 3 numbers [H, S, L] *)
| ColorAlpha (tp : string) (got : option json) (* alpha must be number between 0 and 1, got ${got} *)
| ColorHex (tp : string) (got : option json) (* hex must be valid 6-digit hex color, got "${got}" *)
| DimensionStringFormat (tp : string) (value : string) (* Dimension uses string format ("${value}"). Must use {value, unit} object per ADR 005 *)
| DimensionInvalidFormat (tp : string)       (* Invalid dimension value format *)
| DimensionMissingProps (tp : string)        (* Dimension must have both 'value' and 'unit' properties *)
| DimensionValueType (tp : string) (ty : string) (* Dimension 'value' must be a number, got ${ty} *)
| DimensionUnitType (tp : string) (ty : string)  (* Dimension 'unit' must be a string, got ${ty} *)
| TypographyNotObject (tp : string)          (* Typography value must be an object *)
| ShadowNotObject (tp : string)              (* Shadow value must be an object *)
| ShadowMissingProps (tp : string) (missing : list string) (* Shadow missing required properties: ... *)
| MissingTypeProperty (tp : string)          (* Missing required $type property *)
| FontFamilyNotArray (tp : string)           (* fontFamily must be an array of font names *)
| NumberTypeMismatch (tp : string) (ty : string) (* Type is 'number' but value is ${ty} *)
| ReferenceNotFound (tp : string) (ref : string) (* Reference "{${ref}}" points to non-existent token *)
| ReferenceLayerPrefix (tp : string) (ref : string) (* Reference "{${ref}}" includes layer prefix. Use ... *)
| PathLayerPrefix (tp : string)              (* Token path includes layer prefix. Remove it per ADR 001. *)
| NumberNotNumeric (tp : string)             (* Type is 'number' but value is not numeric *)
| OpacityRange (tp : string) (v : json).     (* opacity must be 0-1, got ${v} *)

Record statistics : Type := mkStats {
  totalTokens : nat;
  primitiveTokens : nat;
  semanticTokens : nat;
  missingType : nat;
  missingDescription : nat;
  invalidReferences : nat
}.

Record results : Type := mkResults {
  pass : list passMsg;
  warnings : list warningMsg;
  critical : list criticalMsg;
  stats : statistics
}.

Definition results0 : results :=
  mkResults [] [] [] (mkStats 0 0 0 0 0 0).

(** ** The monad of the script: the global [results], and exceptions *)

Inductive error : Type :=
| TypeError (what : string)
| RangeError (what : string).

Inductive outcome (A : Type) : Type :=
| Returned (a : A) (r : results)
| Thrown (e : error).
Arguments Returned {A} a r.
Arguments Thrown {A} e.

Definition M (A : Type) : Type := results -> outcome A.

Definition ret {A} (a : A) : M A := fun r => Returned a r.

Definition bind {A B} (m : M A) (k : A -> M B) : M B :=
  fun r =>
    match m r with
    | Returned a r' => k a r'
    | Thrown e => Thrown e
    end.

Definition throw {A} (e : error) : M A := fun _ => Thrown e.

Notation "x <- m ;; k" := (bind m (fun x => k))
  (at level 61, m at next level, right associativity).
Notation "m ;; k" := (bind m (fun _ => k))
  (at level 61, right associativity).

Definition when (b : bool) (m : M unit) : M unit :=
  if b then m else ret tt.

Definition addPass (message : passMsg) : M unit :=
  fun r => Returned tt
    (mkResults (pass r ++ [message]) (warnings r) (critical r) (stats r)).

Definition addWarning (message : warningMsg) : M unit :=
  fun r => Returned tt
    (mkResults (pass r) (warnings r ++ [message]) (critical r) (stats r)).

Definition addCritical (message : criticalMsg) : M unit :=
  fun r => Returned tt
    (mkResults (pass r) (warnings r) (critical r ++ [message]) (stats r)).

Definition getStats : M statistics := fun r => Returned (stats r) r.

Definition modifyStats (f : statistics -> statistics) : M unit :=
  fun r => Returned tt
    (mkResults (pass r) (warnings r) (critical r) (f (stats r))).

(** *** Coercions *)

Definition conversionError : error :=
  TypeError "Cannot convert object to primitive value".

(** ToNumber of an operand of [<], [>] or [%]. *)
Definition toNumberM (v : option json) : M num :=
  if convertibleOpt v then ret (toNumber v) else throw conversionError.

(** ToString of a value interpolated in a message or joined in a list; the
    string itself is not kept. *)
Definition render (v : option json) : M unit :=
  if convertibleOpt v then ret tt else throw conversionError.

(** [v < c] and [v > c] for a numeric literal [c] *)
Definition lessThan (v : option json) (c : Q) : M bool :=
  n <- toNumberM v ;; ret (num_lt n (Fin c)).
Definition greaterThan (v : option json) (c : Q) : M bool :=
  n <- toNumberM v ;; ret (num_gt n (Fin c)).

(** [a || b] *)
Definition orM (a b : M bool) : M bool :=
  x <- a ;; if x then ret true else b.

(** [/^#[0-9A-Fa-f]{6}$/.test(v)] *)
Definition testHex (v : option json) : M bool :=
  match v with
  | Some hex => render v ;; ret (hexTest hex)
  | None => ret false
  end.

(** The three increments of [traverseTokens]. *)
Definition countToken (l : layer) (s : statistics) : statistics :=
  mkStats (S (totalTokens s))
          (match l with primitive => S (primitiveTokens s) | _ => primitiveTokens s end)
          (match l with semantic => S (semanticTokens s) | _ => semanticTokens s end)
          (missingType s) (missingDescription s) (invalidReferences s).

Definition incrMissingType (s : statistics) : statistics :=
  mkStats (totalTokens s) (primitiveTokens s) (semanticTokens s)
          (S (missingType s)) (missingDescription s) (invalidReferences s).

Definition incrMissingDescription (s : statistics) : statistics :=
  mkStats (totalTokens s) (primitiveTokens s) (semanticTokens s)
          (missingType s) (S (missingDescription s)) (invalidReferences s).

Definition incrInvalidReferences (s : statistics) : statistics :=
  mkStats (totalTokens s) (primitiveTokens s) (semanticTokens s)
          (missingType s) (missingDescription s) (S (invalidReferences s)).

(** ** traverseTokens *)

Definition isMetadataKey (key : string) : bool := startsWith key "$".

(** [traverseTokens(obj, callback, path, layer)].  The accumulator [acc]
    holds the variables that the callback captures from its checker. *)
Fixpoint traverseTokens {A} (obj : json)
    (callback : list string -> json -> layer -> A -> M A)
    (path : list string) (l : layer) (acc : A) {struct obj} : M A :=
  let visit (key : string) (value : json) (recurse : list string -> A -> M A)
            (acc : A) : M A :=
    if isMetadataKey key then ret acc
    else
      let currentPath := path ++ [key] in
      match value with
      | JObj props =>
          if hasOwn "$value" props then
            acc' <- callback currentPath value l acc ;;
            modifyStats (countToken l) ;;
            ret acc'
          else recurse currentPath acc
      | JArr _ => recurse currentPath acc
      | _ => ret acc
      end in
  match obj with
  | JNull => throw (TypeError "Cannot convert undefined or null to object")
  | JObj props =>
      (fix loop (props : list (string * json)) (acc : A) : M A :=
         match props with
         | [] => ret acc
         | (key, value) :: rest =>
             acc' <- visit key value
                       (fun p a => traverseTokens value callback p l a) acc ;;
             loop rest acc'
         end) props acc
  | JArr elems =>
      (fix loop (elems : list json) (i : nat) (acc : A) : M A :=
         match elems with
         | [] => ret acc
         | value :: rest =>
             acc' <- visit (indexKey i) value
                       (fun p a => traverseTokens value callback p l a) acc ;;
             loop rest (S i) acc'
         end) elems 0 acc
  | _ => ret acc
  end.

(** [getTokenPath(pathArray)] *)
Definition getTokenPath (pathArray : list string) : string :=
  String.concat "." pathArray.

(** ** Value validators *)

(** [prop in value], throwing when [value] is not an object. *)
Definition hasProp (prop : string) (value : json) : M bool :=
  match inOperator prop value with
  | Some b => ret b
  | None => throw (TypeError "Cannot use 'in' operator to search in a non-object")
  end.

(** [required.filter(prop => !(prop in value))] *)
Fixpoint missingProps (required : list string) (value : json) : M (list string) :=
  match required with
  | [] => ret []
  | prop :: rest =>
      b <- hasProp prop value ;;
      missing <- missingProps rest value ;;
      ret (if b then missing else prop :: missing)
  end.

(** [!value || typeof value !== 'object'] *)
Definition notAnObject (value : json) : bool :=
  negb (truthy (Some value)) || negb (String.eqb (typeof (Some value)) "object").

Definition validateColorValue (value : json) (tokenPath : string) : M bool :=
  match value with
  | JStr s =>
      addCritical (ColorStringFormat tokenPath s) ;; ret false
  | _ =>
      if notAnObject value then
        addCritical (ColorInvalidFormat tokenPath) ;; ret false
      else
        missing <- missingProps ["colorSpace"; "components"; "alpha"; "hex"] value ;;
        if 0 <? List.length missing then
          addCritical (ColorMissingProps tokenPath missing) ;; ret false
        else if negb (eqString (getProp value "colorSpace") "hsl") then
          render (getProp value "colorSpace") ;;
          addCritical (ColorSpaceNotHsl tokenPath (getProp value "colorSpace")) ;;
          ret false
        else
          match getProp value "components" with
          | Some (JArr [h; s; l]) =>
              out <- orM (lessThan (Some h) 0) (greaterThan (Some h) 360) ;;
              when out
                (render (Some h) ;; addWarning (HueRange tokenPath h)) ;;
              out <- orM (lessThan (Some s) 0) (greaterThan (Some s) 100) ;;
              when out
                (render (Some s) ;; addWarning (SaturationRange tokenPath s)) ;;
              out <- orM (lessThan (Some l) 0) (greaterThan (Some l) 100) ;;
              when out
                (render (Some l) ;; addWarning (LightnessRange tokenPath l)) ;;
              let alpha := getProp value "alpha" in
              bad <- orM (ret (negb (String.eqb (typeof alpha) "number")))
                         (orM (lessThan alpha 0) (greaterThan alpha 1)) ;;
              if bad then
                render alpha ;;
                addCritical (ColorAlpha tokenPath alpha) ;; ret false
              else
                ok <- testHex (getProp value "hex") ;;
                if negb ok then
                  render (getProp value "hex") ;;
                  addCritical (ColorHex tokenPath (getProp value "hex")) ;;
                  ret false
                else ret true
          | _ =>
              (* not an array, or not of length 3 *)
              addCritical (ColorComponents tokenPath) ;; ret false
          end
  end.

Definition validateDimensionValue (value : json) (tokenPath : string) : M bool :=
  match value with
  | JStr s =>
      addCritical (DimensionStringFormat tokenPath s) ;; ret false
  | _ =>
      if notAnObject value then
        addCritical (DimensionInvalidFormat tokenPath) ;; ret false
      else
        hasValue <- hasProp "value" value ;;
        hasUnit <- (if hasValue then hasProp "unit" value else ret false) ;;
        if negb hasValue || negb hasUnit then
          addCritical (DimensionMissingProps tokenPath) ;; ret false
        else
          let v := getProp value "value" in
          let u := getProp value "unit" in
          if negb (String.eqb (typeof v) "number") then
            addCritical (DimensionValueType tokenPath (typeof v)) ;; ret false
          else if negb (String.eqb (typeof u) "string") then
            addCritical (DimensionUnitType tokenPath (typeof u)) ;; ret false
          else
            when (negb (eqString u "px") && negb (eqString u "em"))
              (addWarning (UnexpectedUnit tokenPath u)) ;;
            ret true
  end.

Definition validateTypographyValue (value : json) (tokenPath : string) : M bool :=
  if notAnObject value then
    addCritical (TypographyNotObject tokenPath) ;; ret false
  else
    missing <- missingProps ["fontFamily"; "fontSize"; "fontWeight"; "lineHeight"] value ;;
    when (0 <? List.length missing)
      (addWarning (TypographyMissing tokenPath missing)) ;;
    ret true.

(** The [for (const shadow of shadows)] loop of [validateShadowValue]. *)
Fixpoint validateShadows (shadows : list json) (tokenPath : string) : M bool :=
  match shadows with
  | [] => ret true
  | shadow :: rest =>
      missing <- missingProps ["offsetX"; "offsetY"; "blur"; "color"] shadow ;;
      if 0 <? List.length missing then
        addCritical (ShadowMissingProps tokenPath missing) ;; ret false
      else validateShadows rest tokenPath
  end.

Definition validateShadowValue (value : json) (tokenPath : string) : M bool :=
  if notAnObject value then
    addCritical (ShadowNotObject tokenPath) ;; ret false
  else
    let shadows := match value with JArr elems => elems | _ => [value] end in
    validateShadows shadows tokenPath.

(** ** Small helpers shared by the checkers *)

(** [set.add(x)] and [set.has(x)] on a [Set] of strings, kept in insertion
    order. *)
Definition setAdd (set : list string) (x : string) : list string :=
  if includes set x then set else set ++ [x].

(** [path[i]] *)
Definition segment (path : list string) (i : nat) : option string :=
  nth_error path i.

(** [path[path.length - 1]] *)
Definition lastSegment (path : list string) : option string :=
  match path with
  | [] => None
  | _ => nth_error path (List.length path - 1)
  end.

(** [seg === "lit"] for a path segment that may be [undefined] *)
Definition segmentIs (seg : option string) (lit : string) : bool :=
  match seg with
  | Some s => String.eqb s lit
  | None => false
  end.

Definition isLayerPrefixed (s : string) : bool :=
  startsWith s "primitive." || startsWith s "semantic.".

(** A callback that builds an index of token paths. *)
Definition indexCallback (path : list string) (token : json) (l : layer)
    (index : list string) : M (list string) :=
  ret (setAdd index (getTokenPath path)).

Section Audit.

(** The two documents loaded at start-up. *)
Variables primitiveTokens semanticTokens : json.

(** ** Check 1: W3C DTCG compliance *)

Definition typeCallback (path : list string) (token : json) (l : layer)
    (_ : unit) : M unit :=
  let tokenPath := getTokenPath path in
  when (negb (truthy (getProp token "$type")))
    (addCritical (MissingTypeProperty tokenPath) ;;
     modifyStats incrMissingType).

Definition primitiveDescriptionCallback (path : list string) (token : json)
    (l : layer) (_ : unit) : M unit :=
  let tokenPath := getTokenPath path in
  match getProp token "$description" with
  | Some d =>
      if negb (truthy (Some d)) then
        addWarning (MissingDescription tokenPath) ;;
        modifyStats incrMissingDescription
      else
        short <- lessThan (getProp d "length") 10 ;;
        when short
          (render (getProp d "length") ;;
           addWarning (DescriptionTooShort tokenPath (getProp d "length")))
  | None =>
      addWarning (MissingDescription tokenPath) ;;
      modifyStats incrMissingDescription
  end.

Definition semanticDescriptionCallback (path : list string) (token : json)
    (l : layer) (_ : unit) : M unit :=
  let tokenPath := getTokenPath path in
  when (negb (truthy (getProp token "$description")))
    (addWarning (MissingDescription tokenPath) ;;
     modifyStats incrMissingDescription).

(** [token.$value], which a token always has. *)
Definition valueOf (token : json) : json :=
  match getProp token "$value" with
  | Some v => v
  | None => JNull
  end.

Definition valueFormatCallback (path : list string) (token : json)
    (l : layer) (_ : unit) : M unit :=
  let tokenPath := getTokenPath path in
  let type := getProp token "$type" in
  if eqString type "color" then
    _ <- validateColorValue (valueOf token) tokenPath ;; ret tt
  else if eqString type "dimension" then
    _ <- validateDimensionValue (valueOf token) tokenPath ;; ret tt
  else if eqString type "fontFamily" then
    when (negb (isArray (getProp token "$value")))
      (addCritical (FontFamilyNotArray tokenPath))
  else if eqString type "number" then
    when (negb (String.eqb (typeof (getProp token "$value")) "number"))
      (addCritical (NumberTypeMismatch tokenPath (typeof (getProp token "$value"))))
  else ret tt.

Definition depthCallback (path : list string) (token : json) (l : layer)
    (_ : unit) : M unit :=
  when (4 <? List.length path)
    (addWarning (DepthExceeded (getTokenPath path) (List.length path))).

Definition checkDTCGCompliance : M unit :=
  (* all tokens have $type *)
  traverseTokens primitiveTokens typeCallback [] primitive tt ;;
  traverseTokens semanticTokens typeCallback [] semantic tt ;;
  (* all tokens have $description *)
  traverseTokens primitiveTokens primitiveDescriptionCallback [] primitive tt ;;
  traverseTokens semanticTokens semanticDescriptionCallback [] semantic tt ;;
  (* value formats match type *)
  traverseTokens primitiveTokens valueFormatCallback [] primitive tt ;;
  (* nesting depth *)
  traverseTokens primitiveTokens depthCallback [] primitive tt ;;
  traverseTokens semanticTokens depthCallback [] semantic tt ;;
  s <- getStats ;;
  when (missingType s =? 0) (addPass AllHaveType) ;;
  s <- getStats ;;
  when (missingDescription s =? 0) (addPass AllHaveDescription).

(** ** Check 2: reference integrity *)

(** The inner function [checkReferences(value, tokenPath)]; the set
    [allReferences] that it updates is threaded through. *)
Fixpoint checkReferences (primitiveIndex semanticIndex : list string)
    (value : json) (tokenPath : string) (allReferences : list string)
    {struct value} : M (list string) :=
  match value with
  | JStr s =>
      if startsWith s "{" && endsWith s "}" then
        let ref := slice_1_m1 s in
        let allReferences := setAdd allReferences ref in
        when (negb (includes primitiveIndex ref) && negb (includes semanticIndex ref))
          (addCritical (ReferenceNotFound tokenPath ref) ;;
           modifyStats incrInvalidReferences) ;;
        when (isLayerPrefixed ref)
          (addCritical (ReferenceLayerPrefix tokenPath ref)) ;;
        ret allReferences
      else ret allReferences
  | JObj props =>
      (fix loop (props : list (string * json)) (all : list string) : M (list string) :=
         match props with
         | [] => ret all
         | (_, v) :: rest =>
             all' <- checkReferences primitiveIndex semanticIndex v tokenPath all ;;
             loop rest all'
         end) props allReferences
  | JArr elems =>
      (fix loop (elems : list json) (all : list string) : M (list string) :=
         match elems with
         | [] => ret all
         | v :: rest =>
             all' <- checkReferences primitiveIndex semanticIndex v tokenPath all ;;
             loop rest all'
         end) elems allReferences
  | _ => ret allReferences
  end.

Definition referenceCallback (primitiveIndex semanticIndex : list string)
    (path : list string) (token : json) (l : layer)
    (allReferences : list string) : M (list string) :=
  all <- checkReferences primitiveIndex semanticIndex (valueOf token)
           (getTokenPath path) allReferences ;;
  (* $extensions.opacity *)
  match getProp token "$extensions" with
  | Some ext =>
      if truthy (Some ext) then
        match getProp ext "opacity" with
        | Some opacity =>
            if truthy (Some opacity) then
              checkReferences primitiveIndex semanticIndex opacity
                (getTokenPath path) all
            else ret all
        | None => ret all
        end
      else ret all
  | None => ret all
  end.

Definition checkReferenceIntegrity : M unit :=
  primitiveIndex <- traverseTokens primitiveTokens indexCallback [] primitive [] ;;
  semanticIndex <- traverseTokens semanticTokens indexCallback [] semantic [] ;;
  allReferences <- traverseTokens semanticTokens
                     (referenceCallback primitiveIndex semanticIndex)
                     [] semantic [] ;;
  s <- getStats ;;
  when (invalidReferences s =? 0)
    (addPass (AllReferencesValid (List.length allReferences))) ;;
  (* the circular-reference check *)
  addPass NoCircularReferences.

(** ** Check 3: naming conventions *)

Definition layerPrefixCallback (path : list string) (token : json) (l : layer)
    (namingIssues : nat) : M nat :=
  let tokenPath := getTokenPath path in
  if isLayerPrefixed tokenPath then
    addCritical (PathLayerPrefix tokenPath) ;; ret (S namingIssues)
  else ret namingIssues.

Definition states : list string :=
  ["default"; "hover"; "pressed"; "active"; "focus"; "disabled"; "visited";
   "selected"].

Definition stateCallback (path : list string) (token : json) (l : layer)
    (_ : unit) : M unit :=
  match lastSegment path with
  | Some last =>
      when (includes states last && negb (List.length path =? 4))
        (addWarning (StateNotFourLevels (getTokenPath path) last))
  | None => ret tt
  end.

Definition checkNamingConventions : M unit :=
  namingIssues <- traverseTokens primitiveTokens layerPrefixCallback [] primitive 0 ;;
  namingIssues <- traverseTokens semanticTokens layerPrefixCallback [] semantic namingIssues ;;
  traverseTokens semanticTokens stateCallback [] semantic tt ;;
  when (namingIssues =? 0)
    (addPass NoLayerPrefixInPaths ;; addPass NamingFollowsConvention).

(** ** Check 4: value-format consistency *)

Definition colorFormatCallback (path : list string) (token : json) (l : layer)
    (formatIssues : nat) : M nat :=
  if eqString (getProp token "$type") "color" then
    ok <- validateColorValue (valueOf token) (getTokenPath path) ;;
    ret (if ok then formatIssues else S formatIssues)
  else ret formatIssues.

Definition dimensionFormatCallback (path : list string) (token : json)
    (l : layer) (formatIssues : nat) : M nat :=
  if eqString (getProp token "$type") "dimension" then
    ok <- validateDimensionValue (valueOf token) (getTokenPath path) ;;
    ret (if ok then formatIssues else S formatIssues)
  else ret formatIssues.

Definition typographyFormatCallback (path : list string) (token : json)
    (l : layer) (formatIssues : nat) : M nat :=
  if eqString (getProp token "$type") "typography" then
    ok <- validateTypographyValue (valueOf token) (getTokenPath path) ;;
    ret (if ok then formatIssues else S formatIssues)
  else ret formatIssues.

Definition shadowFormatCallback (path : list string) (token : json)
    (l : layer) (formatIssues : nat) : M nat :=
  if eqString (getProp token "$type") "shadow" then
    ok <- validateShadowValue (valueOf token) (getTokenPath path) ;;
    ret (if ok then formatIssues else S formatIssues)
  else ret formatIssues.

Definition numberFormatCallback (path : list string) (token : json)
    (l : layer) (formatIssues : nat) : M nat :=
  let tokenPath := getTokenPath path in
  let v := getProp token "$value" in
  if eqString (getProp token "$type") "number" then
    formatIssues <-
      (if negb (String.eqb (typeof v) "number") then
         addCritical (NumberNotNumeric tokenPath) ;; ret (S formatIssues)
       else ret formatIssues) ;;
    (if startsWith tokenPath "fontWeight." then
       odd <- orM (lessThan v 100)
                (orM (greaterThan v 900)
                     (n <- toNumberM v ;; ret (num_nonzero (num_rem n 100)))) ;;
       when odd
         (render v ;; addWarning (FontWeightRange tokenPath (valueOf token)))
     else ret tt) ;;
    (if startsWith tokenPath "lineHeight." then
       odd <- orM (lessThan v (1 # 2)) (greaterThan v 3) ;;
       when odd
         (render v ;; addWarning (LineHeightRange tokenPath (valueOf token)))
     else ret tt) ;;
    if startsWith tokenPath "opacity." then
      out <- orM (lessThan v 0) (greaterThan v 1) ;;
      if out then
        render v ;;
        addCritical (OpacityRange tokenPath (valueOf token)) ;;
        ret (S formatIssues)
      else ret formatIssues
    else ret formatIssues
  else ret formatIssues.

Definition checkValueFormatConsistency : M unit :=
  formatIssues <- traverseTokens primitiveTokens colorFormatCallback [] primitive 0 ;;
  formatIssues <- traverseTokens primitiveTokens dimensionFormatCallback [] primitive formatIssues ;;
  formatIssues <- traverseTokens semanticTokens typographyFormatCallback [] semantic formatIssues ;;
  formatIssues <- traverseTokens semanticTokens shadowFormatCallback [] semantic formatIssues ;;
  formatIssues <- traverseTokens primitiveTokens numberFormatCallback [] primitive formatIssues ;;
  when (formatIssues =? 0) (addPass AllFormatsCorrect).

(** ** Check 5: completeness *)

Definition essentialSemantics : list string :=
  ["color.text.neutral.base.default";
   "color.background.neutral.base.default";
   "color.border.neutral.base.default";
   "typography.body.md.default";
   "typography.heading"].

Definition expectedScales : list string :=
  ["100"; "200"; "300"; "400"; "500"; "600"; "700"; "800"; "900"; "1000";
   "1100"; "1200"].

Definition colorCategories : list string :=
  ["primary"; "secondary"; "neutral"; "success"; "warning"; "error"].

(** The loop over [essentialSemantics]. *)
Fixpoint checkEssentials (semanticIndex : list string) (essentials : list string)
    (missingEssentials : nat) : M nat :=
  match essentials with
  | [] => ret missingEssentials
  | essential :: rest =>
      let exists_ := existsb (fun path => startsWith path essential) semanticIndex in
      if negb exists_ then
        addWarning (MissingEssential essential) ;;
        checkEssentials semanticIndex rest (S missingEssentials)
      else checkEssentials semanticIndex rest missingEssentials
  end.

Definition scaleCallback (category : string) (path : list string)
    (token : json) (l : layer) (foundScales : list (option string))
    : M (list (option string)) :=
  if segmentIs (segment path 0) "color" && segmentIs (segment path 1) category
  then ret (foundScales ++ [segment path 2])
  else ret foundScales.

(** The body of the [forEach] over the colour categories. *)
Definition checkScale (category : string) : M unit :=
  foundScales <- traverseTokens primitiveTokens (scaleCallback category) [] primitive [] ;;
  let missing :=
    filter (fun s => negb (existsb (fun o => segmentIs o s) foundScales))
           expectedScales in
  if 0 <? List.length missing then
    addWarning (MissingScales category missing)
  else addPass (ScaleComplete category).

Fixpoint forEach {A} (f : A -> M unit) (l : list A) : M unit :=
  match l with
  | [] => ret tt
  | x :: rest => f x ;; forEach f rest
  end.

Definition statePatterns : list string := ["default"; "hover"; "pressed"].

Definition hasStatesCallback (path : list string) (token : json) (l : layer)
    (hasStates : bool) : M bool :=
  if includes_opt statePatterns (lastSegment path) then ret true
  else ret hasStates.

Definition checkCompleteness : M unit :=
  semanticIndex <- traverseTokens semanticTokens indexCallback [] semantic [] ;;
  _ <- checkEssentials semanticIndex essentialSemantics 0 ;;
  forEach checkScale colorCategories ;;
  hasStates <- traverseTokens semanticTokens hasStatesCallback [] semantic false ;;
  (if hasStates then addPass StatesDefined else addWarning NoInteractiveStates) ;;
  primitiveIndex <- traverseTokens primitiveTokens indexCallback [] primitive [] ;;
  (if includes primitiveIndex "color.white" then addPass WhiteDefined
   else addWarning MissingWhite) ;;
  (if includes primitiveIndex "color.black" then addPass BlackDefined
   else addWarning MissingBlack).

(** ** Check 6: quality *)

Definition vagueWords : list string := ["color"; "token"; "value"; "style"].

Definition genericDescriptionCallback (path : list string) (token : json)
    (l : layer) (unclearDescriptions : nat) : M nat :=
  match getProp token "$description" with
  | Some d =>
      if truthy (Some d) then
        match d with
        | JStr s =>
            let desc := toLowerCase s in
            let hasVague :=
              existsb (fun word =>
                         String.eqb desc word
                         || startsWith desc (word ++ " ")
                         || startsWith desc (word ++ "."))
                      vagueWords in
            if hasVague && (String.length desc <? 20) then
              addWarning (DescriptionGeneric (getTokenPath path) s) ;;
              ret (S unclearDescriptions)
            else ret unclearDescriptions
        | _ =>
            (* only a string has the method *)
            throw (TypeError "token.$description.toLowerCase is not a function")
        end
      else ret unclearDescriptions
  | None => ret unclearDescriptions
  end.

(** The names that every plain object inherits from [Object.prototype]:
    reading them from the empty object [typesByCategory] gives a function
    (for ["__proto__"], the prototype), never [undefined]. *)
Definition objectPrototypeKeys : list string :=
  ["constructor"; "__defineGetter__"; "__defineSetter__"; "hasOwnProperty";
   "__lookupGetter__"; "__lookupSetter__"; "isPrototypeOf";
   "propertyIsEnumerable"; "toString"; "valueOf"; "__proto__";
   "toLocaleString"].

(** SameValueZero, the equality of [Set].  Two objects are equal only when
    they are the same object, and each [$type] is met once. *)
Definition sameValueZero (a b : option json) : bool :=
  match a, b with
  | None, None => true
  | Some JNull, Some JNull => true
  | Some (JBool x), Some (JBool y) => Bool.eqb x y
  | Some (JNum x), Some (JNum y) => Qeq_bool x y
  | Some (JStr x), Some (JStr y) => String.eqb x y
  | _, _ => false
  end.

(** [types.add(t)] *)
Definition typeSetAdd (types : list (option json)) (t : option json)
  : list (option json) :=
  if existsb (sameValueZero t) types then types else types ++ [t].

(** [typesByCategory[category].add(t)], after the set was created if the
    category had none; the object is kept in insertion order. *)
Fixpoint addType (typesByCategory : list (string * list (option json)))
    (category : string) (t : option json)
  : list (string * list (option json)) :=
  match typesByCategory with
  | [] => [(category, [t])]
  | (c, types) :: rest =>
      if String.eqb c category then (c, typeSetAdd types t) :: rest
      else (c, types) :: addType rest category t
  end.

Definition typeCollectCallback (path : list string) (token : json) (l : layer)
    (typesByCategory : list (string * list (option json)))
  : M (list (string * list (option json))) :=
  let category := match segment path 0 with
                  | Some c => c
                  | None => "undefined"
                  end in
  if includes objectPrototypeKeys category then
    throw (TypeError "typesByCategory[category].add is not a function")
  else ret (addType typesByCategory category (getProp token "$type")).

(** A canonical numeric string below 2^32 - 1 is an array index. *)
Definition arrayIndex (k : string) : option Z :=
  match list_ascii_of_string k with
  | [] => None
  | c :: cs =>
      if Ascii.eqb c "0" && negb (List.length cs =? 0) then None
      else
        match takeDigits 10 (c :: cs) 0 0 with
        | (v, _, []) => if (v <=? 4294967294)%Z then Some v else None
        | _ => None
        end
  end.

Fixpoint insertIndexed {A} (i : Z) (kv : string * A)
    (l : list (Z * (string * A))) : list (Z * (string * A)) :=
  match l with
  | [] => [(i, kv)]
  | (j, kv') :: rest =>
      if (i <? j)%Z then (i, kv) :: l else (j, kv') :: insertIndexed i kv rest
  end.

(** [Object.entries(o)] of an object [o] built by assignments: the array
    indices in ascending order, then the other keys in insertion order. *)
Definition orderedEntries {A} (o : list (string * A)) : list (string * A) :=
  let indexed :=
    fold_left (fun acc kv =>
                 match arrayIndex (fst kv) with
                 | Some i => insertIndexed i kv acc
                 | None => acc
                 end) o [] in
  map snd indexed
  ++ filter (fun kv => match arrayIndex (fst kv) with
                       | Some _ => false
                       | None => true
                       end) o.

(** The loop over [Object.entries(typesByCategory)]. *)
Fixpoint checkTypeSets (sets : list (string * list (option json)))
    (typeInconsistencies : nat) : M nat :=
  match sets with
  | [] => ret typeInconsistencies
  | (category, types) :: rest =>
      if 1 <? List.length types then
        forEach render types ;;
        addWarning (MultipleTypes category types) ;;
        checkTypeSets rest (S typeInconsistencies)
      else checkTypeSets rest typeInconsistencies
  end.

Definition accessibilityCallback (path : list string) (token : json)
    (l : layer) (hasAccessibilityInfo : bool) : M bool :=
  match getProp token "$extensions" with
  | Some ext =>
      if truthy (Some ext) && truthy (getProp ext "contrast") then ret true
      else ret hasAccessibilityInfo
  | None => ret hasAccessibilityInfo
  end.

Definition checkQuality : M unit :=
  unclearDescriptions <-
    traverseTokens primitiveTokens genericDescriptionCallback [] primitive 0 ;;
  typesByCategory <-
    traverseTokens primitiveTokens typeCollectCallback [] primitive [] ;;
  typeInconsistencies <- checkTypeSets (orderedEntries typesByCategory) 0 ;;
  when (typeInconsistencies =? 0) (addPass TypesConsistent) ;;
  when (unclearDescriptions =? 0) (addPass DescriptionsClear) ;;
  hasAccessibilityInfo <-
    traverseTokens semanticTokens accessibilityCallback [] semantic false ;;
  if hasAccessibilityInfo then addPass AccessibilityIncluded
  else addWarning NoAccessibilityInfo.

End Audit.

(** ** printResults *)

(** [Math.round(x)]: the nearest integer, a half going up. *)
Definition Math_round (x : Q) : Z := Qfloor (x + (1 # 2)).

Inductive verdict : Type :=
| ProductionReady              (* PRODUCTION READY *)
| ProductionReadyWithWarnings  (* PRODUCTION READY WITH WARNINGS *)
| NotProductionReady.          (* NOT PRODUCTION READY *)

(** What [printResults] reports, and the exit code of the process. *)
Record report : Type := mkReport {
  findings : results;
  score : Z;
  scoreLabel : string;
  readiness : verdict;
  exitCode : nat
}.

Definition computeScore (r : results) : Z :=
  let totalIssues := List.length (critical r) + List.length (warnings r) in
  let totalChecks := List.length (pass r) + totalIssues in
  if 0 <? totalChecks then
    Math_round (Qofnat (List.length (pass r)) / Qofnat totalChecks * 100)%Q
  else 0%Z.

Definition computeLabel (score : Z) : string :=
  if (score <? 70)%Z then "NEEDS WORK"
  else if (score <? 85)%Z then "GOOD"
  else "EXCELLENT".

Definition computeVerdict (r : results) : verdict :=
  if (List.length (critical r) =? 0) && (List.length (warnings r) =? 0) then
    ProductionReady
  else if List.length (critical r) =? 0 then ProductionReadyWithWarnings
  else NotProductionReady.

Definition printResults (r : results) : report :=
  let score := computeScore r in
  mkReport r score (computeLabel score) (computeVerdict r)
           (if 0 <? List.length (critical r) then 1 else 0).

(** ** The run *)

Definition runChecks (primitiveTokens semanticTokens : json) : M unit :=
  checkDTCGCompliance primitiveTokens semanticTokens ;;
  checkReferenceIntegrity primitiveTokens semanticTokens ;;
  checkNamingConventions primitiveTokens semanticTokens ;;
  checkValueFormatConsistency primitiveTokens semanticTokens ;;
  checkCompleteness primitiveTokens semanticTokens ;;
  checkQuality primitiveTokens semanticTokens.

(** The outcome of the script on two parsed documents: the report it
    prints, or the exception that ends it. *)
Definition audit (primitiveTokens semanticTokens : json) : error + report :=
  match runChecks primitiveTokens semanticTokens results0 with
  | Returned _ r => inr (printResults r)
  | Thrown e => inl e
  end.

(** ** The tokens of a tree *)

(** A token node: an object with an own ["$value"]. *)
Definition isToken (v : json) : bool :=
  match v with
  | JObj props => hasOwn "$value" props
  | _ => false
  end.

Definition isNull (v : json) : bool :=
  match v with
  | JNull => true
  | _ => false
  end.

(** A group node: an object without ["$value"], or an array. *)
Definition isGroup (v : json) : bool :=
  match v with
  | JObj props => negb (hasOwn "$value" props)
  | JArr _ => true
  | _ => false
  end.

(** The tokens below [obj], each with its path from the root, in the order
    of the visit. *)
Fixpoint tokensIn (obj : json) (path : list string) {struct obj}
  : list (list string * json) :=
  let below (key : string) (value : json)
            (recurse : list string -> list (list string * json)) :=
    if isMetadataKey key then []
    else if isToken value then [(path ++ [key], value)]
    else if isGroup value then recurse (path ++ [key])
    else [] in
  match obj with
  | JObj props =>
      (fix loop (props : list (string * json)) :=
         match props with
         | [] => []
         | (key, value) :: rest =>
             below key value (fun p => tokensIn value p) ++ loop rest
         end) props
  | JArr elems =>
      (fix loop (elems : list json) (i : nat) :=
         match elems with
         | [] => []
         | value :: rest =>
             below (indexKey i) value (fun p => tokensIn value p)
             ++ loop rest (S i)
         end) elems 0
  | _ => []
  end.

(** What [traverseTokens] does at one token. *)
Definition visitToken {A} (callback : list string -> json -> layer -> A -> M A)
    (l : layer) (acc : A) (pt : list string * json) : M A :=
  acc' <- callback (fst pt) (snd pt) l acc ;;
  modifyStats (countToken l) ;;
  ret acc'.

Fixpoint foldM {A B} (f : A -> B -> M A) (l : list B) (acc : A) : M A :=
  match l with
  | [] => ret acc
  | x :: rest => acc' <- f acc x ;; foldM f rest acc'
  end.

(** ** The score in binary64 *)

(** The script computes [Math.round((pass / total) * 100)] on doubles.  The
    quotient and the product are rounded, so at an exact half the result can
    differ from [computeScore]; [Score64] is the computation on doubles. *)
Module Score64.

Definition ofZ (n : Z) : float := PrimFloat.of_uint63 (Uint63.of_Z n).

(** [Math.round] of a finite double, with the sign [s], the mantissa [m]
    and the exponent [e] of its value [m * 2^e]. *)
Definition Math_round (x : float) : Z :=
  match Prim2SF x with
  | S754_finite s m e =>
      let v := if s then Z.neg m else Z.pos m in
      if (0 <=? e)%Z then (v * 2 ^ e)%Z
      else ((2 * v + 2 ^ (- e)) / 2 ^ (1 - e))%Z
  | _ => 0%Z
  end.

(** The score for [pass] passing checks out of [total]. *)
Definition score (pass total : Z) : Z :=
  if (0 <? total)%Z then Math_round (ofZ pass / ofZ total * 100)%float
  else 0%Z.

End Score64.

(** The rational score for [pass] passing checks out of [total]. *)
Definition scoreOf (pass total : Z) : Z :=
  if (0 <? total)%Z then Math_round (inject_Z pass / inject_Z total * 100)%Q
  else 0%Z.

(** [from, from + 1, ..., from + n - 1] *)
Fixpoint Zrange (from : Z) (n : nat) : list Z :=
  match n with
  | O => []
  | S n' => from :: Zrange (from + 1)%Z n'
  end.

(** The two scores agree for every [pass <= maxPass] and
    [pass <= total <= pass + maxRest]. *)
Definition scoresAgree (maxPass maxRest : nat) : bool :=
  forallb (fun p =>
    forallb (fun d => (Score64.score p (p + d) =? scoreOf p (p + d))%Z)
            (Zrange 0 (S maxRest)))
    (Zrange 0 (S maxPass)).


(** *** The guard of the score *)

(** [Math.round(x)] as a double: NaN, an infinity and a zero are returned
    as they are, a double without a fraction too; the others go to the
    nearest integer, a half going up, and to [-0] from [-0.5] and above. *)
Definition Math_round_double (x : float) : float :=
  match Prim2SF x with
  | S754_finite s _ e =>
      if (0 <=? e)%Z then x
      else
        let n := Score64.Math_round x in
        if (n =? 0)%Z then (if s then neg_zero else zero)
        else if (n <? 0)%Z then (- Score64.ofZ (- n))%float
        else Score64.ofZ n
  | _ => x
  end.

(** [Math.round((results.pass.length / totalChecks) * 100)] *)
Definition scoreQuotient (passing totalChecks : nat) : float :=
  Math_round_double
    (Score64.ofZ (Z.of_nat passing) / Score64.ofZ (Z.of_nat totalChecks)
     * 100)%float.

(** The [score] of [printResults] as the double that the script computes:
    the quotient under the guard [totalChecks > 0]. *)
Definition computeScoreDouble (r : results) : float :=
  let totalIssues := List.length (critical r) + List.length (warnings r) in
  let totalChecks := List.length (pass r) + totalIssues in
  if 0 <? totalChecks then scoreQuotient (List.length (pass r)) totalChecks
  else 0%float.

(** ** Sample corpora *)

Definition token (type : string) (value : json) (description : string) : json :=
  JObj [("$type", JStr type); ("$value", value);
        ("$description", JStr description)].

(** A valid colour: HSL components, alpha 1, a 6-digit hex. *)
Definition brandBlue : json :=
  JObj [("colorSpace", JStr "hsl");
        ("components", JArr [JNum 217; JNum 91; JNum 60]);
        ("alpha", JNum 1);
        ("hex", JStr "#2563eb")].

(** One primitive colour token, [color.brand.600]. *)
Definition primitiveA : json :=
  JObj [("color", JObj [("brand", JObj [("600",
    token "color" brandBlue "Brand blue, step 600 of the brand ramp")])])].

(** One semantic colour token, [color.text.brand], that refers to it. *)
Definition semanticA : json :=
  JObj [("color", JObj [("text", JObj [("brand",
    token "color" (JStr "{color.brand.600}")
          "Text colour for brand emphasis")])])].

(** The same token with a layer-qualified reference. *)
Definition semanticB : json :=
  JObj [("color", JObj [("text", JObj [("brand",
    token "color" (JStr "{primitive.color.brand.600}")
          "Text colour for brand emphasis")])])].

(** Two semantic tokens that refer to each other. *)
Definition semanticCycle : json :=
  JObj [("color", JObj [("text", JObj [
    ("first", token "color" (JStr "{color.text.second}")
                    "First half of a reference cycle");
    ("second", token "color" (JStr "{color.text.first}")
                     "Second half of a reference cycle")])])].

(** A semantic token five segments deep whose last segment is a state. *)
Definition semanticDeep : json :=
  JObj [("color", JObj [("text", JObj [("neutral", JObj [("base", JObj [
    ("hover", token "color" (JStr "{color.brand.600}")
                    "Text colour of a hovered neutral element")])])])])].

(** A primitive colour token whose value is a reference. *)
Definition primitiveAlias : json :=
  JObj [("color", JObj [
    ("brand", JObj [("600",
       token "color" brandBlue "Brand blue, step 600 of the brand ramp")]);
    ("link", token "color" (JStr "{color.brand.600}")
                   "Colour of a hyperlink, same as the brand blue")])].


(** A token [a] with a token [a.b] below it. *)
Definition innerToken : json := JObj [("$value", JNum 2)].

Definition outerToken : json :=
  JObj [("$value", JNum 1); ("b", innerToken)].

Definition nestedToken : json := JObj [("a", outerToken)].

Definition isDepthWarning (w : warningMsg) : bool :=
  match w with
  | DepthExceeded _ _ => true
  | _ => false
  end.

Definition isStateWarning (w : warningMsg) : bool :=
  match w with
  | StateNotFourLevels _ _ => true
  | _ => false
  end.

Definition citesLayerPrefix (c : criticalMsg) : bool :=
  match c with
  | ReferenceLayerPrefix _ _ => true
  | _ => false
  end.

(** One passing check and one warning. *)
Definition sampleResults : results :=
  mkResults [NoCircularReferences] [MissingWhite] [] (mkStats 0 0 0 0 0 0).

(** ** Reaching a node of a tree *)

(** The tokens that [traverseTokens] meets at the property [key] of a node
    whose path is [path]. *)
Definition tokensBelow (path : list string) (key : string) (value : json)
  : list (list string * json) :=
  if isMetadataKey key then []
  else if isToken value then [(path ++ [key], value)]
  else if isGroup value then tokensIn value (path ++ [key])
  else [].

(** [value] is the property [key] of [obj], and [key] is no metadata key. *)
Definition child (obj : json) (key : string) (value : json) : Prop :=
  exists es,
    entries obj = Some es /\ In (key, value) es /\ isMetadataKey key = false.

(** [value] is reached from [obj] along [path], through keys that do not
    start with "$". *)
Inductive reachable : json -> list string -> json -> Prop :=
| reachable_child obj key value :
    child obj key value -> reachable obj [key] value
| reachable_step obj key mid path value :
    child obj key mid -> reachable mid path value ->
    reachable obj (key :: path) value.

(** The same, where every node strictly between [obj] and [value] is a
    group. *)
Inductive descends : json -> list string -> json -> Prop :=
| descends_child obj key value :
    child obj key value -> descends obj [key] value
| descends_step obj key mid path value :
    child obj key mid -> isGroup mid = true -> descends mid path value ->
    descends obj (key :: path) value.

(** A callback that records its calls. *)
Definition recordCallback (path : list string) (tok : json) (l : layer)
    (calls : list (list string * json)) : M (list (list string * json)) :=
  ret (calls ++ [(path, tok)]).

(** The results after [n] tokens were counted. *)
Definition counted (l : layer) (n : nat) (r : results) : results :=
  mkResults (pass r) (warnings r) (critical r)
            (Nat.iter n (countToken l) (stats r)).

(** ** Effects on the token counters *)

(** [m], when it returns, has counted [dp] primitive and [ds] semantic
    tokens. *)
Definition advances {A} (m : M A) (dp ds : nat) : Prop :=
  forall r a r',
    m r = Returned a r' ->
    primitiveTokens (stats r') = primitiveTokens (stats r) + dp
    /\ semanticTokens (stats r') = semanticTokens (stats r) + ds
    /\ totalTokens (stats r') = totalTokens (stats r) + (dp + ds).

(** [m] leaves the token counters alone. *)
Definition quiet {A} (m : M A) : Prop := advances m 0 0.

(** ** Relations between the results before and after *)

(** [m], when it returns, leaves results related by [R] to those it
    started from. *)
Definition keeps {A} (R : results -> results -> Prop) (m : M A) : Prop :=
  forall r a r', m r = Returned a r' -> R r r'.

(** The passing checks are the same; warnings and critical findings were
    only added. *)
Definition grows (r r' : results) : Prop :=
  pass r' = pass r
  /\ (exists ws, warnings r' = warnings r ++ ws)
  /\ (exists cs, critical r' = critical r ++ cs).

(** [m], when it returns, has only added findings, and at most [k] passing
    checks. *)
Definition extends {A} (m : M A) (k : nat) : Prop :=
  forall r a r',
    m r = Returned a r' ->
    exists ps ws cs,
      pass r' = pass r ++ ps
      /\ warnings r' = warnings r ++ ws
      /\ critical r' = critical r ++ cs
      /\ List.length ps <= k.

(** [m], when it returns, has added at least one warning. *)
Definition warnsMore {A} (m : M A) : Prop :=
  forall r a r',
    m r = Returned a r' ->
    exists ws, warnings r' = warnings r ++ ws /\ ws <> [].

(** [m], when it returns, leaves the passing check [x] recorded. *)
Definition records {A} (m : M A) (x : passMsg) : Prop :=
  forall r a r', m r = Returned a r' -> In x (pass r').

(** The token counters are the same. *)
Definition sameCounters (r r' : results) : Prop :=
  primitiveTokens (stats r') = primitiveTokens (stats r)
  /\ semanticTokens (stats r') = semanticTokens (stats r)
  /\ totalTokens (stats r') = totalTokens (stats r).

(** The three token counters of a report. *)
Definition totalTokens_of (rep : report) : nat :=
  totalTokens (stats (findings rep)).
Definition primitiveTokens_of (rep : report) : nat :=
  primitiveTokens (stats (findings rep)).
Definition semanticTokens_of (rep : report) : nat :=
  semanticTokens (stats (findings rep)).

(** ** Runs that end without an exception *)

(** [m] returns from every state. *)
Definition safe {A} (m : M A) : Prop :=
  forall r, exists a r', m r = Returned a r'.

(** An object or an array: a value that [in] accepts on its right. *)
Definition isObjectNode (v : json) : bool :=
  match v with
  | JArr _ | JObj _ => true
  | _ => false
  end.

(** The description of the token is absent, falsy or a string. *)
Definition descriptionIsText (tok : json) : bool :=
  match getProp tok "$description" with
  | Some (JStr _) => true
  | Some d => negb (truthy (Some d))
  | None => true
  end.

(** The first segment of the path is no name of [Object.prototype]. *)
Definition categoryIsOwn (path : list string) : bool :=
  negb (includes objectPrototypeKeys
          (match segment path 0 with
           | Some c => c
           | None => "undefined"
           end)).

(** A token of type shadow has no array value with a member that is not an
    object. *)
Definition shadowIsChecked (tok : json) : bool :=
  if eqString (getProp tok "$type") "shadow" then
    match valueOf tok with
    | JArr elems => forallb isObjectNode elems
    | _ => true
    end
  else true.

(** No object inside [v] has an own property ["toString"]: every value
    inside [v] converts to a primitive. *)
Fixpoint plain (v : json) : bool :=
  match v with
  | JObj props =>
      negb (hasOwn "toString" props)
      && (fix all (props : list (string * json)) : bool :=
            match props with
            | [] => true
            | (_, x) :: rest => plain x && all rest
            end) props
  | JArr elems => forallb plain elems
  | _ => true
  end.


(** The shape of the two trees under which no checker throws. *)
Definition wellShaped (primitiveTokens semanticTokens : json) : bool :=
  negb (isNull primitiveTokens) && negb (isNull semanticTokens)
  && plain primitiveTokens && plain semanticTokens
  && forallb (fun pt => descriptionIsText (snd pt) && categoryIsOwn (fst pt))
             (tokensIn primitiveTokens [])
  && forallb (fun pt => shadowIsChecked (snd pt))
             (tokensIn semanticTokens []).

(** The value of a finite double. *)
Definition doubleValue (x : float) : Q :=
  match Prim2SF x with
  | S754_finite s m e =>
      let v := if s then Z.neg m else Z.pos m in
      if (0 <=? e)%Z then inject_Z (v * 2 ^ e)
      else (inject_Z v / inject_Z (2 ^ (- e)))%Q
  | _ => 0%Q
  end.

(** [a] is the value of the double [x]. *)
Definition isDouble (a : num) (x : float) : bool :=
  match a with
  | Fin q => Qeq_bool q (doubleValue x)
  | _ => false
  end.

(** The number of warnings and critical findings up to which the two
    scores are compared. *)
Definition checkedRest : nat := 4000.

(** ** The call stack *)

(** [traverseTokens] and [checkReferences] call themselves once for each
    level of nesting, and the stack of the engine holds a bounded number of
    calls.  The functions of this section run on a stack that holds [stack]
    more nested calls of a recursive function: a call from outside runs,
    each call of the function from itself takes one of them, and a call
    that finds none ends in a RangeError.  The calls that do not recurse
    add a bounded number of frames and are not counted; neither is the
    recursion of the engine itself where it converts a nested array to a
    string, which goes no deeper than the value is nested ([nesting]). *)
Definition stackOverflow : error :=
  RangeError "Maximum call stack size exceeded".

(** [traverseTokens] on a stack of [stack] nested calls.  The callback
    learns how many of them are left where it is called. *)
Fixpoint traverseTokensWithin {A} (obj : json) (stack : nat)
    (callback : nat -> list string -> json -> layer -> A -> M A)
    (path : list string) (l : layer) (acc : A) {struct obj} : M A :=
  let visit (key : string) (value : json)
            (recurse : nat -> list string -> A -> M A) (acc : A) : M A :=
    if isMetadataKey key then ret acc
    else
      let currentPath := path ++ [key] in
      let descend : M A :=
        match stack with
        | O => throw stackOverflow
        | S below => recurse below currentPath acc
        end in
      match value with
      | JObj props =>
          if hasOwn "$value" props then
            acc' <- callback stack currentPath value l acc ;;
            modifyStats (countToken l) ;;
            ret acc'
          else descend
      | JArr _ => descend
      | _ => ret acc
      end in
  match obj with
  | JNull => throw (TypeError "Cannot convert undefined or null to object")
  | JObj props =>
      (fix loop (props : list (string * json)) (acc : A) : M A :=
         match props with
         | [] => ret acc
         | (key, value) :: rest =>
             acc' <- visit key value
                       (fun k p a => traverseTokensWithin value k callback p l a)
                       acc ;;
             loop rest acc'
         end) props acc
  | JArr elems =>
      (fix loop (elems : list json) (i : nat) (acc : A) : M A :=
         match elems with
         | [] => ret acc
         | value :: rest =>
             acc' <- visit (indexKey i) value
                       (fun k p a => traverseTokensWithin value k callback p l a)
                       acc ;;
             loop rest (S i) acc'
         end) elems 0 acc
  | _ => ret acc
  end.

(** A callback that calls no recursive function. *)
Definition direct {A} (callback : list string -> json -> layer -> A -> M A)
  : nat -> list string -> json -> layer -> A -> M A :=
  fun _ => callback.

(** [checkReferences] on a stack of [stack] nested calls. *)
Fixpoint checkReferencesWithin (primitiveIndex semanticIndex : list string)
    (value : json) (stack : nat) (tokenPath : string)
    (allReferences : list string) {struct value} : M (list string) :=
  let inner (recurse : nat -> list string -> M (list string))
            (all : list string) : M (list string) :=
    match stack with
    | O => throw stackOverflow
    | S below => recurse below all
    end in
  match value with
  | JStr _ =>
      checkReferences primitiveIndex semanticIndex value tokenPath allReferences
  | JObj props =>
      (fix loop (props : list (string * json)) (all : list string) : M (list string) :=
         match props with
         | [] => ret all
         | (_, v) :: rest =>
             all' <- inner (fun k a =>
                              checkReferencesWithin primitiveIndex semanticIndex
                                v k tokenPath a) all ;;
             loop rest all'
         end) props allReferences
  | JArr elems =>
      (fix loop (elems : list json) (all : list string) : M (list string) :=
         match elems with
         | [] => ret all
         | v :: rest =>
             all' <- inner (fun k a =>
                              checkReferencesWithin primitiveIndex semanticIndex
                                v k tokenPath a) all ;;
             loop rest all'
         end) elems allReferences
  | _ => ret allReferences
  end.

Definition referenceCallbackWithin (primitiveIndex semanticIndex : list string)
    (stack : nat) (path : list string) (token : json) (l : layer)
    (allReferences : list string) : M (list string) :=
  all <- checkReferencesWithin primitiveIndex semanticIndex (valueOf token)
           stack (getTokenPath path) allReferences ;;
  match getProp token "$extensions" with
  | Some ext =>
      if truthy (Some ext) then
        match getProp ext "opacity" with
        | Some opacity =>
            if truthy (Some opacity) then
              checkReferencesWithin primitiveIndex semanticIndex opacity
                stack (getTokenPath path) all
            else ret all
        | None => ret all
        end
      else ret all
  | None => ret all
  end.

(** The six checkers and the run on a stack of [stack] nested calls: every
    traversal is the bounded one. *)
Section Within.

Variable stack : nat.
Variables primitiveTokens semanticTokens : json.

Definition checkDTCGComplianceWithin : M unit :=
  traverseTokensWithin primitiveTokens stack (direct typeCallback) [] primitive tt ;;
  traverseTokensWithin semanticTokens stack (direct typeCallback) [] semantic tt ;;
  traverseTokensWithin primitiveTokens stack
    (direct primitiveDescriptionCallback) [] primitive tt ;;
  traverseTokensWithin semanticTokens stack
    (direct semanticDescriptionCallback) [] semantic tt ;;
  traverseTokensWithin primitiveTokens stack
    (direct valueFormatCallback) [] primitive tt ;;
  traverseTokensWithin primitiveTokens stack (direct depthCallback) [] primitive tt ;;
  traverseTokensWithin semanticTokens stack (direct depthCallback) [] semantic tt ;;
  s <- getStats ;;
  when (missingType s =? 0) (addPass AllHaveType) ;;
  s <- getStats ;;
  when (missingDescription s =? 0) (addPass AllHaveDescription).

Definition checkReferenceIntegrityWithin : M unit :=
  primitiveIndex <- traverseTokensWithin primitiveTokens stack
                      (direct indexCallback) [] primitive [] ;;
  semanticIndex <- traverseTokensWithin semanticTokens stack
                     (direct indexCallback) [] semantic [] ;;
  allReferences <- traverseTokensWithin semanticTokens stack
                     (referenceCallbackWithin primitiveIndex semanticIndex)
                     [] semantic [] ;;
  s <- getStats ;;
  when (invalidReferences s =? 0)
    (addPass (AllReferencesValid (List.length allReferences))) ;;
  addPass NoCircularReferences.

Definition checkNamingConventionsWithin : M unit :=
  namingIssues <- traverseTokensWithin primitiveTokens stack
                    (direct layerPrefixCallback) [] primitive 0 ;;
  namingIssues <- traverseTokensWithin semanticTokens stack
                    (direct layerPrefixCallback) [] semantic namingIssues ;;
  traverseTokensWithin semanticTokens stack (direct stateCallback) [] semantic tt ;;
  when (namingIssues =? 0)
    (addPass NoLayerPrefixInPaths ;; addPass NamingFollowsConvention).

Definition checkValueFormatConsistencyWithin : M unit :=
  formatIssues <- traverseTokensWithin primitiveTokens stack
                    (direct colorFormatCallback) [] primitive 0 ;;
  formatIssues <- traverseTokensWithin primitiveTokens stack
                    (direct dimensionFormatCallback) [] primitive formatIssues ;;
  formatIssues <- traverseTokensWithin semanticTokens stack
                    (direct typographyFormatCallback) [] semantic formatIssues ;;
  formatIssues <- traverseTokensWithin semanticTokens stack
                    (direct shadowFormatCallback) [] semantic formatIssues ;;
  formatIssues <- traverseTokensWithin primitiveTokens stack
                    (direct numberFormatCallback) [] primitive formatIssues ;;
  when (formatIssues =? 0) (addPass AllFormatsCorrect).

Definition checkScaleWithin (category : string) : M unit :=
  foundScales <- traverseTokensWithin primitiveTokens stack
                   (direct (scaleCallback category)) [] primitive [] ;;
  let missing :=
    filter (fun s => negb (existsb (fun o => segmentIs o s) foundScales))
           expectedScales in
  if 0 <? List.length missing then
    addWarning (MissingScales category missing)
  else addPass (ScaleComplete category).

Definition checkCompletenessWithin : M unit :=
  semanticIndex <- traverseTokensWithin semanticTokens stack
                     (direct indexCallback) [] semantic [] ;;
  _ <- checkEssentials semanticIndex essentialSemantics 0 ;;
  forEach checkScaleWithin colorCategories ;;
  hasStates <- traverseTokensWithin semanticTokens stack
                 (direct hasStatesCallback) [] semantic false ;;
  (if hasStates then addPass StatesDefined else addWarning NoInteractiveStates) ;;
  primitiveIndex <- traverseTokensWithin primitiveTokens stack
                      (direct indexCallback) [] primitive [] ;;
  (if includes primitiveIndex "color.white" then addPass WhiteDefined
   else addWarning MissingWhite) ;;
  (if includes primitiveIndex "color.black" then addPass BlackDefined
   else addWarning MissingBlack).

Definition checkQualityWithin : M unit :=
  unclearDescriptions <-
    traverseTokensWithin primitiveTokens stack
      (direct genericDescriptionCallback) [] primitive 0 ;;
  typesByCategory <-
    traverseTokensWithin primitiveTokens stack
      (direct typeCollectCallback) [] primitive [] ;;
  typeInconsistencies <- checkTypeSets (orderedEntries typesByCategory) 0 ;;
  when (typeInconsistencies =? 0) (addPass TypesConsistent) ;;
  when (unclearDescriptions =? 0) (addPass DescriptionsClear) ;;
  hasAccessibilityInfo <-
    traverseTokensWithin semanticTokens stack
      (direct accessibilityCallback) [] semantic false ;;
  if hasAccessibilityInfo then addPass AccessibilityIncluded
  else addWarning NoAccessibilityInfo.

Definition runChecksWithin : M unit :=
  checkDTCGComplianceWithin ;;
  checkReferenceIntegrityWithin ;;
  checkNamingConventionsWithin ;;
  checkValueFormatConsistencyWithin ;;
  checkCompletenessWithin ;;
  checkQualityWithin.

Definition auditWithin : error + report :=
  match runChecksWithin results0 with
  | Returned _ r => inr (printResults r)
  | Thrown e => inl e
  end.

End Within.

(** The nested calls that a traversal of [obj] makes below the first: one
    for each group on the way to the deepest group. *)
Fixpoint groupDepth (obj : json) : nat :=
  let below (key : string) (value : json) (deeper : nat) : nat :=
    if isMetadataKey key then 0
    else if isGroup value then S deeper
    else 0 in
  match obj with
  | JObj props =>
      (fix loop (props : list (string * json)) : nat :=
         match props with
         | [] => 0
         | (key, value) :: rest =>
             Nat.max (below key value (groupDepth value)) (loop rest)
         end) props
  | JArr elems =>
      (fix loop (elems : list json) (i : nat) : nat :=
         match elems with
         | [] => 0
         | value :: rest =>
             Nat.max (below (indexKey i) value (groupDepth value))
                     (loop rest (S i))
         end) elems 0
  | _ => 0
  end.

(** The nesting of [v]: the longest chain of members below it, which is
    the number of nested calls that [checkReferences] makes on [v] below
    the first. *)
Fixpoint nesting (v : json) : nat :=
  match v with
  | JObj props =>
      (fix loop (props : list (string * json)) : nat :=
         match props with
         | [] => 0
         | (_, x) :: rest => Nat.max (S (nesting x)) (loop rest)
         end) props
  | JArr elems =>
      (fix loop (elems : list json) : nat :=
         match elems with
         | [] => 0
         | x :: rest => Nat.max (S (nesting x)) (loop rest)
         end) elems
  | _ => 0
  end.

(** A tree of [n] groups, one in the other, around one token. *)
Fixpoint nestedGroups (n : nat) : json :=
  match n with
  | O => JObj [("t", JObj [("$value", JNum 1)])]
  | S n' => JObj [("g", nestedGroups n')]
  end.

(** [mWithin], a computation on a bounded stack, ends in a RangeError or as
    [m] does. *)
Definition refines {A} (mWithin m : M A) : Prop :=
  forall r, mWithin r = Thrown stackOverflow \/ mWithin r = m r.

(** * Further definitions *)

(** ** What a validator reports *)

(** Warnings were added; the passing checks, the critical findings and the
    counters are the same. *)
Definition warned (r r' : results) : Prop :=
  pass r' = pass r /\ critical r' = critical r /\ stats r' = stats r
  /\ exists ws, warnings r' = warnings r ++ ws.

(** [m] answers [false] with exactly one more critical finding and [true]
    with none; besides it adds warnings only. *)
Definition judges (m : M bool) : Prop :=
  forall r b r',
    m r = Returned b r' ->
    pass r' = pass r /\ stats r' = stats r
    /\ (exists ws, warnings r' = warnings r ++ ws)
    /\ (if b then critical r' = critical r
        else exists c, critical r' = critical r ++ [c]).


(** [lo <= q <= hi] *)
Definition inRange (lo hi q : Q) : bool := Qle_bool lo q && Qle_bool q hi.

(** The warnings of [validateColorValue] for the components [h], [s] and
    [l]. *)
Definition componentWarnings (tokenPath : string) (h s l : Q)
  : list warningMsg :=
  (if inRange 0 360 h then [] else [HueRange tokenPath (JNum h)])
  ++ (if inRange 0 100 s then [] else [SaturationRange tokenPath (JNum s)])
  ++ (if inRange 0 100 l then [] else [LightnessRange tokenPath (JNum l)]).

(** The names of [required] that are no property of [value]. *)
Definition missingOf (required : list string) (value : json) : list string :=
  filter (fun prop => match inOperator prop value with
                      | Some b => negb b
                      | None => false
                      end) required.

Definition shadowProps : list string := ["offsetX"; "offsetY"; "blur"; "color"].

Definition typographyProps : list string :=
  ["fontFamily"; "fontSize"; "fontWeight"; "lineHeight"].

(** An object or an array with the four properties of a shadow. *)
Definition completeShadow (shadow : json) : bool :=
  isObjectNode shadow && (List.length (missingOf shadowProps shadow) =? 0).


(** ** The strings inside a value *)

(** The strings that are values inside [v], at any depth, in the order of
    [Object.values]; the keys of an object are not among them. *)
Fixpoint stringLeaves (v : json) : list string :=
  match v with
  | JStr s => [s]
  | JArr elems => flat_map stringLeaves elems
  | JObj props => flat_map (fun kv => stringLeaves (snd kv)) props
  | _ => []
  end.

(** The findings of [checkReferences] for the reference [ref]. *)
Definition unresolved (primitiveIndex semanticIndex : list string)
    (ref : string) : bool :=
  negb (includes primitiveIndex ref) && negb (includes semanticIndex ref).

Definition referenceFindings (primitiveIndex semanticIndex : list string)
    (tokenPath ref : string) : list criticalMsg :=
  (if unresolved primitiveIndex semanticIndex ref
   then [ReferenceNotFound tokenPath ref] else [])
  ++ (if isLayerPrefixed ref then [ReferenceLayerPrefix tokenPath ref] else []).


(** ** The findings that the counters count *)

Definition isMissingType (c : criticalMsg) : bool :=
  match c with
  | MissingTypeProperty _ => true
  | _ => false
  end.

Definition isReferenceNotFound (c : criticalMsg) : bool :=
  match c with
  | ReferenceNotFound _ _ => true
  | _ => false
  end.

Definition isMissingDescription (w : warningMsg) : bool :=
  match w with
  | MissingDescription _ => true
  | _ => false
  end.

(** The number of elements of [l] that satisfy [f]. *)
Definition count {A} (f : A -> bool) (l : list A) : nat :=
  List.length (filter f l).

(** Each of the three counters has grown by the number of findings of its
    kind that were added. *)
Definition balanced (r r' : results) : Prop :=
  missingType (stats r') + count isMissingType (critical r)
  = missingType (stats r) + count isMissingType (critical r')
  /\ missingDescription (stats r') + count isMissingDescription (warnings r)
     = missingDescription (stats r) + count isMissingDescription (warnings r')
  /\ invalidReferences (stats r') + count isReferenceNotFound (critical r)
     = invalidReferences (stats r) + count isReferenceNotFound (critical r').


(** A semantic token without a type and without a description, whose value
    refers to no token. *)
Definition semanticBare : json :=
  JObj [("color", JObj [("ghost", JObj [("$value", JStr "{color.none}")])])].


(** ** Tokens without a type or a description *)

(** [token.$type] and [token.$description] are truthy. *)
Definition hasType (tok : json) : bool := truthy (getProp tok "$type").

Definition hasDescription (tok : json) : bool :=
  truthy (getProp tok "$description").

(** The number of tokens of [ts] that do not satisfy [f]. *)
Definition lacking (f : json -> bool) (ts : list (list string * json)) : nat :=
  count (fun pt => negb (f (snd pt))) ts.

(** The counters of missing types and of missing descriptions are the
    same. *)
Definition sameMissing (r r' : results) : Prop :=
  missingType (stats r') = missingType (stats r)
  /\ missingDescription (stats r') = missingDescription (stats r).

(** [m], when it returns, has counted [dT] missing types and [dD] missing
    descriptions. *)
Definition bumps {A} (m : M A) (dT dD : nat) : Prop :=
  forall r a r',
    m r = Returned a r' ->
    missingType (stats r') = missingType (stats r) + dT
    /\ missingDescription (stats r') = missingDescription (stats r) + dD.


(** ** The passing checks that depend on a counter *)

Definition isConditionalPass (msg : passMsg) : bool :=
  match msg with
  | AllHaveType | AllHaveDescription | AllReferencesValid _ => true
  | _ => false
  end.

(** The counter of invalid references is the same, and the passing checks
    that were added are none of the three that depend on a counter. *)
Definition settled (r r' : results) : Prop :=
  invalidReferences (stats r') = invalidReferences (stats r)
  /\ exists ps,
       pass r' = pass r ++ ps
       /\ forallb (fun msg => negb (isConditionalPass msg)) ps = true.


(** ** Keys without a dot *)

(** The number of dots in [s]. *)
Fixpoint dots (s : string) : nat :=
  match s with
  | EmptyString => 0
  | String c s' => (if Ascii.eqb c "." then 1 else 0) + dots s'
  end.

Definition dotFree (key : string) : bool := dots key =? 0.

(** No segment of a token path of [obj] has a dot. *)
Definition plainKeys (obj : json) : bool :=
  forallb (fun pt => forallb dotFree (fst pt)) (tokensIn obj []).

(** The path has more than four segments. *)
Definition isDeep (pt : list string * json) : bool :=
  4 <? List.length (fst pt).

(** The depth warnings for the tokens [ts]. *)
Definition depthWarnings (ts : list (list string * json)) : list warningMsg :=
  map (fun pt => DepthExceeded (getTokenPath (fst pt)) (List.length (fst pt)))
      (filter isDeep ts).


(** ** Findings of a kind *)

(** The warnings that satisfy [kw] and the critical findings that satisfy
    [kc] are the same. *)
Definition untouched (kw : warningMsg -> bool) (kc : criticalMsg -> bool)
    (r r' : results) : Prop :=
  filter kw (warnings r') = filter kw (warnings r)
  /\ filter kc (critical r') = filter kc (critical r).

(** [m], when it returns, has added the warnings [ws] among those that
    satisfy [kw] and the critical findings [cs] among those that satisfy
    [kc]. *)
Definition emits {A} (kw : warningMsg -> bool) (kc : criticalMsg -> bool)
    (m : M A) (ws : list warningMsg) (cs : list criticalMsg) : Prop :=
  forall r a r',
    m r = Returned a r' ->
    filter kw (warnings r') = filter kw (warnings r) ++ ws
    /\ filter kc (critical r') = filter kc (critical r) ++ cs.

Definition noCritical (c : criticalMsg) : bool := false.


(** ** The findings of the colour and the dimension validator *)

Definition isColorCritical (c : criticalMsg) : bool :=
  match c with
  | ColorStringFormat _ _ | ColorInvalidFormat _ | ColorMissingProps _ _
  | ColorSpaceNotHsl _ _ | ColorComponents _ | ColorAlpha _ _ | ColorHex _ _ =>
      true
  | _ => false
  end.

Definition isComponentWarning (w : warningMsg) : bool :=
  match w with
  | HueRange _ _ | SaturationRange _ _ | LightnessRange _ _ => true
  | _ => false
  end.

Definition isDimensionCritical (c : criticalMsg) : bool :=
  match c with
  | DimensionStringFormat _ _ | DimensionInvalidFormat _
  | DimensionMissingProps _ | DimensionValueType _ _
  | DimensionUnitType _ _ => true
  | _ => false
  end.

Definition isUnitWarning (w : warningMsg) : bool :=
  match w with
  | UnexpectedUnit _ _ => true
  | _ => false
  end.

(** [r] with the warnings and the critical findings of [d] added. *)
Definition withFindings (r d : results) : results :=
  mkResults (pass r) (warnings r ++ warnings d) (critical r ++ critical d)
            (stats r).

(** [m] does in every state what it does in the initial one: it returns
    the same value after adding the same warnings and critical findings, or
    throws the same exception. *)
Definition framed {A} (m : M A) : Prop :=
  forall r,
    m r = match m results0 with
          | Returned a d => Returned a (withFindings r d)
          | Thrown e => Thrown e
          end.

(** The warnings and the critical findings that a validator records. *)
Definition findingsOf (m : M bool) : list warningMsg * list criticalMsg :=
  match m results0 with
  | Returned _ d => (warnings d, critical d)
  | Thrown _ => ([], [])
  end.

(** What the colour validator records for a token of type color, and the
    dimension validator for a token of type dimension. *)
Definition colorFindings (pt : list string * json)
  : list warningMsg * list criticalMsg :=
  if eqString (getProp (snd pt) "$type") "color" then
    findingsOf (validateColorValue (valueOf (snd pt)) (getTokenPath (fst pt)))
  else ([], []).

Definition dimensionFindings (pt : list string * json)
  : list warningMsg * list criticalMsg :=
  if eqString (getProp (snd pt) "$type") "dimension" then
    findingsOf
      (validateDimensionValue (valueOf (snd pt)) (getTokenPath (fst pt)))
  else ([], []).


(** ** The exact effect of a checker *)

(** [m] returns [a] from every state, after adding the passing checks
    [ps], the warnings [ws] and the critical findings [cs], in this
    order. *)
Definition effect {A} (m : M A) (a : A) (ps : list passMsg)
    (ws : list warningMsg) (cs : list criticalMsg) : Prop :=
  forall r,
    exists r',
      m r = Returned a r'
      /\ pass r' = pass r ++ ps
      /\ warnings r' = warnings r ++ ws
      /\ critical r' = critical r ++ cs.

(** The path of the token, joined, starts with a layer name. *)
Definition hasLayerPrefix (pt : list string * json) : bool :=
  isLayerPrefixed (getTokenPath (fst pt)).

(** The critical finding of the naming checker for a token. *)
Definition layerPrefixFinding (pt : list string * json) : list criticalMsg :=
  if hasLayerPrefix pt then [PathLayerPrefix (getTokenPath (fst pt))] else [].

(** The warning of the naming checker for a semantic token: its last
    segment is a state and its path has not four segments. *)
Definition stateFinding (pt : list string * json) : list warningMsg :=
  match lastSegment (fst pt) with
  | Some last =>
      if includes states last && negb (List.length (fst pt) =? 4)
      then [StateNotFourLevels (getTokenPath (fst pt)) last] else []
  | None => []
  end.

(** The joined paths of the tokens [ts]. *)
Definition tokenPaths (ts : list (list string * json)) : list string :=
  map (fun pt => getTokenPath (fst pt)) ts.

(** Some token path starts with the essential pattern. *)
Definition essentialFound (ts : list (list string * json))
    (essential : string) : bool :=
  existsb (fun path => startsWith path essential) (tokenPaths ts).

(** The third segments of the token paths that begin with "color" and the
    category. *)
Definition scalesFound (ts : list (list string * json)) (category : string)
  : list (option string) :=
  flat_map (fun pt =>
              if segmentIs (segment (fst pt) 0) "color"
                 && segmentIs (segment (fst pt) 1) category
              then [segment (fst pt) 2] else []) ts.

(** The expected scale steps that are not among them. *)
Definition missingScales (ts : list (list string * json)) (category : string)
  : list string :=
  filter (fun s => negb (existsb (fun o => segmentIs o s)
                                 (scalesFound ts category)))
         expectedScales.

(** Some token path ends in "default", "hover" or "pressed". *)
Definition statesFound (ts : list (list string * json)) : bool :=
  existsb (fun pt => includes_opt statePatterns (lastSegment (fst pt))) ts.

(** The passing checks and the warnings of the completeness checker for
    the primitive tokens [ps] and the semantic tokens [ss]. *)
Definition completenessPasses (ps ss : list (list string * json))
  : list passMsg :=
  flat_map (fun category =>
              match missingScales ps category with
              | [] => [ScaleComplete category]
              | _ => []
              end) colorCategories
  ++ (if statesFound ss then [StatesDefined] else [])
  ++ (if includes (tokenPaths ps) "color.white" then [WhiteDefined] else [])
  ++ (if includes (tokenPaths ps) "color.black" then [BlackDefined] else []).

Definition completenessWarnings (ps ss : list (list string * json))
  : list warningMsg :=
  map MissingEssential
      (filter (fun essential => negb (essentialFound ss essential))
              essentialSemantics)
  ++ flat_map (fun category =>
                 match missingScales ps category with
                 | [] => []
                 | missing => [MissingScales category missing]
                 end) colorCategories
  ++ (if statesFound ss then [] else [NoInteractiveStates])
  ++ (if includes (tokenPaths ps) "color.white" then [] else [MissingWhite])
  ++ (if includes (tokenPaths ps) "color.black" then [] else [MissingBlack]).


(** ** Numbers in their range *)

(** The weights 100, 200, ..., 900. *)
Definition fontWeights : list Z := [100; 200; 300; 400; 500; 600; 700; 800; 900]%Z.

Definition isFontWeight (q : Q) : bool :=
  existsb (fun w => Qeq_bool q (inject_Z w)) fontWeights.

(** [r] with one more warning, and with one more critical finding. *)
Definition withWarning (r : results) (msg : warningMsg) : results :=
  mkResults (pass r) (warnings r ++ [msg]) (critical r) (stats r).

Definition withCritical (r : results) (msg : criticalMsg) : results :=
  mkResults (pass r) (warnings r) (critical r ++ [msg]) (stats r).


(** ** The warnings that the summary prints *)

(** [results.warnings.slice(0, 20)], the warnings that [printResults]
    prints. *)
Definition printedWarnings (r : results) : list warningMsg :=
  firstn 20 (warnings r).

(** The number in the line "... and n more warnings", when [printResults]
    prints that line. *)
Definition moreWarnings (r : results) : option nat :=
  if 20 <? List.length (warnings r)
  then Some (List.length (warnings r) - 20) else None.


(** ** The format issues that are counted *)

(** [m], started with the count [n], returns the count raised by the
    number of critical findings that it has added; it adds no passing
    check. *)
Definition tally (m : M nat) (n : nat) : Prop :=
  forall r n' r',
    m r = Returned n' r' ->
    pass r' = pass r
    /\ exists cs, critical r' = critical r ++ cs /\ n' = n + List.length cs.

(** The passing checks and the critical findings are the same. *)
Definition sameCritical (r r' : results) : Prop :=
  pass r' = pass r /\ critical r' = critical r.


(** ** The findings of the typography and the shadow validator *)

Definition isTypographyCritical (c : criticalMsg) : bool :=
  match c with
  | TypographyNotObject _ => true
  | _ => false
  end.

Definition isTypographyWarning (w : warningMsg) : bool :=
  match w with
  | TypographyMissing _ _ => true
  | _ => false
  end.

Definition isShadowCritical (c : criticalMsg) : bool :=
  match c with
  | ShadowNotObject _ | ShadowMissingProps _ _ => true
  | _ => false
  end.

Definition noWarning (w : warningMsg) : bool := false.

(** What the typography validator records for a token of type typography,
    and the shadow validator for a token of type shadow. *)
Definition typographyFindings (pt : list string * json)
  : list warningMsg * list criticalMsg :=
  if eqString (getProp (snd pt) "$type") "typography" then
    findingsOf
      (validateTypographyValue (valueOf (snd pt)) (getTokenPath (fst pt)))
  else ([], []).

Definition shadowFindings (pt : list string * json)
  : list warningMsg * list criticalMsg :=
  if eqString (getProp (snd pt) "$type") "shadow" then
    findingsOf (validateShadowValue (valueOf (snd pt)) (getTokenPath (fst pt)))
  else ([], []).


(** A semantic typography token without a line height. *)
Definition semanticTypography : json :=
  JObj [("typography", JObj [("body", JObj [("md",
    token "typography"
      (JObj [("fontFamily", JStr "{fontFamily.sans}");
             ("fontSize", JStr "{fontSize.md}");
             ("fontWeight", JStr "{fontWeight.regular}")])
      "Body text of medium size")])])].


(** ** What the quality checker finds *)

Definition isDescriptionGeneric (w : warningMsg) : bool :=
  match w with
  | DescriptionGeneric _ _ => true
  | _ => false
  end.

Definition isMultipleTypes (w : warningMsg) : bool :=
  match w with
  | MultipleTypes _ _ => true
  | _ => false
  end.

(** [token.$extensions && token.$extensions.contrast] is truthy. *)
Definition hasContrast (pt : list string * json) : bool :=
  match getProp (snd pt) "$extensions" with
  | Some ext => truthy (Some ext) && truthy (getProp ext "contrast")
  | None => false
  end.

Definition contrastFound (ts : list (list string * json)) : bool :=
  existsb hasContrast ts.

(** [m], started with the count [n], returns the count raised by the
    number of warnings that it has added, all of the kind [kw]; it adds
    nothing else. *)
Definition tallyWarnings (kw : warningMsg -> bool) (m : M nat) (n : nat)
  : Prop :=
  forall r n' r',
    m r = Returned n' r' ->
    pass r' = pass r /\ critical r' = critical r
    /\ exists ws,
         warnings r' = warnings r ++ ws
         /\ forallb kw ws = true /\ n' = n + List.length ws.

(** The passing checks, the warnings and the critical findings are the
    same. *)
Definition sameFindings (r r' : results) : Prop :=
  pass r' = pass r /\ warnings r' = warnings r /\ critical r' = critical r.

(** * Properties *)

(** ** Induction on parsed JSON *)

Section JsonInduction.
Variable P : json -> Prop.
Hypothesis Hnull : P JNull.
Hypothesis Hbool : forall b, P (JBool b).
Hypothesis Hnum : forall q, P (JNum q).
Hypothesis Hstr : forall s, P (JStr s).
Hypothesis Harr : forall elems, Forall P elems -> P (JArr elems).
Hypothesis Hobj : forall props, Forall (fun kv => P (snd kv)) props -> P (JObj props).

Fixpoint json_ind (v : json) : P v :=
  match v with
  | JNull => Hnull
  | JBool b => Hbool b
  | JNum q => Hnum q
  | JStr s => Hstr s
  | JArr elems =>
      Harr elems
        ((fix all (l : list json) : Forall P l :=
            match l with
            | [] => Forall_nil P
            | x :: l' => Forall_cons x (json_ind x) (all l')
            end) elems)
  | JObj props =>
      Hobj props
        ((fix all (l : list (string * json)) : Forall (fun kv => P (snd kv)) l :=
            match l with
            | [] => Forall_nil _
            | kv :: l' => Forall_cons kv (json_ind (snd kv)) (all l')
            end) props)
  end.
End JsonInduction.

Lemma json_null_dec (v : json) : {v = JNull} + {v <> JNull}.
Proof. destruct v; (left; reflexivity) || (right; discriminate). Qed.

Lemma bind_ext {A B} (m m' : M A) (k k' : A -> M B) r :
  (forall r, m r = m' r) -> (forall a r, k a r = k' a r) ->
  bind m k r = bind m' k' r.
Proof.
  intros Hm Hk. unfold bind. rewrite Hm. destruct (m' r); auto.
Qed.

Lemma foldM_app {A B} (f : A -> B -> M A) l1 l2 acc r :
  foldM f (l1 ++ l2) acc r = (acc' <- foldM f l1 acc ;; foldM f l2 acc') r.
Proof.
  revert acc r. induction l1 as [|x l1 IH]; intros acc r; simpl.
  - reflexivity.
  - unfold bind in *. destruct (f acc x r); auto.
Qed.

Lemma traverseTokens_fold {A} (callback : list string -> json -> layer -> A -> M A)
    (l : layer) (obj : json) :
  obj <> JNull ->
  forall path acc r,
    traverseTokens obj callback path l acc r
    = foldM (visitToken callback l) (tokensIn obj path) acc r.
Proof.
  assert (Hstep : forall (x : json) key path acc r,
    (x <> JNull -> forall path acc r,
        traverseTokens x callback path l acc r
        = foldM (visitToken callback l) (tokensIn x path) acc r) ->
    match x with
    | JArr _ => traverseTokens x callback (path ++ [key]) l acc
    | JObj props =>
        if hasOwn "$value" props
        then acc' <- callback (path ++ [key]) x l acc ;;
             modifyStats (countToken l) ;; ret acc'
        else traverseTokens x callback (path ++ [key]) l acc
    | _ => ret acc
    end r
    = foldM (visitToken callback l)
        (if isToken x then [(path ++ [key], x)]
         else if isGroup x then tokensIn x (path ++ [key]) else []) acc r).
  { intros x key path acc r Hx. destruct x; try reflexivity.
    - apply Hx. discriminate.
    - unfold isToken, isGroup. destruct (hasOwn "$value" props).
      + unfold foldM, visitToken, bind, fst, snd.
        destruct (callback _ _ _ _ _); reflexivity.
      + apply Hx. discriminate. }
  induction obj using json_ind; intros Hnn path acc r; try reflexivity.
  - congruence.
  - simpl. generalize 0 as i. revert acc r.
    induction H as [|x elems Hx Hall IH]; intros acc r i.
    + reflexivity.
    + rewrite foldM_app. apply bind_ext.
      * intros r0. destruct (isMetadataKey (indexKey i)); [reflexivity|].
        apply Hstep, Hx.
      * intros a r0. apply IH. discriminate.
  - simpl. revert acc r.
    induction H as [|[k x] props Hx Hall IH]; intros acc r.
    + reflexivity.
    + rewrite foldM_app. apply bind_ext.
      * intros r0. destruct (isMetadataKey k); [reflexivity|].
        apply Hstep, Hx.
      * intros a r0. apply IH. discriminate.
Qed.

(** ** Conversion of strings to numbers *)

(** [StringToNumber] agrees with the kernel's reading of the same literals
    as doubles: on inexact decimals, at the two ends of the range, and on a
    tie between two doubles. *)
Example StringToNumber_doubles :
  isDouble (StringToNumber "0.1") 0x1.999999999999ap-4 = true
  /\ isDouble (StringToNumber " -0.575 ") (-0x1.2666666666666p-1) = true
  /\ isDouble (StringToNumber "359.99999999999999999") 360 = true
  /\ isDouble (StringToNumber "9007199254740995") 9007199254740996 = true
  /\ isDouble (StringToNumber "2.5e-324") 0x0.0000000000001p-1022 = true
  /\ isDouble (StringToNumber "2.4e-324") 0 = true
  /\ isDouble (StringToNumber "0x1F") 31 = true
  /\ StringToNumber "1.7976931348623159e308" = PosInf
  /\ StringToNumber "-Infinity" = NegInf
  /\ StringToNumber "" = Fin 0
  /\ StringToNumber "12px" = NaN.
Proof. repeat split; vm_compute; reflexivity. Qed.

(** ** The score and the verdict *)

Lemma length_zero_iff {A} (l : list A) : (List.length l =? 0) = true <-> l = [].
Proof.
  destruct l; simpl; split; intro H; try reflexivity; discriminate.
Qed.

Lemma Math_round_fraction (p t : Z) :
  (0 < t)%Z ->
  Math_round (inject_Z p / inject_Z t * 100)%Q = ((200 * p + t) / (2 * t))%Z.
Proof.
  intros Ht. unfold Math_round.
  destruct t as [|t'|t']; try lia.
  assert (E : (inject_Z p / inject_Z (Z.pos t') * 100 + (1 # 2)
               == (200 * p + Z.pos t') # (2 * t'))%Q).
  { unfold Qeq, Qdiv, Qmult, Qplus, Qinv, inject_Z. cbn [Qnum Qden].
    rewrite ?Pos2Z.inj_mul. ring. }
  rewrite (Qfloor_comp _ _ E). reflexivity.
Qed.

Lemma score_formula (r : results) :
  let p := Z.of_nat (List.length (pass r)) in
  let w := Z.of_nat (List.length (warnings r)) in
  let c := Z.of_nat (List.length (critical r)) in
  (0 < p + w + c)%Z ->
  score (printResults r) = ((200 * p + (p + w + c)) / (2 * (p + w + c)))%Z.
Proof.
  intros p w c Hpos. unfold printResults, computeScore. cbn [score].
  destruct (0 <? _) eqn:E.
  - apply Nat.ltb_lt in E. unfold Qofnat.
    rewrite Math_round_fraction by lia.
    f_equal; subst p w c; lia.
  - apply Nat.ltb_ge in E. subst p w c. lia.
Qed.

(** C8.  Whenever at least one finding was recorded, the score that
    [printResults] reports is 100 * pass / (pass + warnings + critical)
    rounded to the nearest integer (a half going up), and the verdict is
    three-way: ready exactly when there is neither a critical finding nor a
    warning, ready with warnings exactly when there is no critical finding
    but a warning, not ready exactly when there is a critical finding.  The
    statement is about every content of the three buckets, so about the
    buckets at the end of every run. *)
Theorem score_and_verdict (r : results) :
  let p := Z.of_nat (List.length (pass r)) in
  let w := Z.of_nat (List.length (warnings r)) in
  let c := Z.of_nat (List.length (critical r)) in
  (0 < p + w + c)%Z ->
  score (printResults r)
    = Qfloor (100 * inject_Z p / inject_Z (p + w + c) + (1 # 2))%Q
  /\ score (printResults r) = ((200 * p + (p + w + c)) / (2 * (p + w + c)))%Z
  /\ (readiness (printResults r) = ProductionReady
      <-> critical r = [] /\ warnings r = [])
  /\ (readiness (printResults r) = ProductionReadyWithWarnings
      <-> critical r = [] /\ warnings r <> [])
  /\ (readiness (printResults r) = NotProductionReady
      <-> critical r <> []).
Proof.
  intros p w c Hpos.
  pose proof (score_formula r Hpos) as Hs. fold p w c in Hs.
  split; [|split; [exact Hs|]].
  - rewrite Hs. rewrite <- (Math_round_fraction p (p + w + c) Hpos).
    unfold Math_round. apply Qfloor_comp.
    assert (Hne : ~ (inject_Z (p + w + c) == 0)%Q).
    { unfold Qeq, inject_Z. simpl. lia. }
    field. exact Hne.
  - unfold printResults, computeVerdict. simpl.
    destruct (critical r) as [|x cs], (warnings r) as [|y ws]; simpl;
      repeat split; intros; try congruence;
      try (destruct H; congruence).
Qed.

Lemma score_and_verdict_witness :
  score (printResults sampleResults) = 50%Z
  /\ readiness (printResults sampleResults) = ProductionReadyWithWarnings.
Proof.
  destruct (score_and_verdict sampleResults) as (_ & Hs & _ & Hr & _).
  - reflexivity.
  - split.
    + rewrite Hs. reflexivity.
    + apply Hr. split; [reflexivity | discriminate].
Defined.

(** C9.  When the three buckets are empty the score is 0, and it is the
    guard [totalChecks > 0] that makes it so: on doubles the quotient that
    the guard skips is 0 / 0, and [Math.round] of it is NaN. *)
Theorem score_of_empty_results (r : results) :
  pass r = [] -> warnings r = [] -> critical r = [] ->
  computeScoreDouble r = 0%float
  /\ PrimFloat.is_nan
       (scoreQuotient (List.length (pass r))
          (List.length (pass r)
           + (List.length (critical r) + List.length (warnings r))))
     = true.
Proof.
  intros Hp Hw Hc.
  unfold computeScoreDouble. rewrite Hp, Hw, Hc.
  split; [reflexivity | vm_compute; reflexivity].
Qed.

Lemma score_of_empty_results_witness :
  computeScoreDouble results0 = 0%float
  /\ PrimFloat.is_nan (scoreQuotient 0 0) = true.
Proof.
  apply (score_of_empty_results results0); reflexivity.
Defined.

(** The score on doubles for one passing check out of two and for 9 out
    of 24, and [Math.round] at a half. *)
Lemma computeScoreDouble_sample :
  computeScoreDouble sampleResults = 50%float
  /\ scoreQuotient 9 24 = 38%float
  /\ Math_round_double (-0.5)%float = neg_zero
  /\ Math_round_double 2.5%float = 3%float
  /\ Math_round_double (-2.5)%float = (-2)%float.
Proof. repeat split; vm_compute; reflexivity. Qed.

(** With 23 passing checks among 40 findings the quotient 0.575 is not a
    double, the product falls just below 57.5, and the two scores differ. *)
Lemma score64_differs :
  Score64.score 23 40 = 57%Z /\ scoreOf 23 40 = 58%Z.
Proof. split; vm_compute; reflexivity. Qed.

(** ** The value validators on strings *)

(** C6, as the code has it.  The validators do not recognise references:
    on every string value, a reference or not, the colour and the dimension
    validator record one string-format critical finding, the typography and
    the shadow validator record one not-an-object critical finding, and all
    four answer [false]. *)
Theorem validators_report_every_string (s tokenPath : string) (r : results) :
  validateColorValue (JStr s) tokenPath r
    = Returned false
        (mkResults (pass r) (warnings r)
           (critical r ++ [ColorStringFormat tokenPath s]) (stats r))
  /\ validateDimensionValue (JStr s) tokenPath r
    = Returned false
        (mkResults (pass r) (warnings r)
           (critical r ++ [DimensionStringFormat tokenPath s]) (stats r))
  /\ validateTypographyValue (JStr s) tokenPath r
    = Returned false
        (mkResults (pass r) (warnings r)
           (critical r ++ [TypographyNotObject tokenPath]) (stats r))
  /\ validateShadowValue (JStr s) tokenPath r
    = Returned false
        (mkResults (pass r) (warnings r)
           (critical r ++ [ShadowNotObject tokenPath]) (stats r)).
Proof.
  repeat split; try reflexivity; destruct s; reflexivity.
Qed.

(** C6 fails on a reference: the colour validator reports the reference
    string "{color.brand.600}" as a string-format critical finding, and the
    run over a primitive colour token with that value records it twice. *)
Lemma reference_reported_as_string_format :
  startsWith "{color.brand.600}" "{" = true
  /\ endsWith "{color.brand.600}" "}" = true
  /\ validateColorValue (JStr "{color.brand.600}") "color.link" results0
     = Returned false
         (mkResults [] [] [ColorStringFormat "color.link" "{color.brand.600}"]
                    (stats results0))
  /\ exists rep,
       audit primitiveAlias semanticA = inr rep
       /\ critical (findings rep)
          = [ColorStringFormat "color.link" "{color.brand.600}";
             ColorStringFormat "color.link" "{color.brand.600}"].
Proof.
  repeat split; try reflexivity.
  eexists. split; vm_compute; reflexivity.
Qed.

(** ** The depth check *)

(** C4 fails on a state name: the five-segment path
    [color.text.neutral.base.hover] ends in the state "hover" and gets a
    depth warning all the same, in the callback and in the run. *)
Lemma depth_warning_on_state_path :
  includes states "hover" = true
  /\ depthCallback ["color"; "text"; "neutral"; "base"; "hover"]
       (token "color" (JStr "{color.brand.600}") "") semantic tt results0
     = Returned tt
         (mkResults [] [DepthExceeded "color.text.neutral.base.hover" 5] []
                    (stats results0))
  /\ exists rep,
       audit primitiveA semanticDeep = inr rep
       /\ filter isDepthWarning (warnings (findings rep))
          = [DepthExceeded "color.text.neutral.base.hover" 5].
Proof.
  repeat split; try reflexivity.
  eexists. split; vm_compute; reflexivity.
Qed.

(** ** The end-to-end scenarios *)

Lemma substring_all (s t : string) :
  String.substring 0 (String.length s) (s ++ t) = s.
Proof.
  induction s as [|c s IH]; simpl.
  - destruct t; reflexivity.
  - rewrite IH. reflexivity.
Qed.

Lemma substring_whole (t : string) :
  String.substring 0 (String.length t) t = t.
Proof.
  induction t as [|c t IH]; simpl; [reflexivity | rewrite IH; reflexivity].
Qed.

Lemma substring_tail (s t : string) :
  String.substring (String.length s) (String.length t) (s ++ t) = t.
Proof.
  induction s as [|c s IH]; simpl; [apply substring_whole | exact IH].
Qed.

Lemma length_append (s t : string) :
  String.length (s ++ t) = String.length s + String.length t.
Proof. induction s as [|c s IH]; simpl; [reflexivity | rewrite IH; reflexivity]. Qed.

Lemma endsWith_append (s t : string) : endsWith (s ++ t) t = true.
Proof.
  unfold endsWith. rewrite length_append.
  replace (String.length s + String.length t - String.length t)
    with (String.length s) by lia.
  rewrite substring_tail, String.eqb_refl.
  replace (String.length t <=? String.length s + String.length t) with true
    by (symmetry; apply Nat.leb_le; lia).
  reflexivity.
Qed.

(** A string in braces is a reference to what is between them. *)
Lemma braces_make_a_reference (ref : string) :
  startsWith ("{" ++ ref ++ "}") "{" = true
  /\ endsWith ("{" ++ ref ++ "}") "}" = true
  /\ slice_1_m1 ("{" ++ ref ++ "}") = ref.
Proof.
  split; [|split].
  - unfold startsWith. simpl. destruct (ref ++ "}")%string; reflexivity.
  - exact (endsWith_append ("{" ++ ref) "}").
  - unfold slice_1_m1. simpl. rewrite length_append. simpl.
    replace (String.length ref + 1 - 1) with (String.length ref) by lia.
    apply substring_all.
Qed.

(** C2, as the code has it.  With the layer-qualified reference the run
    records two critical findings for the semantic token: the reference
    names no token, and it carries a layer prefix.  The two tests are
    independent: for every reference with a layer prefix that is in neither
    index, the walker records both findings and counts one invalid
    reference. *)
Theorem scenario_layer_qualified_reference :
  (exists rep,
     audit primitiveA semanticB = inr rep
     /\ critical (findings rep)
        = [ReferenceNotFound "color.text.brand" "primitive.color.brand.600";
           ReferenceLayerPrefix "color.text.brand" "primitive.color.brand.600"]
     /\ List.length (filter citesLayerPrefix (critical (findings rep))) = 1)
  /\ (forall primitiveIndex semanticIndex ref tokenPath all r,
        isLayerPrefixed ref = true ->
        includes primitiveIndex ref = false ->
        includes semanticIndex ref = false ->
        checkReferences primitiveIndex semanticIndex
          (JStr ("{" ++ ref ++ "}")) tokenPath all r
        = Returned (setAdd all ref)
            (mkResults (pass r) (warnings r)
               (critical r ++ [ReferenceNotFound tokenPath ref;
                               ReferenceLayerPrefix tokenPath ref])
               (incrInvalidReferences (stats r)))).
Proof.
  split.
  - eexists. split; [vm_compute; reflexivity|]. repeat split.
  - intros primitiveIndex semanticIndex ref tokenPath all r Hl Hp Hs.
    destruct (braces_make_a_reference ref) as (H1 & H2 & H3).
    cbn [checkReferences]. rewrite H1, H2, H3, Hl, Hp, Hs. simpl.
    unfold bind, addCritical, modifyStats, ret. simpl.
    rewrite <- app_assoc. reflexivity.
Qed.

Lemma scenario_layer_qualified_reference_witness :
  checkReferences ["color.brand.600"] ["color.text.brand"]
    (JStr "{primitive.color.brand.600}") "color.text.brand" [] results0
  = Returned ["primitive.color.brand.600"]
      (mkResults [] []
         [ReferenceNotFound "color.text.brand" "primitive.color.brand.600";
          ReferenceLayerPrefix "color.text.brand" "primitive.color.brand.600"]
         (incrInvalidReferences (stats results0))).
Proof.
  apply (proj2 scenario_layer_qualified_reference
           ["color.brand.600"] ["color.text.brand"]
           "primitive.color.brand.600" "color.text.brand" [] results0);
    reflexivity.
Defined.

(** C2 fails: the run does not record exactly one critical finding. *)
Lemma scenario_layer_qualified_reference_not_one :
  ~ (exists rep,
       audit primitiveA semanticB = inr rep
       /\ List.length (critical (findings rep)) = 1).
Proof.
  intros (rep & Ha & Hc). vm_compute in Ha.
  injection Ha as <-. discriminate Hc.
Qed.

(** ** What traverseTokens visits *)

Lemma tokensIn_obj (props : list (string * json)) (path : list string) :
  tokensIn (JObj props) path
  = flat_map (fun kv => tokensBelow path (fst kv) (snd kv)) props.
Proof.
  simpl. induction props as [|[k v] props IH]; [reflexivity|].
  simpl. rewrite IH. reflexivity.
Qed.

Lemma tokensIn_arr_from (elems : list json) (path : list string) (i : nat) :
  (fix loop (elems : list json) (i : nat) :=
     match elems with
     | [] => []
     | value :: rest => tokensBelow path (indexKey i) value ++ loop rest (S i)
     end) elems i
  = flat_map (fun kv => tokensBelow path (fst kv) (snd kv))
      (combine (map indexKey (seq i (List.length elems))) elems).
Proof.
  revert i. induction elems as [|v elems IH]; intros i; [reflexivity|].
  simpl. rewrite IH. reflexivity.
Qed.

Lemma tokensIn_entries (obj : json) (path : list string) es :
  entries obj = Some es ->
  tokensIn obj path
  = flat_map (fun kv => tokensBelow path (fst kv) (snd kv)) es.
Proof.
  destruct obj; simpl; intros E; try discriminate;
    injection E as <-; try reflexivity.
  - (* a string: its characters are neither tokens nor groups *)
    generalize 0 as i. induction (list_ascii_of_string s) as [|c cs IH];
      intros i; [reflexivity|].
    simpl. rewrite <- IH. unfold tokensBelow. simpl.
    destruct (isMetadataKey (indexKey i)); reflexivity.
  - apply (tokensIn_arr_from elems path 0).
  - apply tokensIn_obj.
Qed.

Lemma group_is_no_token (v : json) : isGroup v = true -> isToken v = false.
Proof.
  destruct v; simpl; try reflexivity.
  intros H. apply negb_true_iff in H. exact H.
Qed.

Lemma in_tokensIn (obj : json) (path : list string) es p t :
  entries obj = Some es ->
  In (p, t) (tokensIn obj path)
  <-> exists k v, In (k, v) es /\ In (p, t) (tokensBelow path k v).
Proof.
  intros E. rewrite (tokensIn_entries obj path es E), in_flat_map. split.
  - intros ([k v] & Hin & Hb). eauto.
  - intros (k & v & Hin & Hb). exists (k, v). auto.
Qed.


Lemma entries_defined (obj : json) : obj <> JNull -> exists es, entries obj = Some es.
Proof.
  destruct obj; intros H; try congruence; simpl; eauto.
Qed.

Lemma visited_descends (obj : json) :
  forall path p t,
    In (p, t) (tokensIn obj path) ->
    exists q, p = path ++ q /\ descends obj q t /\ isToken t = true.
Proof.
  induction obj using json_ind; intros path p t Hin; try destruct Hin.
  - (* array *)
    rewrite (in_tokensIn (JArr elems) path _ p t eq_refl) in Hin.
    destruct Hin as (k & v & Hkv & Hb).
    assert (Hv : In v elems) by exact (in_combine_r _ _ _ _ Hkv).
    rewrite Forall_forall in H. specialize (H v Hv).
    unfold tokensBelow in Hb.
    destruct (isMetadataKey k) eqn:Ek; [destruct Hb|].
    assert (Hc : child (JArr elems) k v) by (eexists; split; [reflexivity|]; auto).
    destruct (isToken v) eqn:Et.
    + destruct Hb as [Hb|[]]. injection Hb as <- <-.
      exists [k]. repeat split; auto. constructor. exact Hc.
    + destruct (isGroup v) eqn:Eg; [|destruct Hb].
      destruct (H _ _ _ Hb) as (q & -> & Hd & Ht).
      exists (k :: q). rewrite <- app_assoc. repeat split; auto.
      econstructor; eauto.
  - (* object *)
    rewrite (in_tokensIn (JObj props) path _ p t eq_refl) in Hin.
    destruct Hin as (k & v & Hkv & Hb).
    rewrite Forall_forall in H. specialize (H (k, v) Hkv). simpl in H.
    unfold tokensBelow in Hb.
    destruct (isMetadataKey k) eqn:Ek; [destruct Hb|].
    assert (Hc : child (JObj props) k v) by (eexists; split; [reflexivity|]; auto).
    destruct (isToken v) eqn:Et.
    + destruct Hb as [Hb|[]]. injection Hb as <- <-.
      exists [k]. repeat split; auto. constructor. exact Hc.
    + destruct (isGroup v) eqn:Eg; [|destruct Hb].
      destruct (H _ _ _ Hb) as (q & -> & Hd & Ht).
      exists (k :: q). rewrite <- app_assoc. repeat split; auto.
      econstructor; eauto.
Qed.

Lemma descends_visited (obj : json) (q : list string) (t : json) :
  descends obj q t -> isToken t = true ->
  forall path, In (path ++ q, t) (tokensIn obj path).
Proof.
  intros Hd Ht. induction Hd as [obj k v (es & E & Hin & Ek)
                                |obj k mid q v (es & E & Hin & Ek) Hg Hd IH];
    intros path; rewrite (in_tokensIn obj path es _ _ E).
  - exists k, v. split; [exact Hin|]. unfold tokensBelow.
    rewrite Ek, Ht. left. reflexivity.
  - exists k, mid. split; [exact Hin|]. unfold tokensBelow.
    rewrite Ek, (group_is_no_token _ Hg), Hg.
    specialize (IH Ht (path ++ [k])). rewrite <- app_assoc in IH. exact IH.
Qed.

Lemma descends_path (obj : json) (q : list string) (t : json) :
  descends obj q t ->
  q <> [] /\ Forall (fun k => isMetadataKey k = false) q.
Proof.
  induction 1 as [obj k v (es & E & Hin & Ek)
                 |obj k mid q v (es & E & Hin & Ek) Hg Hd [_ IH]];
    split; try discriminate; repeat constructor; auto.
Qed.

Lemma record_fold (l : layer) (ts : list (list string * json)) :
  forall calls r,
    foldM (visitToken recordCallback l) ts calls r
    = Returned (calls ++ ts) (counted l (List.length ts) r).
Proof.
  induction ts as [|pt ts IH]; intros calls r.
  - simpl. rewrite app_nil_r. destruct r; reflexivity.
  - destruct pt as [p t]. simpl. unfold bind at 1. unfold visitToken at 1.
    simpl. rewrite IH. rewrite <- app_assoc. simpl. f_equal.
    unfold counted. simpl. f_equal.
    symmetry.
    exact (Nat.iter_succ_r (List.length ts) _ (countToken l) (stats r)).
Qed.

(** ** The call stack *)

Ltac depth_bound Hd :=
  cbn [isGroup negb] in Hd; lia.

Lemma traverseTokensWithin_direct {A}
    (callback : list string -> json -> layer -> A -> M A) (l : layer)
    (obj : json) :
  forall stack path acc r,
    groupDepth obj <= stack ->
    traverseTokensWithin obj stack (direct callback) path l acc r
    = traverseTokens obj callback path l acc r.
Proof.
  induction obj using json_ind; intros stack path acc r Hd; try reflexivity.
  - (* an array *)
    simpl in *. revert Hd.
    match goal with
    | |- ?D elems 0 <= stack -> ?W elems 0 acc r = ?P elems 0 acc r =>
        enough (forall i acc r,
                   D elems i <= stack -> W elems i acc r = P elems i acc r)
          by auto
    end.
    induction H as [|x elems Hx _ IH]; intros i acc0 r0 Hd; [reflexivity|].
    apply bind_ext.
    + intros r1. revert Hd.
      destruct (isMetadataKey (indexKey i)); intros Hd; [reflexivity|].
      destruct x; try reflexivity.
      * destruct stack as [|below]; [depth_bound Hd|].
        apply Hx. depth_bound Hd.
      * unfold isGroup in Hd. revert Hd.
        destruct (hasOwn "$value" props); intros Hd; [reflexivity|].
        destruct stack as [|below]; [depth_bound Hd|].
        apply Hx. depth_bound Hd.
    + intros a r1. apply IH. lia.
  - (* an object *)
    simpl in *. revert acc r Hd.
    induction H as [|[k x] props Hx _ IH]; intros acc r Hd; [reflexivity|].
    apply bind_ext.
    + intros r0. revert Hd.
      destruct (isMetadataKey k); intros Hd; [reflexivity|].
      simpl in Hx.
      destruct x; try reflexivity.
      * destruct stack as [|below]; [depth_bound Hd|].
        apply Hx. depth_bound Hd.
      * unfold isGroup in Hd. revert Hd.
        destruct (hasOwn "$value" props0); intros Hd; [reflexivity|].
        destruct stack as [|below]; [depth_bound Hd|].
        apply Hx. depth_bound Hd.
    + intros a r0. apply IH. lia.
Qed.

Lemma traverseTokens_returns {A}
    (callback : list string -> json -> layer -> A -> M A) (l : layer) :
  (forall p t acc r, exists a r', callback p t l acc r = Returned a r') ->
  forall obj path acc r,
    obj <> JNull ->
    exists a r', traverseTokens obj callback path l acc r = Returned a r'.
Proof.
  intros Hc obj path acc r Hnn. rewrite traverseTokens_fold by exact Hnn.
  revert acc r. induction (tokensIn obj path) as [|[p t] ts IH]; intros acc r.
  - simpl. unfold ret. eauto.
  - simpl. unfold bind at 1. unfold visitToken at 1. cbn [fst snd].
    unfold bind at 1. destruct (Hc p t acc r) as (a & r1 & ->).
    unfold bind at 1. unfold modifyStats at 1. unfold ret at 1. apply IH.
Qed.

(** A traversal with a callback that always returns ends in a RangeError
    when the groups of the tree are nested deeper than the stack holds. *)
Lemma traverseTokensWithin_overflow {A}
    (callback : list string -> json -> layer -> A -> M A) (l : layer) :
  (forall p t acc r, exists a r', callback p t l acc r = Returned a r') ->
  forall obj stack path acc r,
    stack < groupDepth obj ->
    traverseTokensWithin obj stack (direct callback) path l acc r
    = Thrown stackOverflow.
Proof.
  intros Hc.
  induction obj using json_ind; intros stack path acc r Hd;
    try (simpl in Hd; lia).
  - (* an array *)
    simpl in *. revert Hd.
    match goal with
    | |- stack < ?D elems 0 -> ?W elems 0 acc r = _ =>
        enough (forall i acc r,
                   stack < D elems i -> W elems i acc r = Thrown stackOverflow)
          by auto
    end.
    induction H as [|x elems Hx _ IH]; intros i acc0 r0 Hd; [lia|].
    unfold bind at 1. revert Hd.
    destruct (isMetadataKey (indexKey i)); intros Hd.
    + apply IH. lia.
    + destruct (isGroup x) eqn:Eg.
      * destruct (Nat.le_gt_cases (S (groupDepth x)) stack) as [Hfit|Hdeep].
        -- destruct stack as [|below]; [lia|].
           assert (Hnn : x <> JNull) by (intros ->; discriminate Eg).
           destruct (traverseTokens_returns callback l Hc x
                       (path ++ [indexKey i]) acc0 r0 Hnn) as (a & r1 & E).
           rewrite <- (traverseTokensWithin_direct callback l x below) in E
             by lia.
           destruct x; try discriminate Eg.
           ++ rewrite E. apply IH. lia.
           ++ unfold isGroup in Eg. apply negb_true_iff in Eg. rewrite Eg.
              rewrite E. apply IH. lia.
        -- destruct x; try discriminate Eg.
           ++ destruct stack as [|below]; [reflexivity|].
              rewrite Hx by lia. reflexivity.
           ++ unfold isGroup in Eg. apply negb_true_iff in Eg. rewrite Eg.
              destruct stack as [|below]; [reflexivity|].
              rewrite Hx by lia. reflexivity.
      * destruct x; try discriminate Eg;
          try (unfold ret at 1; apply IH; lia).
        unfold isGroup in Eg. apply negb_false_iff in Eg. rewrite Eg.
        unfold bind at 1. unfold direct at 1.
        destruct (Hc (path ++ [indexKey i]) (JObj props) acc0 r0)
          as (a & r1 & ->).
        unfold bind at 1. unfold modifyStats at 1. unfold ret at 1.
        apply IH. lia.
  - (* an object *)
    simpl in *. revert acc r Hd.
    induction H as [|[k x] props Hx _ IH]; intros acc0 r0 Hd; [lia|].
    simpl in Hx.
    unfold bind at 1. revert Hd.
    destruct (isMetadataKey k); intros Hd.
    + apply IH. lia.
    + destruct (isGroup x) eqn:Eg.
      * destruct (Nat.le_gt_cases (S (groupDepth x)) stack) as [Hfit|Hdeep].
        -- destruct stack as [|below]; [lia|].
           assert (Hnn : x <> JNull) by (intros ->; discriminate Eg).
           destruct (traverseTokens_returns callback l Hc x
                       (path ++ [k]) acc0 r0 Hnn) as (a & r1 & E).
           rewrite <- (traverseTokensWithin_direct callback l x below) in E
             by lia.
           destruct x; try discriminate Eg.
           ++ rewrite E. apply IH. lia.
           ++ unfold isGroup in Eg. apply negb_true_iff in Eg. rewrite Eg.
              rewrite E. apply IH. lia.
        -- destruct x; try discriminate Eg.
           ++ destruct stack as [|below]; [reflexivity|].
              rewrite Hx by lia. reflexivity.
           ++ unfold isGroup in Eg. apply negb_true_iff in Eg. rewrite Eg.
              destruct stack as [|below]; [reflexivity|].
              rewrite Hx by lia. reflexivity.
      * destruct x; try discriminate Eg;
          try (unfold ret at 1; apply IH; lia).
        unfold isGroup in Eg. apply negb_false_iff in Eg. rewrite Eg.
        unfold bind at 1. unfold direct at 1.
        destruct (Hc (path ++ [k]) (JObj props0) acc0 r0)
          as (a & r1 & ->).
        unfold bind at 1. unfold modifyStats at 1. unfold ret at 1.
        apply IH. lia.
Qed.

Lemma nesting_obj_cons (k : string) (v : json) (props : list (string * json)) :
  nesting (JObj ((k, v) :: props))
  = Nat.max (S (nesting v)) (nesting (JObj props)).
Proof. reflexivity. Qed.

Lemma nesting_arr_cons (v : json) (elems : list json) :
  nesting (JArr (v :: elems)) = Nat.max (S (nesting v)) (nesting (JArr elems)).
Proof. reflexivity. Qed.

Lemma checkReferencesWithin_fits (primitiveIndex semanticIndex : list string)
    (tokenPath : string) (value : json) :
  forall stack all r,
    nesting value <= stack ->
    checkReferencesWithin primitiveIndex semanticIndex value stack tokenPath
      all r
    = checkReferences primitiveIndex semanticIndex value tokenPath all r.
Proof.
  induction value using json_ind; intros stack all r Hd; try reflexivity.
  - (* an array *)
    simpl. revert all r Hd.
    induction H as [|x elems Hx _ IH]; intros all r Hd; [reflexivity|].
    rewrite nesting_arr_cons in Hd. apply bind_ext.
    + intros r0. destruct stack as [|below]; [lia|]. apply Hx. lia.
    + intros a r0. apply IH. lia.
  - (* an object *)
    simpl. revert all r Hd.
    induction H as [|[k x] props Hx _ IH]; intros all r Hd; [reflexivity|].
    rewrite nesting_obj_cons in Hd. simpl in Hx. apply bind_ext.
    + intros r0. destruct stack as [|below]; [lia|]. apply Hx. lia.
    + intros a r0. apply IH. lia.
Qed.










Lemma forEach_ext {A} (f g : A -> M unit) (l : list A) :
  (forall x r, f x r = g x r) -> forall r, forEach f l r = forEach g l r.
Proof.
  intros H. induction l as [|x l IH]; intros r; [reflexivity|].
  simpl. apply bind_ext; [apply H | intros _; exact IH].
Qed.

(** *** The run within the stack *)

Section WithinStack.

Variable stack : nat.
Variables primitiveTokens semanticTokens : json.

Hypothesis primitive_fits : groupDepth primitiveTokens <= stack.
Hypothesis semantic_fits : groupDepth semanticTokens <= stack.

Ltac within_step :=
  first
    [ apply traverseTokensWithin_direct; assumption
    | reflexivity ].

Ltac within_tac :=
  repeat (apply bind_ext; [intros ?; within_step | intros ? ?]);
  within_step.


Lemma checkNamingConventionsWithin_fits r :
  checkNamingConventionsWithin stack primitiveTokens semanticTokens r
  = checkNamingConventions primitiveTokens semanticTokens r.
Proof.
  unfold checkNamingConventionsWithin, checkNamingConventions. within_tac.
Qed.


Lemma checkScaleWithin_fits category r :
  checkScaleWithin stack primitiveTokens category r
  = checkScale primitiveTokens category r.
Proof. unfold checkScaleWithin, checkScale. within_tac. Qed.

Lemma checkCompletenessWithin_fits r :
  checkCompletenessWithin stack primitiveTokens semanticTokens r
  = checkCompleteness primitiveTokens semanticTokens r.
Proof.
  unfold checkCompletenessWithin, checkCompleteness.
  apply bind_ext; [intros ?; within_step | intros ? ?].
  apply bind_ext; [reflexivity | intros ? ?].
  apply bind_ext; [apply forEach_ext, checkScaleWithin_fits | intros ? ?].
  within_tac.
Qed.


Hypothesis semantic_values_fit : nesting semanticTokens <= stack.




End WithinStack.

Lemma recordCallback_returns (l : layer) :
  forall p t acc r, exists a r', recordCallback p t l acc r = Returned a r'.
Proof. intros. unfold recordCallback, ret. eauto. Qed.

(** C10, as the code has it.  [traverseTokens] calls itself once for each
    group inside a group, so it needs a stack that holds as many nested
    calls as the groups of the tree are nested ([groupDepth]).  On such a
    stack, and on every tree but [null], it calls the callback once on each
    element of [tokensIn], in that order, and changes the results only
    through the callback and the token counters; on a smaller stack the
    traversal with a callback that always returns, as the one that records
    its calls, ends in a RangeError.
    The elements of [tokensIn] are exactly the token nodes (the objects with
    ["$value"]) reached from the root through keys that do not start with
    "$" and through nodes that are groups: objects without ["$value"] or
    arrays.  Every path handed to the callback extends the path prefix by
    at least one segment, and none of the added segments starts with "$". *)
Theorem traverseTokens_visits (obj : json) (stack : nat) :
  obj <> JNull ->
  (forall l path calls r,
      traverseTokensWithin obj stack (direct recordCallback) path l calls r
      = if groupDepth obj <=? stack
        then Returned (calls ++ tokensIn obj path)
                      (counted l (List.length (tokensIn obj path)) r)
        else Thrown stackOverflow)
  /\ (forall A (callback : list string -> json -> layer -> A -> M A)
             l path acc r,
        groupDepth obj <= stack ->
        traverseTokensWithin obj stack (direct callback) path l acc r
        = foldM (visitToken callback l) (tokensIn obj path) acc r)
  /\ (forall A (callback : list string -> json -> layer -> A -> M A)
             l path acc r,
        (forall p t acc r,
            exists acc' r', callback p t l acc r = Returned acc' r') ->
        stack < groupDepth obj ->
        traverseTokensWithin obj stack (direct callback) path l acc r
        = Thrown stackOverflow)
  /\ (forall path p t,
        In (p, t) (tokensIn obj path)
        <-> exists q, p = path ++ q /\ descends obj q t /\ isToken t = true)
  /\ (forall q t,
        descends obj q t ->
        q <> [] /\ Forall (fun k => isMetadataKey k = false) q).
Proof.
  intros Hnn. split; [|split; [|split; [|split]]].
  - intros l path calls r.
    destruct (groupDepth obj <=? stack) eqn:E.
    + apply Nat.leb_le in E.
      rewrite traverseTokensWithin_direct by exact E.
      rewrite traverseTokens_fold by exact Hnn. apply record_fold.
    + apply Nat.leb_gt in E.
      apply traverseTokensWithin_overflow;
        [apply recordCallback_returns | exact E].
  - intros A callback l path acc r Hd.
    rewrite traverseTokensWithin_direct by exact Hd.
    apply traverseTokens_fold. exact Hnn.
  - intros A callback l path acc r Hc Hd.
    apply traverseTokensWithin_overflow; assumption.
  - intros path p t. split.
    + apply visited_descends.
    + intros (q & -> & Hd & Ht). apply descends_visited; assumption.
  - intros q t Hd. exact (descends_path _ _ _ Hd).
Qed.

Lemma traverseTokens_visits_witness :
  traverseTokensWithin nestedToken 0 (direct recordCallback) [] primitive []
    results0
  = Returned [(["a"], outerToken)] (counted primitive 1 results0).
Proof.
  destruct (traverseTokens_visits nestedToken 0) as (H & _).
  - discriminate.
  - exact (H primitive [] [] results0).
Defined.

(** C10 fails below a token: the node at [a.b] is an object with
    ["$value"], reached through the keys "a" and "b", and the callback is
    called on [a] only. *)
Lemma nested_token_not_visited :
  reachable nestedToken ["a"; "b"] innerToken
  /\ isToken innerToken = true
  /\ traverseTokens nestedToken recordCallback [] primitive [] results0
     = Returned [(["a"], outerToken)] (counted primitive 1 results0).
Proof.
  split; [|split; reflexivity].
  apply reachable_step with (mid := outerToken).
  - exists [("a", outerToken)]. repeat split. left. reflexivity.
  - apply reachable_child.
    exists [("$value", JNum 1); ("b", innerToken)]. repeat split.
    right. left. reflexivity.
Qed.

(** ** What the callbacks leave alone *)

(** The callbacks and the validators change the results only by
    [addWarning], [addCritical] and the three counters of missing types,
    missing descriptions and invalid references.  A relation between the
    results before and after that these steps respect is respected by every
    callback. *)
Section Keeps.

Variable R : results -> results -> Prop.

Hypothesis R_refl : forall r, R r r.
Hypothesis R_trans : forall r1 r2 r3, R r1 r2 -> R r2 r3 -> R r1 r3.
Hypothesis R_warning :
  forall msg r,
    R r (mkResults (pass r) (warnings r ++ [msg]) (critical r) (stats r)).
Hypothesis R_critical :
  forall msg r,
    R r (mkResults (pass r) (warnings r) (critical r ++ [msg]) (stats r)).
Hypothesis R_missingType :
  forall r,
    R r (mkResults (pass r) (warnings r) (critical r)
                   (incrMissingType (stats r))).
Hypothesis R_missingDescription :
  forall r,
    R r (mkResults (pass r) (warnings r) (critical r)
                   (incrMissingDescription (stats r))).
Hypothesis R_invalidReferences :
  forall r,
    R r (mkResults (pass r) (warnings r) (critical r)
                   (incrInvalidReferences (stats r))).

Lemma keeps_ret {A} (a : A) : keeps R (ret a).
Proof. intros r x r' E. injection E as _ <-. apply R_refl. Qed.

Lemma keeps_throw {A} (e : error) : keeps R (@throw A e).
Proof. intros r x r' E. discriminate E. Qed.

Lemma keeps_bind {A B} (m : M A) (k : A -> M B) :
  keeps R m -> (forall x, keeps R (k x)) -> keeps R (bind m k).
Proof.
  intros Hm Hk r y r' E. unfold bind in E.
  destruct (m r) as [x r1|] eqn:E1; [|discriminate].
  exact (R_trans _ _ _ (Hm _ _ _ E1) (Hk x _ _ _ E)).
Qed.

Lemma keeps_addWarning msg : keeps R (addWarning msg).
Proof. intros r x r' E. injection E as _ <-. apply R_warning. Qed.

Lemma keeps_addCritical msg : keeps R (addCritical msg).
Proof. intros r x r' E. injection E as _ <-. apply R_critical. Qed.

Lemma keeps_getStats : keeps R getStats.
Proof. intros r x r' E. injection E as _ <-. apply R_refl. Qed.

Lemma keeps_incrMissingType : keeps R (modifyStats incrMissingType).
Proof. intros r x r' E. injection E as _ <-. apply R_missingType. Qed.

Lemma keeps_incrMissingDescription :
  keeps R (modifyStats incrMissingDescription).
Proof. intros r x r' E. injection E as _ <-. apply R_missingDescription. Qed.

Lemma keeps_incrInvalidReferences :
  keeps R (modifyStats incrInvalidReferences).
Proof. intros r x r' E. injection E as _ <-. apply R_invalidReferences. Qed.

Lemma keeps_when b (m : M unit) : keeps R m -> keeps R (when b m).
Proof. intros H. destruct b; [exact H | apply keeps_ret]. Qed.

Lemma keeps_hasProp prop value : keeps R (hasProp prop value).
Proof.
  unfold hasProp. destruct (inOperator prop value);
    [apply keeps_ret | apply keeps_throw].
Qed.

Lemma keeps_toNumberM v : keeps R (toNumberM v).
Proof.
  unfold toNumberM. destruct (convertibleOpt v);
    [apply keeps_ret | apply keeps_throw].
Qed.

Lemma keeps_render v : keeps R (render v).
Proof.
  unfold render. destruct (convertibleOpt v);
    [apply keeps_ret | apply keeps_throw].
Qed.

Lemma keeps_lessThan v c : keeps R (lessThan v c).
Proof.
  unfold lessThan. apply keeps_bind; [apply keeps_toNumberM|].
  intros. apply keeps_ret.
Qed.

Lemma keeps_greaterThan v c : keeps R (greaterThan v c).
Proof.
  unfold greaterThan. apply keeps_bind; [apply keeps_toNumberM|].
  intros. apply keeps_ret.
Qed.

Lemma keeps_orM a b : keeps R a -> keeps R b -> keeps R (orM a b).
Proof.
  intros Ha Hb. unfold orM. apply keeps_bind; [exact Ha|].
  intros []; [apply keeps_ret | exact Hb].
Qed.

Lemma keeps_testHex v : keeps R (testHex v).
Proof.
  unfold testHex. destruct v; [|apply keeps_ret].
  apply keeps_bind; [apply keeps_render|]. intros. apply keeps_ret.
Qed.

Lemma keeps_forEach {A} (f : A -> M unit) (l : list A) :
  (forall x, keeps R (f x)) -> keeps R (forEach f l).
Proof.
  intros Hf. induction l as [|x l IH]; simpl.
  - apply keeps_ret.
  - apply keeps_bind; [apply Hf | intros; exact IH].
Qed.

(** One step of a proof that a computation keeps [R]. *)
Ltac keeps_step :=
  match goal with
  | |- forall _, _ => intro
  | |- keeps R (bind _ _) => apply keeps_bind
  | |- keeps R (ret _) => apply keeps_ret
  | |- keeps R (throw _) => apply keeps_throw
  | |- keeps R (when _ _) => apply keeps_when
  | |- keeps R (addWarning _) => apply keeps_addWarning
  | |- keeps R (addCritical _) => apply keeps_addCritical
  | |- keeps R getStats => apply keeps_getStats
  | |- keeps R (modifyStats incrMissingType) => apply keeps_incrMissingType
  | |- keeps R (modifyStats incrMissingDescription) =>
      apply keeps_incrMissingDescription
  | |- keeps R (modifyStats incrInvalidReferences) =>
      apply keeps_incrInvalidReferences
  | |- keeps R (hasProp _ _) => apply keeps_hasProp
  | |- keeps R (toNumberM _) => apply keeps_toNumberM
  | |- keeps R (render _) => apply keeps_render
  | |- keeps R (lessThan _ _) => apply keeps_lessThan
  | |- keeps R (greaterThan _ _) => apply keeps_greaterThan
  | |- keeps R (testHex _) => apply keeps_testHex
  | |- keeps R (orM _ _) => apply keeps_orM
  | |- keeps R (forEach _ _) => apply keeps_forEach
  | H : _ |- _ => solve [apply H]
  | |- keeps R (if ?b then _ else _) => destruct b
  | |- keeps R (match ?x with _ => _ end) => destruct x
  | |- keeps R (let _ := _ in _) => cbv zeta
  end.

Ltac keeps_tac := repeat keeps_step.

Lemma keeps_missingProps required value :
  keeps R (missingProps required value).
Proof. induction required; simpl; keeps_tac. Qed.

Lemma keeps_validateColorValue value tokenPath :
  keeps R (validateColorValue value tokenPath).
Proof.
  pose proof keeps_missingProps.
  unfold validateColorValue; destruct value; keeps_tac.
Qed.

Lemma keeps_validateDimensionValue value tokenPath :
  keeps R (validateDimensionValue value tokenPath).
Proof. unfold validateDimensionValue; destruct value; keeps_tac. Qed.

Lemma keeps_validateTypographyValue value tokenPath :
  keeps R (validateTypographyValue value tokenPath).
Proof.
  pose proof keeps_missingProps.
  unfold validateTypographyValue; keeps_tac.
Qed.

Lemma keeps_validateShadows shadows tokenPath :
  keeps R (validateShadows shadows tokenPath).
Proof.
  pose proof keeps_missingProps.
  induction shadows; simpl; keeps_tac.
Qed.

Lemma keeps_validateShadowValue value tokenPath :
  keeps R (validateShadowValue value tokenPath).
Proof.
  pose proof keeps_validateShadows.
  unfold validateShadowValue; keeps_tac.
Qed.

Lemma keeps_checkReferences primitiveIndex semanticIndex (value : json) :
  forall tokenPath all,
    keeps R (checkReferences primitiveIndex semanticIndex value tokenPath all).
Proof.
  induction value using json_ind; intros tokenPath all;
    try (simpl; keeps_tac; fail).
  - simpl. revert all.
    induction H as [|v elems Hv _ IH]; intros all; keeps_tac.
  - simpl. revert all.
    induction H as [|[k v] props Hv _ IH]; intros all; simpl in *; keeps_tac.
Qed.

Lemma keeps_checkEssentials semanticIndex essentials n :
  keeps R (checkEssentials semanticIndex essentials n).
Proof. revert n. induction essentials; intros n; simpl; keeps_tac. Qed.

Lemma keeps_checkTypeSets sets n : keeps R (checkTypeSets sets n).
Proof.
  revert n. induction sets as [|[c ts] sets IH]; intros n; simpl; keeps_tac.
Qed.

(** *** The visit callbacks *)

Ltac keeps_callback_step :=
  match goal with
  | |- keeps R (validateColorValue _ _) => apply keeps_validateColorValue
  | |- keeps R (validateDimensionValue _ _) =>
      apply keeps_validateDimensionValue
  | |- keeps R (validateTypographyValue _ _) =>
      apply keeps_validateTypographyValue
  | |- keeps R (validateShadowValue _ _) => apply keeps_validateShadowValue
  | |- keeps R (checkReferences _ _ _ _ _) => apply keeps_checkReferences
  | |- _ => keeps_step
  end.

Ltac keeps_callback := intros; repeat keeps_callback_step.

Lemma keeps_typeCallback p t l a : keeps R (typeCallback p t l a).
Proof. unfold typeCallback. keeps_callback. Qed.

Lemma keeps_primitiveDescriptionCallback p t l a :
  keeps R (primitiveDescriptionCallback p t l a).
Proof. unfold primitiveDescriptionCallback. keeps_callback. Qed.

Lemma keeps_semanticDescriptionCallback p t l a :
  keeps R (semanticDescriptionCallback p t l a).
Proof. unfold semanticDescriptionCallback. keeps_callback. Qed.

Lemma keeps_valueFormatCallback p t l a :
  keeps R (valueFormatCallback p t l a).
Proof. unfold valueFormatCallback. keeps_callback. Qed.

Lemma keeps_depthCallback p t l a : keeps R (depthCallback p t l a).
Proof. unfold depthCallback. keeps_callback. Qed.

Lemma keeps_indexCallback p t l a : keeps R (indexCallback p t l a).
Proof. unfold indexCallback. keeps_callback. Qed.

Lemma keeps_referenceCallback pi si p t l a :
  keeps R (referenceCallback pi si p t l a).
Proof. unfold referenceCallback. keeps_callback. Qed.

Lemma keeps_layerPrefixCallback p t l a :
  keeps R (layerPrefixCallback p t l a).
Proof. unfold layerPrefixCallback. keeps_callback. Qed.

Lemma keeps_stateCallback p t l a : keeps R (stateCallback p t l a).
Proof. unfold stateCallback. keeps_callback. Qed.

Lemma keeps_colorFormatCallback p t l a :
  keeps R (colorFormatCallback p t l a).
Proof. unfold colorFormatCallback. keeps_callback. Qed.

Lemma keeps_dimensionFormatCallback p t l a :
  keeps R (dimensionFormatCallback p t l a).
Proof. unfold dimensionFormatCallback. keeps_callback. Qed.

Lemma keeps_typographyFormatCallback p t l a :
  keeps R (typographyFormatCallback p t l a).
Proof. unfold typographyFormatCallback. keeps_callback. Qed.

Lemma keeps_shadowFormatCallback p t l a :
  keeps R (shadowFormatCallback p t l a).
Proof. unfold shadowFormatCallback. keeps_callback. Qed.

Lemma keeps_numberFormatCallback p t l a :
  keeps R (numberFormatCallback p t l a).
Proof. unfold numberFormatCallback. keeps_callback. Qed.

Lemma keeps_scaleCallback c p t l a : keeps R (scaleCallback c p t l a).
Proof. unfold scaleCallback. keeps_callback. Qed.

Lemma keeps_hasStatesCallback p t l a :
  keeps R (hasStatesCallback p t l a).
Proof. unfold hasStatesCallback. keeps_callback. Qed.

Lemma keeps_genericDescriptionCallback p t l a :
  keeps R (genericDescriptionCallback p t l a).
Proof. unfold genericDescriptionCallback. keeps_callback. Qed.

Lemma keeps_typeCollectCallback p t l a :
  keeps R (typeCollectCallback p t l a).
Proof. unfold typeCollectCallback. keeps_callback. Qed.

Lemma keeps_accessibilityCallback p t l a :
  keeps R (accessibilityCallback p t l a).
Proof. unfold accessibilityCallback. keeps_callback. Qed.

End Keeps.

Create HintDb keeps.

#[local] Hint Resolve keeps_ret keeps_addWarning keeps_addCritical
  keeps_getStats keeps_checkEssentials keeps_checkTypeSets
  keeps_typeCallback keeps_primitiveDescriptionCallback
  keeps_semanticDescriptionCallback keeps_valueFormatCallback
  keeps_depthCallback keeps_indexCallback keeps_referenceCallback
  keeps_layerPrefixCallback keeps_stateCallback keeps_colorFormatCallback
  keeps_dimensionFormatCallback keeps_typographyFormatCallback
  keeps_shadowFormatCallback keeps_numberFormatCallback keeps_scaleCallback
  keeps_hasStatesCallback keeps_genericDescriptionCallback
  keeps_typeCollectCallback keeps_accessibilityCallback : keeps.

(** ** The token counters *)

Lemma sameCounters_refl r : sameCounters r r.
Proof. repeat split. Qed.

Lemma sameCounters_trans r1 r2 r3 :
  sameCounters r1 r2 -> sameCounters r2 r3 -> sameCounters r1 r3.
Proof. unfold sameCounters. intuition congruence. Qed.

Lemma sameCounters_warning msg r :
  sameCounters r
    (mkResults (pass r) (warnings r ++ [msg]) (critical r) (stats r)).
Proof. repeat split. Qed.

Lemma sameCounters_critical msg r :
  sameCounters r
    (mkResults (pass r) (warnings r) (critical r ++ [msg]) (stats r)).
Proof. repeat split. Qed.

Lemma sameCounters_missingType r :
  sameCounters r
    (mkResults (pass r) (warnings r) (critical r) (incrMissingType (stats r))).
Proof. repeat split. Qed.

Lemma sameCounters_missingDescription r :
  sameCounters r
    (mkResults (pass r) (warnings r) (critical r)
               (incrMissingDescription (stats r))).
Proof. repeat split. Qed.

Lemma sameCounters_invalidReferences r :
  sameCounters r
    (mkResults (pass r) (warnings r) (critical r)
               (incrInvalidReferences (stats r))).
Proof. repeat split. Qed.

#[local] Hint Resolve sameCounters_refl sameCounters_trans
  sameCounters_warning sameCounters_critical sameCounters_missingType
  sameCounters_missingDescription sameCounters_invalidReferences : keeps.

Lemma advances_bind {A B} (m : M A) (k : A -> M B) a b c d :
  advances m a b -> (forall x, advances (k x) c d) ->
  advances (bind m k) (a + c) (b + d).
Proof.
  intros Hm Hk r y r' E. unfold bind in E.
  destruct (m r) as [x r1|] eqn:E1; [|discriminate].
  destruct (Hm _ _ _ E1) as (H1 & H2 & H3).
  destruct (Hk x _ _ _ E) as (H4 & H5 & H6). lia.
Qed.

Lemma advances_eq {A} (m : M A) a b a' b' :
  advances m a b -> a = a' -> b = b' -> advances m a' b'.
Proof. intros H <- <-. exact H. Qed.

Lemma advances_ext {A} (m m' : M A) a b :
  (forall r, m r = m' r) -> advances m' a b -> advances m a b.
Proof. intros E H r x r' Hr. rewrite E in Hr. exact (H _ _ _ Hr). Qed.

Lemma quiet_of_keeps {A} (m : M A) : keeps sameCounters m -> quiet m.
Proof.
  intros H r a r' E. destruct (H _ _ _ E) as (H1 & H2 & H3). lia.
Qed.

Lemma quiet_bind {A B} (m : M A) (k : A -> M B) :
  quiet m -> (forall x, quiet (k x)) -> quiet (bind m k).
Proof. intros Hm Hk. exact (advances_bind m k 0 0 0 0 Hm Hk). Qed.

Lemma quiet_ret {A} (a : A) : quiet (ret a).
Proof. intros r x r' E. injection E as _ <-. lia. Qed.

Lemma quiet_addPass msg : quiet (addPass msg).
Proof. intros r x r' E. injection E as _ <-. simpl. lia. Qed.

Lemma quiet_when b (m : M unit) : quiet m -> quiet (when b m).
Proof. intros H. destruct b; [exact H | apply quiet_ret]. Qed.

(** One step of a proof that a step of a checker is quiet. *)
Ltac quiet_step :=
  match goal with
  | |- forall _, _ => intro
  | |- quiet (bind _ _) => apply quiet_bind
  | |- quiet (ret _) => apply quiet_ret
  | |- quiet (when _ _) => apply quiet_when
  | |- quiet (addPass _) => apply quiet_addPass
  | |- quiet (if ?b then _ else _) => destruct b
  | |- quiet (match ?x with _ => _ end) => destruct x
  | |- quiet _ => apply quiet_of_keeps; solve [eauto with keeps nocore]
  end.

Lemma advances_countToken_primitive :
  advances (modifyStats (countToken primitive)) 1 0.
Proof. intros r x r' E. injection E as _ <-. simpl. lia. Qed.

Lemma advances_countToken_semantic :
  advances (modifyStats (countToken semantic)) 0 1.
Proof. intros r x r' E. injection E as _ <-. simpl. lia. Qed.

Lemma advances_fold_primitive {A}
    (callback : list string -> json -> layer -> A -> M A) ts :
  (forall p t acc, quiet (callback p t primitive acc)) ->
  forall acc, advances (foldM (visitToken callback primitive) ts acc)
                       (List.length ts) 0.
Proof.
  intros Hc. induction ts as [|pt ts IH]; intros acc; simpl.
  - apply quiet_ret.
  - apply (advances_bind _ _ 1 0 (List.length ts) 0); [|exact IH].
    unfold visitToken.
    apply (advances_bind _ _ 0 0 1 0); [apply Hc|]. intros x.
    apply (advances_bind _ _ 1 0 0 0);
      [apply advances_countToken_primitive | intros; apply quiet_ret].
Qed.

Lemma advances_fold_semantic {A}
    (callback : list string -> json -> layer -> A -> M A) ts :
  (forall p t acc, quiet (callback p t semantic acc)) ->
  forall acc, advances (foldM (visitToken callback semantic) ts acc)
                       0 (List.length ts).
Proof.
  intros Hc. induction ts as [|pt ts IH]; intros acc; simpl.
  - apply quiet_ret.
  - apply (advances_bind _ _ 0 1 0 (List.length ts)); [|exact IH].
    unfold visitToken.
    apply (advances_bind _ _ 0 0 0 1); [apply Hc|]. intros x.
    apply (advances_bind _ _ 0 1 0 0);
      [apply advances_countToken_semantic | intros; apply quiet_ret].
Qed.

Lemma advances_traverse_primitive {A} (obj : json)
    (callback : list string -> json -> layer -> A -> M A) path acc :
  (forall p t acc, keeps sameCounters (callback p t primitive acc)) ->
  advances (traverseTokens obj callback path primitive acc)
           (List.length (tokensIn obj path)) 0.
Proof.
  intros Hc. destruct (json_null_dec obj) as [->|Hnn].
  - intros r x r' E. discriminate E.
  - eapply advances_ext; [intro; apply traverseTokens_fold, Hnn|].
    apply advances_fold_primitive. intros. apply quiet_of_keeps, Hc.
Qed.

Lemma advances_traverse_semantic {A} (obj : json)
    (callback : list string -> json -> layer -> A -> M A) path acc :
  (forall p t acc, keeps sameCounters (callback p t semantic acc)) ->
  advances (traverseTokens obj callback path semantic acc)
           0 (List.length (tokensIn obj path)).
Proof.
  intros Hc. destruct (json_null_dec obj) as [->|Hnn].
  - intros r x r' E. discriminate E.
  - eapply advances_ext; [intro; apply traverseTokens_fold, Hnn|].
    apply advances_fold_semantic. intros. apply quiet_of_keeps, Hc.
Qed.

(** One step of a proof that counts the tokens a checker visits. *)
Ltac advances_step :=
  match goal with
  | |- forall _, _ => intro
  | |- advances (bind _ _) _ _ => eapply advances_bind
  | |- advances (traverseTokens _ _ _ primitive _) _ _ =>
      apply advances_traverse_primitive; solve [eauto with keeps nocore]
  | |- advances (traverseTokens _ _ _ semantic _) _ _ =>
      apply advances_traverse_semantic; solve [eauto with keeps nocore]
  | |- advances ?m _ _ =>
      apply (advances_eq m 0 0);
      [change (quiet m); repeat quiet_step | reflexivity | reflexivity]
  end.

Section TokenCounters.

Variables primitiveTokens semanticTokens : json.

Let P := List.length (tokensIn primitiveTokens []).
Let S := List.length (tokensIn semanticTokens []).

Lemma advances_checkDTCGCompliance :
  advances (checkDTCGCompliance primitiveTokens semanticTokens) (4 * P) (3 * S).
Proof.
  unfold checkDTCGCompliance.
  eapply advances_eq; [repeat advances_step | subst P S; lia ..].
Qed.

Lemma advances_checkReferenceIntegrity :
  advances (checkReferenceIntegrity primitiveTokens semanticTokens) P (2 * S).
Proof.
  unfold checkReferenceIntegrity.
  eapply advances_eq; [repeat advances_step | subst P S; lia ..].
Qed.

Lemma advances_checkNamingConventions :
  advances (checkNamingConventions primitiveTokens semanticTokens) P (2 * S).
Proof.
  unfold checkNamingConventions.
  eapply advances_eq; [repeat advances_step | subst P S; lia ..].
Qed.

Lemma advances_checkValueFormatConsistency :
  advances (checkValueFormatConsistency primitiveTokens semanticTokens)
           (3 * P) (2 * S).
Proof.
  unfold checkValueFormatConsistency.
  eapply advances_eq; [repeat advances_step | subst P S; lia ..].
Qed.

Lemma advances_checkCompleteness :
  advances (checkCompleteness primitiveTokens semanticTokens) (7 * P) (2 * S).
Proof.
  unfold checkCompleteness, colorCategories. cbn [forEach]. unfold checkScale.
  eapply advances_eq; [repeat advances_step | subst P S; lia ..].
Qed.

Lemma advances_checkQuality :
  advances (checkQuality primitiveTokens semanticTokens) (2 * P) S.
Proof.
  unfold checkQuality.
  eapply advances_eq; [repeat advances_step | subst P S; lia ..].
Qed.

Lemma advances_runChecks :
  advances (runChecks primitiveTokens semanticTokens) (18 * P) (12 * S).
Proof.
  unfold runChecks.
  eapply advances_eq;
    [ eapply advances_bind; [apply advances_checkDTCGCompliance|]; intros;
      eapply advances_bind; [apply advances_checkReferenceIntegrity|]; intros;
      eapply advances_bind; [apply advances_checkNamingConventions|]; intros;
      eapply advances_bind; [apply advances_checkValueFormatConsistency|]; intros;
      eapply advances_bind; [apply advances_checkCompleteness|]; intros;
      apply advances_checkQuality
    | subst P S; lia .. ].
Qed.

End TokenCounters.

(** C5, what the code does.  Every traversal counts the tokens it visits
    again, and a run traverses the primitive tree 18 times and the semantic
    tree 12 times: the counters of the report are 18 times the number of
    primitive tokens and 12 times the number of semantic tokens, and their
    sum. *)
Theorem stats_count_every_traversal (primitiveTokens semanticTokens : json)
    (rep : report) :
  audit primitiveTokens semanticTokens = inr rep ->
  primitiveTokens_of rep = 18 * List.length (tokensIn primitiveTokens [])
  /\ semanticTokens_of rep = 12 * List.length (tokensIn semanticTokens [])
  /\ totalTokens_of rep
     = 18 * List.length (tokensIn primitiveTokens [])
       + 12 * List.length (tokensIn semanticTokens []).
Proof.
  unfold audit. intros E.
  destruct (runChecks primitiveTokens semanticTokens results0) as [[] r|] eqn:Er;
    [|discriminate].
  injection E as <-.
  destruct (advances_runChecks primitiveTokens semanticTokens _ _ _ Er)
    as (H1 & H2 & H3).
  unfold primitiveTokens_of, semanticTokens_of, totalTokens_of. simpl in *.
  lia.
Qed.

Lemma stats_count_every_traversal_witness :
  List.length (tokensIn primitiveA []) = 1
  /\ List.length (tokensIn semanticA []) = 1
  /\ exists rep,
       audit primitiveA semanticA = inr rep
       /\ primitiveTokens_of rep = 18
       /\ semanticTokens_of rep = 12
       /\ totalTokens_of rep = 30.
Proof.
  split; [reflexivity|]. split; [reflexivity|].
  eexists. split; [vm_compute; reflexivity|].
  match goal with
  | |- primitiveTokens_of ?rep = _ /\ _ =>
      apply (stats_count_every_traversal primitiveA semanticA rep)
  end.
  vm_compute. reflexivity.
Defined.

(** ** The findings only grow *)

Lemma grows_refl r : grows r r.
Proof. repeat split; exists []; rewrite app_nil_r; reflexivity. Qed.

Lemma grows_trans r1 r2 r3 : grows r1 r2 -> grows r2 r3 -> grows r1 r3.
Proof.
  intros (Hp & (ws & Hw) & (cs & Hc)) (Hp' & (ws' & Hw') & (cs' & Hc')).
  repeat split.
  - congruence.
  - exists (ws ++ ws'). rewrite Hw', Hw, app_assoc. reflexivity.
  - exists (cs ++ cs'). rewrite Hc', Hc, app_assoc. reflexivity.
Qed.

Lemma grows_warning msg r :
  grows r (mkResults (pass r) (warnings r ++ [msg]) (critical r) (stats r)).
Proof.
  repeat split; simpl; [eexists; reflexivity|].
  exists []. rewrite app_nil_r. reflexivity.
Qed.

Lemma grows_critical msg r :
  grows r (mkResults (pass r) (warnings r) (critical r ++ [msg]) (stats r)).
Proof.
  repeat split; simpl; [|eexists; reflexivity].
  exists []. rewrite app_nil_r. reflexivity.
Qed.

Lemma grows_stats f r :
  grows r (mkResults (pass r) (warnings r) (critical r) (f (stats r))).
Proof. repeat split; exists []; rewrite app_nil_r; reflexivity. Qed.

#[local] Hint Resolve grows_refl grows_trans grows_warning grows_critical
  grows_stats : keeps.

Lemma extends_of_keeps {A} (m : M A) k : keeps grows m -> extends m k.
Proof.
  intros H r a r' E. destruct (H _ _ _ E) as (Hp & (ws & Hw) & (cs & Hc)).
  exists [], ws, cs. rewrite app_nil_r. repeat split; auto. simpl. lia.
Qed.

Lemma extends_weaken {A} (m : M A) k k' :
  extends m k -> k <= k' -> extends m k'.
Proof.
  intros H Hk r a r' E. destruct (H _ _ _ E) as (ps & ws & cs & ? & ? & ? & ?).
  exists ps, ws, cs. repeat split; auto. lia.
Qed.

Lemma extends_ret {A} (a : A) : extends (ret a) 0.
Proof.
  intros r x r' E. injection E as _ <-.
  exists [], [], []. rewrite !app_nil_r. repeat split. simpl. lia.
Qed.

Lemma extends_addPass msg : extends (addPass msg) 1.
Proof.
  intros r x r' E. injection E as _ <-.
  exists [msg], [], []. simpl. rewrite !app_nil_r. repeat split. lia.
Qed.

Lemma extends_bind {A B} (m : M A) (k : A -> M B) a b :
  extends m a -> (forall x, extends (k x) b) -> extends (bind m k) (a + b).
Proof.
  intros Hm Hk r y r' E. unfold bind in E.
  destruct (m r) as [x r1|] eqn:E1; [|discriminate].
  destruct (Hm _ _ _ E1) as (ps & ws & cs & Hp & Hw & Hc & Hl).
  destruct (Hk x _ _ _ E) as (ps' & ws' & cs' & Hp' & Hw' & Hc' & Hl').
  exists (ps ++ ps'), (ws ++ ws'), (cs ++ cs').
  rewrite Hp', Hp, Hw', Hw, Hc', Hc, !app_assoc, length_app.
  repeat split. lia.
Qed.

Lemma extends_when b (m : M unit) k : extends m k -> extends (when b m) k.
Proof.
  intros H. destruct b; [exact H|].
  apply (extends_weaken _ 0); [apply extends_ret | lia].
Qed.

Lemma extends_if {A} (b : bool) (m m' : M A) k k' :
  extends m k -> extends m' k' ->
  extends (if b then m else m') (Nat.max k k').
Proof.
  intros H H'. destruct b;
    [apply (extends_weaken _ k) | apply (extends_weaken _ k')]; auto; lia.
Qed.

Lemma extends_ext {A} (m m' : M A) k :
  (forall r, m r = m' r) -> extends m' k -> extends m k.
Proof. intros E H r x r' Hr. rewrite E in Hr. exact (H _ _ _ Hr). Qed.

Lemma keeps_foldM {A B} (R : results -> results -> Prop)
    (f : A -> B -> M A) (l : list B) :
  (forall r, R r r) ->
  (forall r1 r2 r3, R r1 r2 -> R r2 r3 -> R r1 r3) ->
  (forall acc x, keeps R (f acc x)) -> forall acc, keeps R (foldM f l acc).
Proof.
  intros Hrefl Htrans Hf. induction l as [|x l IH]; intros acc; simpl.
  - apply keeps_ret, Hrefl.
  - apply keeps_bind; auto.
Qed.

Lemma keeps_grows_traverse {A} (obj : json)
    (callback : list string -> json -> layer -> A -> M A) path l acc :
  (forall p t acc, keeps grows (callback p t l acc)) ->
  keeps grows (traverseTokens obj callback path l acc).
Proof.
  intros Hc. destruct (json_null_dec obj) as [->|Hnn].
  - intros r x r' E. discriminate E.
  - intros r x r' E. rewrite traverseTokens_fold in E by exact Hnn.
    revert r x r' E.
    apply keeps_foldM; [exact grows_refl | exact grows_trans |].
    intros acc' [p t]. unfold visitToken. simpl.
    apply keeps_bind; [exact grows_trans | apply Hc | intros x].
    apply keeps_bind;
      [exact grows_trans | | intros; apply keeps_ret, grows_refl].
    intros r y r' E. injection E as _ <-. apply grows_stats.
Qed.

(** One step of a proof that bounds the passing checks of a checker. *)
Ltac extends_step :=
  match goal with
  | |- forall _, _ => intro
  | |- extends (bind _ _) _ => eapply extends_bind
  | |- extends (when _ _) _ => eapply extends_when
  | |- extends (if _ then _ else _) _ => eapply extends_if
  | |- extends (addPass _) _ => apply extends_addPass
  | |- extends (ret _) _ => apply extends_ret
  | |- extends (traverseTokens _ _ _ _ _) _ =>
      apply (extends_of_keeps _ 0), keeps_grows_traverse;
      solve [eauto with keeps nocore]
  | |- extends ?m _ =>
      apply (extends_of_keeps m 0); solve [eauto with keeps nocore]
  end.

Section PassingChecks.

Variables primitiveTokens semanticTokens : json.

Lemma extends_checkDTCGCompliance :
  extends (checkDTCGCompliance primitiveTokens semanticTokens) 2.
Proof.
  unfold checkDTCGCompliance.
  eapply extends_weaken; [repeat extends_step | simpl; lia].
Qed.

Lemma extends_checkReferenceIntegrity :
  extends (checkReferenceIntegrity primitiveTokens semanticTokens) 2.
Proof.
  unfold checkReferenceIntegrity.
  eapply extends_weaken; [repeat extends_step | simpl; lia].
Qed.

Lemma extends_checkNamingConventions :
  extends (checkNamingConventions primitiveTokens semanticTokens) 2.
Proof.
  unfold checkNamingConventions.
  eapply extends_weaken; [repeat extends_step | simpl; lia].
Qed.

Lemma extends_checkValueFormatConsistency :
  extends (checkValueFormatConsistency primitiveTokens semanticTokens) 1.
Proof.
  unfold checkValueFormatConsistency.
  eapply extends_weaken; [repeat extends_step | simpl; lia].
Qed.

Lemma extends_checkScale category :
  extends (checkScale primitiveTokens category) 1.
Proof.
  unfold checkScale.
  eapply extends_weaken; [repeat extends_step | simpl; lia].
Qed.

Lemma extends_checkCompleteness :
  extends (checkCompleteness primitiveTokens semanticTokens) 9.
Proof.
  unfold checkCompleteness, colorCategories. cbn [forEach].
  eapply extends_weaken;
    [repeat first [apply extends_checkScale | extends_step] | simpl; lia].
Qed.

Lemma extends_checkQuality :
  extends (checkQuality primitiveTokens semanticTokens) 3.
Proof.
  unfold checkQuality.
  eapply extends_weaken; [repeat extends_step | simpl; lia].
Qed.

Lemma extends_runChecks :
  extends (runChecks primitiveTokens semanticTokens) 19.
Proof.
  unfold runChecks.
  eapply extends_weaken;
    [ eapply extends_bind; [apply extends_checkDTCGCompliance|]; intros;
      eapply extends_bind; [apply extends_checkReferenceIntegrity|]; intros;
      eapply extends_bind; [apply extends_checkNamingConventions|]; intros;
      eapply extends_bind; [apply extends_checkValueFormatConsistency|]; intros;
      eapply extends_bind; [apply extends_checkCompleteness|]; intros;
      apply extends_checkQuality
    | simpl; lia ].
Qed.

End PassingChecks.

(** A run records at most 19 passing checks. *)
Lemma at_most_19_passing_checks (primitiveTokens semanticTokens : json)
    (rep : report) :
  audit primitiveTokens semanticTokens = inr rep ->
  List.length (pass (findings rep)) <= 19.
Proof.
  unfold audit. intros E.
  destruct (runChecks primitiveTokens semanticTokens results0) as [[] r|] eqn:Er;
    [|discriminate].
  injection E as <-.
  destruct (extends_runChecks primitiveTokens semanticTokens _ _ _ Er)
    as (ps & ws & cs & Hp & _ & _ & Hl).
  simpl in *. rewrite Hp. exact Hl.
Qed.

(** ** The score on doubles *)

Lemma In_Zrange (x from : Z) (n : nat) :
  (from <= x < from + Z.of_nat n)%Z -> In x (Zrange from n).
Proof.
  revert from. induction n as [|n IH]; intros from H; [lia|].
  simpl. destruct (Z.eq_dec from x) as [->|Hne]; [left; reflexivity|].
  right. apply IH. lia.
Qed.

Lemma scoresAgree_spec (maxPass maxRest : nat) :
  scoresAgree maxPass maxRest = true ->
  forall p d : Z,
    (0 <= p <= Z.of_nat maxPass)%Z -> (0 <= d <= Z.of_nat maxRest)%Z ->
    Score64.score p (p + d) = scoreOf p (p + d).
Proof.
  unfold scoresAgree. intros H p d Hp Hd.
  rewrite forallb_forall in H.
  assert (Hin : In p (Zrange 0 (S maxPass))) by (apply In_Zrange; lia).
  specialize (H p Hin). rewrite forallb_forall in H.
  assert (Hin' : In d (Zrange 0 (S maxRest))) by (apply In_Zrange; lia).
  specialize (H d Hin'). apply Z.eqb_eq in H. exact H.
Qed.

Lemma computeScore_scoreOf (r : results) :
  computeScore r
  = scoreOf (Z.of_nat (List.length (pass r)))
      (Z.of_nat (List.length (pass r)
                 + (List.length (critical r) + List.length (warnings r)))).
Proof.
  unfold computeScore, scoreOf, Qofnat.
  destruct (0 <? _) eqn:E.
  - apply Nat.ltb_lt in E.
    destruct (0 <? _)%Z eqn:E'; [reflexivity|]. apply Z.ltb_ge in E'. lia.
  - apply Nat.ltb_ge in E.
    destruct (0 <? _)%Z eqn:E'; [|reflexivity]. apply Z.ltb_lt in E'. lia.
Qed.

(** The double computation gives the rational score for up to 19 passing
    checks with up to [checkedRest] other findings. *)
Lemma score64_agrees : scoresAgree 19 checkedRest = true.
Proof. vm_compute. reflexivity. Qed.

(** The score of a run is the score that the script computes on doubles,
    for every run with at most [checkedRest] warnings and critical
    findings. *)
Lemma score_of_run_on_doubles (primitiveTokens semanticTokens : json)
    (rep : report) :
  audit primitiveTokens semanticTokens = inr rep ->
  List.length (critical (findings rep)) + List.length (warnings (findings rep))
    <= checkedRest ->
  Score64.score
    (Z.of_nat (List.length (pass (findings rep))))
    (Z.of_nat (List.length (pass (findings rep))
               + (List.length (critical (findings rep))
                  + List.length (warnings (findings rep)))))
  = score rep.
Proof.
  intros E Hrest.
  pose proof (at_most_19_passing_checks _ _ _ E) as Hp.
  unfold audit in E.
  destruct (runChecks primitiveTokens semanticTokens results0) as [[] r|];
    [|discriminate].
  injection E as <-. simpl in *.
  rewrite computeScore_scoreOf, Nat2Z.inj_add.
  apply (scoresAgree_spec 19 checkedRest score64_agrees); lia.
Qed.

(** ** Small corpora *)

Lemma bind_returned {A B} (m : M A) (k : A -> M B) r b r' :
  bind m k r = Returned b r' ->
  exists a r1, m r = Returned a r1 /\ k a r1 = Returned b r'.
Proof.
  unfold bind. destruct (m r) as [a r1|]; [|discriminate]. eauto.
Qed.

Lemma warnsMore_bind_l {A B} (m : M A) (k : A -> M B) n :
  warnsMore m -> (forall x, extends (k x) n) -> warnsMore (bind m k).
Proof.
  intros Hm Hk r b r' E.
  destruct (bind_returned _ _ _ _ _ E) as (a & r1 & E1 & E2).
  destruct (Hm _ _ _ E1) as (ws & Hw & Hne).
  destruct (Hk a _ _ _ E2) as (_ & ws' & _ & _ & Hw' & _).
  exists (ws ++ ws'). rewrite Hw', Hw, app_assoc. split; [reflexivity|].
  destruct ws; [congruence | discriminate].
Qed.

Lemma warnsMore_bind_r {A B} (m : M A) (k : A -> M B) n :
  extends m n -> (forall x, warnsMore (k x)) -> warnsMore (bind m k).
Proof.
  intros Hm Hk r b r' E.
  destruct (bind_returned _ _ _ _ _ E) as (a & r1 & E1 & E2).
  destruct (Hm _ _ _ E1) as (_ & ws & _ & _ & Hw & _).
  destruct (Hk a _ _ _ E2) as (ws' & Hw' & Hne).
  exists (ws ++ ws'). rewrite Hw', Hw, app_assoc. split; [reflexivity|].
  destruct ws; [exact Hne | discriminate].
Qed.

(** Fewer than twelve found scales leave an expected scale missing. *)
Lemma some_scale_is_missing (found : list (option string)) :
  List.length found < 12 ->
  filter (fun s => negb (existsb (fun o => segmentIs o s) found))
         expectedScales <> [].
Proof.
  intros Hlt Hnil.
  assert (Hincl : incl (map Some expectedScales) found).
  { intros o Ho. apply in_map_iff in Ho. destruct Ho as (s & <- & Hs).
    destruct (existsb (fun o => segmentIs o s) found) eqn:E.
    - apply existsb_exists in E. destruct E as ([s'|] & Hin & Heq);
        [|discriminate].
      simpl in Heq. apply String.eqb_eq in Heq. subst. exact Hin.
    - assert (Hf : In s (filter (fun s => negb (existsb (fun o => segmentIs o s) found))
                                expectedScales)).
      { apply filter_In. split; [exact Hs|]. rewrite E. reflexivity. }
      rewrite Hnil in Hf. destruct Hf. }
  assert (Hnd : NoDup (map Some expectedScales)).
  { unfold expectedScales. simpl.
    repeat (constructor; [simpl; intuition discriminate|]). constructor. }
  pose proof (NoDup_incl_length Hnd Hincl) as Hlen.
  rewrite length_map in Hlen. unfold expectedScales in Hlen. simpl in Hlen.
  lia.
Qed.

Lemma scales_found_bound category (ts : list (list string * json)) :
  forall acc r a r',
    foldM (visitToken (scaleCallback category) primitive) ts acc r
    = Returned a r' ->
    List.length a <= List.length acc + List.length ts.
Proof.
  induction ts as [|[p t] ts IH]; intros acc r a r' E; simpl in E.
  - injection E as <- _. lia.
  - apply bind_returned in E. destruct E as (acc1 & r1 & E1 & E2).
    apply IH in E2. simpl.
    unfold visitToken, scaleCallback, bind in E1. cbn [fst snd] in E1.
    destruct (_ && _) in E1; injection E1 as <- _;
      rewrite ?length_app in E2; simpl in E2; lia.
Qed.

Lemma warnsMore_checkScale (primitiveTokens : json) category :
  List.length (tokensIn primitiveTokens []) < 12 ->
  warnsMore (checkScale primitiveTokens category).
Proof.
  intros Hlt r a r' E. unfold checkScale in E.
  apply bind_returned in E. destruct E as (found & r1 & E1 & E2).
  assert (Hg : grows r r1).
  { apply (keeps_grows_traverse primitiveTokens (scaleCallback category)
             [] primitive []) with (a := found); [|exact E1].
    intros. apply keeps_scaleCallback. exact grows_refl. }
  destruct (json_null_dec primitiveTokens) as [->|Hnn]; [discriminate E1|].
  rewrite traverseTokens_fold in E1 by exact Hnn.
  apply scales_found_bound in E1. simpl in E1.
  pose proof (some_scale_is_missing found ltac:(lia)) as Hmiss.
  destruct (filter _ expectedScales) as [|s missing] eqn:Ef; [congruence|].
  simpl in E2. injection E2 as _ <-. simpl.
  destruct Hg as (_ & (ws & Hw) & _).
  exists (ws ++ [MissingScales category (s :: missing)]).
  rewrite Hw, app_assoc. split; [reflexivity|].
  destruct ws; discriminate.
Qed.

Lemma warnsMore_checkCompleteness (primitiveTokens semanticTokens : json) :
  List.length (tokensIn primitiveTokens []) < 12 ->
  warnsMore (checkCompleteness primitiveTokens semanticTokens).
Proof.
  intros Hlt. unfold checkCompleteness, colorCategories. cbn [forEach].
  eapply warnsMore_bind_r; [repeat extends_step | intros semanticIndex].
  eapply warnsMore_bind_r; [repeat extends_step | intros _].
  eapply warnsMore_bind_l.
  - eapply warnsMore_bind_l; [apply warnsMore_checkScale, Hlt | intros _].
    repeat first [apply extends_checkScale | extends_step].
  - intros _. repeat extends_step.
Qed.

Lemma warnsMore_runChecks (primitiveTokens semanticTokens : json) :
  List.length (tokensIn primitiveTokens []) < 12 ->
  warnsMore (runChecks primitiveTokens semanticTokens).
Proof.
  intros Hlt. unfold runChecks.
  eapply warnsMore_bind_r; [apply extends_checkDTCGCompliance | intros _].
  eapply warnsMore_bind_r; [apply extends_checkReferenceIntegrity | intros _].
  eapply warnsMore_bind_r; [apply extends_checkNamingConventions | intros _].
  eapply warnsMore_bind_r;
    [apply extends_checkValueFormatConsistency | intros _].
  eapply warnsMore_bind_l;
    [apply warnsMore_checkCompleteness, Hlt | intros _].
  apply extends_checkQuality.
Qed.

(** C3, as the code has it.  The two-token corpus has no critical finding,
    but the completeness and quality checks record fifteen warnings against
    nine passing checks, so the score is 38.  No choice of the two tokens
    reaches 100: a run over a primitive tree of fewer than twelve tokens
    records a warning for the incomplete scale of "primary", and with at
    most 19 passing checks the score is at most 95. *)
Theorem scenario_valid_corpus :
  (exists rep,
     audit primitiveA semanticA = inr rep
     /\ critical (findings rep) = []
     /\ List.length (pass (findings rep)) = 9
     /\ List.length (warnings (findings rep)) = 15
     /\ score rep = 38%Z
     /\ readiness rep = ProductionReadyWithWarnings)
  /\ (forall primitiveTokens semanticTokens rep,
        audit primitiveTokens semanticTokens = inr rep ->
        List.length (tokensIn primitiveTokens []) < 12 ->
        warnings (findings rep) <> [] /\ (score rep <= 95)%Z).
Proof.
  split.
  - eexists. split; [vm_compute; reflexivity|]. repeat split.
  - intros primitiveTokens semanticTokens rep E Hlt.
    pose proof (at_most_19_passing_checks _ _ _ E) as Hp.
    unfold audit in E.
    destruct (runChecks primitiveTokens semanticTokens results0)
      as [[] r|] eqn:Er; [|discriminate].
    injection E as <-.
    destruct (warnsMore_runChecks _ _ Hlt _ _ _ Er) as (ws & Hw & Hne).
    simpl in Hw, Hp. cbn [findings printResults].
    assert (Hlen : 1 <= List.length (warnings r)).
    { rewrite Hw. destruct ws; [congruence | simpl; lia]. }
    split; [destruct (warnings r); [simpl in Hlen; lia | discriminate]|].
    rewrite (score_formula r) by lia.
    apply Z.lt_succ_r, Z.div_lt_upper_bound; lia.
Qed.

Lemma scenario_valid_corpus_witness :
  List.length (tokensIn primitiveA []) < 12
  /\ exists rep,
       audit primitiveA semanticA = inr rep
       /\ warnings (findings rep) <> [] /\ (score rep <= 95)%Z.
Proof.
  split; [simpl; lia|].
  eexists. split; [vm_compute; reflexivity|].
  match goal with
  | |- warnings (findings ?rep) <> [] /\ _ =>
      apply (proj2 scenario_valid_corpus primitiveA semanticA rep)
  end.
  - vm_compute. reflexivity.
  - simpl. lia.
Defined.

(** C3 fails: the score of the two-token corpus is not 100. *)
Lemma scenario_valid_corpus_not_100 :
  ~ (exists rep,
       audit primitiveA semanticA = inr rep
       /\ critical (findings rep) = []
       /\ score rep = 100%Z).
Proof.
  intros (rep & Ha & _ & Hs). vm_compute in Ha.
  injection Ha as <-. discriminate Hs.
Qed.

(** ** Runs without an exception *)

Lemma safe_ret {A} (a : A) : safe (ret a).
Proof. intros r. eexists _, _. reflexivity. Qed.

Lemma safe_bind {A B} (m : M A) (k : A -> M B) :
  safe m -> (forall x, safe (k x)) -> safe (bind m k).
Proof.
  intros Hm Hk r. destruct (Hm r) as (a & r1 & E).
  unfold bind. rewrite E. apply Hk.
Qed.

Lemma safe_addPass msg : safe (addPass msg).
Proof. intros r. eexists _, _. reflexivity. Qed.

Lemma safe_addWarning msg : safe (addWarning msg).
Proof. intros r. eexists _, _. reflexivity. Qed.

Lemma safe_addCritical msg : safe (addCritical msg).
Proof. intros r. eexists _, _. reflexivity. Qed.

Lemma safe_getStats : safe getStats.
Proof. intros r. eexists _, _. reflexivity. Qed.

Lemma safe_modifyStats f : safe (modifyStats f).
Proof. intros r. eexists _, _. reflexivity. Qed.

Lemma safe_when b (m : M unit) : safe m -> safe (when b m).
Proof. intros H. destruct b; [exact H | apply safe_ret]. Qed.


Lemma safe_hasProp prop value :
  isObjectNode value = true -> safe (hasProp prop value).
Proof.
  destruct value; try discriminate; intros _; unfold hasProp; simpl;
    apply safe_ret.
Qed.

Lemma notAnObject_false (value : json) :
  notAnObject value = false -> isObjectNode value = true.
Proof.
  destruct value; try reflexivity; unfold notAnObject; simpl;
    rewrite ?orb_true_r; try discriminate.
Qed.

Lemma safe_toNumberM v : convertibleOpt v = true -> safe (toNumberM v).
Proof. intros H. unfold toNumberM. rewrite H. apply safe_ret. Qed.

Lemma safe_render v : convertibleOpt v = true -> safe (render v).
Proof. intros H. unfold render. rewrite H. apply safe_ret. Qed.

Lemma safe_lessThan v c : convertibleOpt v = true -> safe (lessThan v c).
Proof.
  intros H. unfold lessThan. apply safe_bind; [apply safe_toNumberM, H|].
  intros. apply safe_ret.
Qed.

Lemma safe_greaterThan v c : convertibleOpt v = true -> safe (greaterThan v c).
Proof.
  intros H. unfold greaterThan. apply safe_bind; [apply safe_toNumberM, H|].
  intros. apply safe_ret.
Qed.

Lemma safe_orM a b : safe a -> safe b -> safe (orM a b).
Proof.
  intros Ha Hb. unfold orM. apply safe_bind; [exact Ha|].
  intros []; [apply safe_ret | exact Hb].
Qed.

Lemma safe_testHex v : convertibleOpt v = true -> safe (testHex v).
Proof.
  intros H. unfold testHex. destruct v; [|apply safe_ret].
  apply safe_bind; [apply safe_render, H|]. intros. apply safe_ret.
Qed.


(** *** Plain values *)

Lemma plain_obj (props : list (string * json)) :
  plain (JObj props) = true ->
  hasOwn "toString" props = false
  /\ forall k x, In (k, x) props -> plain x = true.
Proof.
  simpl. intros H. apply andb_true_iff in H. destruct H as [H1 H2].
  split; [apply negb_true_iff, H1|].
  clear H1. induction props as [|[k' x'] props IH]; intros k x Hin.
  - destruct Hin.
  - apply andb_true_iff in H2. destruct H2 as [Hx Hr].
    destruct Hin as [E|Hin]; [injection E as -> ->; exact Hx | eauto].
Qed.

Lemma plain_arr (elems : list json) x :
  plain (JArr elems) = true -> In x elems -> plain x = true.
Proof.
  simpl. intros H Hin. rewrite forallb_forall in H. auto.
Qed.

Lemma plain_convertible (v : json) : plain v = true -> convertible v = true.
Proof.
  induction v using json_ind; intros Hp; try reflexivity.
  - simpl. apply forallb_forall. intros x Hx.
    rewrite Forall_forall in H. apply H; [exact Hx|].
    exact (plain_arr _ _ Hp Hx).
  - simpl. apply negb_true_iff. apply (plain_obj _ Hp).
Qed.

Lemma lookup_In k props x : lookup k props = Some x -> In (k, x) props.
Proof.
  induction props as [|[k' x'] props IH]; simpl; [discriminate|].
  destruct (String.eqb k k') eqn:E.
  - intros H. injection H as ->. apply String.eqb_eq in E. subst. auto.
  - auto.
Qed.

Lemma getIndex_In k l i x : getIndex k l i = Some x -> In x l.
Proof.
  revert i. induction l as [|y l IH]; simpl; intros i; [discriminate|].
  destruct (String.eqb k (indexKey i)).
  - intros H. injection H as ->. auto.
  - intros H. right. exact (IH _ H).
Qed.

Lemma getChar_plain k s i x : getChar k s i = Some x -> plain x = true.
Proof.
  revert i. induction s as [|c s IH]; simpl; intros i; [discriminate|].
  destruct (String.eqb k (indexKey i)).
  - intros H. injection H as <-. reflexivity.
  - apply IH.
Qed.

Lemma plain_getProp v k x :
  plain v = true -> getProp v k = Some x -> plain x = true.
Proof.
  intros Hp. destruct v; simpl; try discriminate.
  - destruct (String.eqb k "length").
    + intros H. injection H as <-. reflexivity.
    + apply getChar_plain.
  - destruct (String.eqb k "length").
    + intros H. injection H as <-. reflexivity.
    + intros H. exact (plain_arr _ _ Hp (getIndex_In _ _ _ _ H)).
  - intros H. exact (proj2 (plain_obj _ Hp) _ _ (lookup_In _ _ _ H)).
Qed.

Lemma convertibleOpt_getProp v k :
  plain v = true -> convertibleOpt (getProp v k) = true.
Proof.
  intros Hp. destruct (getProp v k) as [x|] eqn:E; [|reflexivity].
  simpl. exact (plain_convertible _ (plain_getProp _ _ _ Hp E)).
Qed.

Lemma plain_valueOf tok : plain tok = true -> plain (valueOf tok) = true.
Proof.
  intros Hp. unfold valueOf.
  destruct (getProp tok "$value") as [x|] eqn:E; [|reflexivity].
  exact (plain_getProp _ _ _ Hp E).
Qed.




Lemma plain_components h s l :
  plain (JArr [h; s; l]) = true ->
  plain h = true /\ plain s = true /\ plain l = true.
Proof.
  intros H. repeat split; apply (plain_arr _ _ H); simpl; auto.
Qed.

(** Collects what the context says about plain values. *)
Ltac plain_facts :=
  subst;
  repeat match goal with
    | Hp : plain ?v = true, H : getProp ?v ?k = Some ?x |- _ =>
        lazymatch goal with
        | _ : plain x = true |- _ => fail
        | _ => pose proof (plain_getProp v k x Hp H)
        end
    | Hp : plain (JArr [?h; ?s; ?l]) = true |- _ =>
        lazymatch goal with
        | _ : plain h = true |- _ => fail
        | _ => destruct (plain_components h s l Hp) as (? & ? & ?)
        end
    end.

Ltac solve_plain :=
  plain_facts;
  first
    [ assumption
    | apply plain_valueOf; assumption
    | apply convertibleOpt_getProp; assumption
    | simpl; apply plain_convertible; assumption ].

(** One step of a proof that a computation returns. *)
Ltac safe_step :=
  match goal with
  | |- forall _, _ => intro
  | |- safe (bind _ _) => apply safe_bind
  | |- safe (ret _) => apply safe_ret
  | |- safe (when _ _) => apply safe_when
  | |- safe (addPass _) => apply safe_addPass
  | |- safe (addWarning _) => apply safe_addWarning
  | |- safe (addCritical _) => apply safe_addCritical
  | |- safe getStats => apply safe_getStats
  | |- safe (modifyStats _) => apply safe_modifyStats
  | |- safe (hasProp _ _) => apply safe_hasProp; assumption
  | |- safe (orM _ _) => apply safe_orM
  | |- safe (lessThan _ _) => apply safe_lessThan; solve_plain
  | |- safe (greaterThan _ _) => apply safe_greaterThan; solve_plain
  | |- safe (toNumberM _) => apply safe_toNumberM; solve_plain
  | |- safe (render _) => apply safe_render; solve_plain
  | |- safe (testHex _) => apply safe_testHex; solve_plain
  | |- safe _ => solve [auto with safe nocore]
  | |- safe (if ?b then _ else _) => destruct b eqn:?
  | |- safe (match ?x with _ => _ end) => destruct x eqn:?
  | |- safe (let _ := _ in _) => cbv zeta
  end.

Ltac safe_tac := repeat safe_step.

Create HintDb safe.

Lemma safe_missingProps required value :
  isObjectNode value = true -> safe (missingProps required value).
Proof. intros Hv. induction required; simpl; safe_tac. Qed.

#[local] Hint Resolve safe_missingProps : safe.


Lemma safe_validateDimensionValue value tokenPath :
  safe (validateDimensionValue value tokenPath).
Proof.
  unfold validateDimensionValue.
  destruct (notAnObject value) eqn:E.
  - destruct value; safe_tac.
  - apply notAnObject_false in E. destruct value; try discriminate; safe_tac.
Qed.

Lemma safe_validateTypographyValue value tokenPath :
  safe (validateTypographyValue value tokenPath).
Proof.
  unfold validateTypographyValue.
  destruct (notAnObject value) eqn:E; [safe_tac|].
  apply notAnObject_false in E. safe_tac.
Qed.



Lemma safe_checkReferences primitiveIndex semanticIndex (value : json) :
  forall tokenPath all,
    safe (checkReferences primitiveIndex semanticIndex value tokenPath all).
Proof.
  induction value using json_ind; intros tokenPath all;
    try (simpl; safe_tac; fail).
  - simpl. revert all.
    induction H as [|v elems Hv _ IH]; intros all; safe_tac.
  - simpl. revert all.
    induction H as [|[k v] props Hv _ IH]; intros all; simpl in *; safe_tac.
Qed.

Lemma safe_checkEssentials semanticIndex essentials n :
  safe (checkEssentials semanticIndex essentials n).
Proof. revert n. induction essentials; intros n; simpl; safe_tac. Qed.

#[local] Hint Resolve safe_validateDimensionValue
  safe_validateTypographyValue safe_checkReferences safe_checkEssentials
  : safe.

(** *** The type sets of the quality checker *)









(** *** The callbacks *)

Ltac unfold_callbacks :=
  unfold typeCallback, primitiveDescriptionCallback,
    semanticDescriptionCallback, valueFormatCallback, depthCallback,
    indexCallback, referenceCallback, layerPrefixCallback, stateCallback,
    colorFormatCallback, dimensionFormatCallback, typographyFormatCallback,
    shadowFormatCallback, numberFormatCallback, scaleCallback,
    hasStatesCallback, genericDescriptionCallback, typeCollectCallback,
    accessibilityCallback.







Section SafeRun.

Variables primitiveTokens semanticTokens : json.

Hypothesis primitive_not_null : primitiveTokens <> JNull.
Hypothesis semantic_not_null : semanticTokens <> JNull.
Hypothesis primitive_plain :
  forall p t, In (p, t) (tokensIn primitiveTokens []) -> plain t = true.
Hypothesis semantic_plain :
  forall p t, In (p, t) (tokensIn semanticTokens []) -> plain t = true.
Hypothesis descriptions_are_text :
  forall p t, In (p, t) (tokensIn primitiveTokens []) ->
              descriptionIsText t = true.
Hypothesis categories_are_own :
  forall p t, In (p, t) (tokensIn primitiveTokens []) ->
              categoryIsOwn p = true.
Hypothesis shadows_are_checked :
  forall p t, In (p, t) (tokensIn semanticTokens []) ->
              shadowIsChecked t = true.









End SafeRun.






(** ** Reference cycles *)

Lemma records_bind_r {A B} (m : M A) (k : A -> M B) x :
  (forall a, records (k a) x) -> records (bind m k) x.
Proof.
  intros Hk r b r' E.
  destruct (bind_returned _ _ _ _ _ E) as (a & r1 & _ & E2).
  exact (Hk a _ _ _ E2).
Qed.

Lemma typeCallback_returns (l : layer) :
  forall p t acc r, exists a r', typeCallback p t l acc r = Returned a r'.
Proof.
  intros p t acc r. unfold typeCallback, when.
  destruct (negb (truthy (getProp t "$type"))); [|unfold ret; eauto].
  unfold bind, addCritical, modifyStats. eauto.
Qed.

(** A tree whose groups are nested deeper than the stack holds ends the
    run, in its first traversal, with a RangeError. *)
Lemma deep_groups_exhaust_stack (primitiveTokens semanticTokens : json)
    (stack : nat) :
  stack < groupDepth primitiveTokens ->
  auditWithin stack primitiveTokens semanticTokens = inl stackOverflow.
Proof.
  intros Hd. unfold auditWithin, runChecksWithin, checkDTCGComplianceWithin.
  unfold bind.
  rewrite (traverseTokensWithin_overflow typeCallback primitive
             (typeCallback_returns primitive) primitiveTokens stack [] tt
             results0 Hd).
  reflexivity.
Qed.

Lemma groupDepth_nestedGroups (n : nat) : groupDepth (nestedGroups n) = n.
Proof.
  induction n as [|n IH]; [reflexivity|].
  change (groupDepth (nestedGroups (S n)))
    with (Nat.max (if isGroup (nestedGroups n)
                   then S (groupDepth (nestedGroups n)) else 0) 0).
  rewrite IH. destruct n; simpl; lia.
Qed.

Lemma tokensIn_nestedGroups (n : nat) :
  forall path,
    tokensIn (nestedGroups n) path
    = [(path ++ repeat "g" n ++ ["t"], JObj [("$value", JNum 1)])].
Proof.
  induction n as [|n IH]; intros path; [reflexivity|].
  change (tokensIn (nestedGroups (S n)) path)
    with ((if isToken (nestedGroups n) then [(path ++ ["g"], nestedGroups n)]
           else if isGroup (nestedGroups n)
                then tokensIn (nestedGroups n) (path ++ ["g"]) else [])
          ++ []).
  rewrite app_nil_r.
  replace (isToken (nestedGroups n)) with false by (destruct n; reflexivity).
  replace (isGroup (nestedGroups n)) with true by (destruct n; reflexivity).
  rewrite IH, <- app_assoc. reflexivity.
Qed.

Lemma plain_nestedGroups (n : nat) : plain (nestedGroups n) = true.
Proof.
  induction n as [|n IH]; [reflexivity|].
  change (plain (nestedGroups (S n)))
    with (negb (hasOwn "toString" [("g", nestedGroups n)])
          && (plain (nestedGroups n) && true)).
  rewrite IH. reflexivity.
Qed.

(** The shape of the trees does not bound their nesting: [n] groups, one in
    the other, around a token are a tree of the shape that [wellShaped]
    asks for, and the run on it ends in a RangeError when the stack holds
    fewer than [n] nested calls. *)
Lemma well_shaped_tree_too_deep (n stack : nat) :
  wellShaped (nestedGroups n) semanticA = true
  /\ (stack < n ->
      auditWithin stack (nestedGroups n) semanticA = inl stackOverflow).
Proof.
  split.
  - unfold wellShaped. rewrite plain_nestedGroups, tokensIn_nestedGroups.
    replace (isNull (nestedGroups n)) with false by (destruct n; reflexivity).
    cbn [forallb fst snd app].
    replace (categoryIsOwn (repeat "g" n ++ ["t"])) with true
      by (destruct n; reflexivity).
    vm_compute. reflexivity.
  - intros Hd. apply deep_groups_exhaust_stack.
    rewrite groupDepth_nestedGroups. exact Hd.
Qed.

Lemma records_bind_l {A B} (m : M A) (k : A -> M B) x n :
  records m x -> (forall a, extends (k a) n) -> records (bind m k) x.
Proof.
  intros Hm Hk r b r' E.
  destruct (bind_returned _ _ _ _ _ E) as (a & r1 & E1 & E2).
  destruct (Hk a _ _ _ E2) as (ps & _ & _ & Hp & _).
  rewrite Hp. apply in_or_app. left. exact (Hm _ _ _ E1).
Qed.

Lemma records_addPass x : records (addPass x) x.
Proof.
  intros r a r' E. injection E as _ <-. simpl.
  apply in_or_app. right. left. reflexivity.
Qed.

Lemma records_checkReferenceIntegrity (primitiveTokens semanticTokens : json) :
  records (checkReferenceIntegrity primitiveTokens semanticTokens)
          NoCircularReferences.
Proof.
  unfold checkReferenceIntegrity.
  repeat (apply records_bind_r; intros ?).
  apply records_addPass.
Qed.

Lemma records_runChecks (primitiveTokens semanticTokens : json) :
  records (runChecks primitiveTokens semanticTokens) NoCircularReferences.
Proof.
  unfold runChecks. apply records_bind_r. intros _.
  eapply records_bind_l; [apply records_checkReferenceIntegrity | intros _].
  eapply extends_bind; [apply extends_checkNamingConventions | intros _].
  eapply extends_bind; [apply extends_checkValueFormatConsistency | intros _].
  eapply extends_bind; [apply extends_checkCompleteness | intros _].
  apply extends_checkQuality.
Qed.

(** C1, what the code does.  The walker [checkReferences] only looks a
    reference up in the two indexes and never follows it, so it returns on
    every value, whatever the references point to.  No cycle is searched
    for: every run that completes records the passing check "No obvious
    circular references detected (basic check)", and on two semantic tokens
    that refer to each other the run ends with that passing check and
    without a critical finding. *)
Theorem cycle_is_not_reported :
  (forall primitiveIndex semanticIndex value tokenPath all r,
      exists all' r',
        checkReferences primitiveIndex semanticIndex value tokenPath all r
        = Returned all' r')
  /\ (forall primitiveTokens semanticTokens rep,
        audit primitiveTokens semanticTokens = inr rep ->
        In NoCircularReferences (pass (findings rep)))
  /\ exists rep,
       audit primitiveA semanticCycle = inr rep
       /\ critical (findings rep) = []
       /\ In NoCircularReferences (pass (findings rep))
       /\ readiness rep = ProductionReadyWithWarnings.
Proof.
  split; [|split].
  - intros. apply safe_checkReferences.
  - intros primitiveTokens semanticTokens rep E. unfold audit in E.
    destruct (runChecks primitiveTokens semanticTokens results0)
      as [[] r|] eqn:Er; [|discriminate].
    injection E as <-. exact (records_runChecks _ _ _ _ _ Er).
  - eexists. split; [vm_compute; reflexivity|].
    repeat split; simpl; auto.
Qed.

Lemma cycle_is_not_reported_witness :
  exists rep,
    audit primitiveA semanticCycle = inr rep
    /\ In NoCircularReferences (pass (findings rep)).
Proof.
  eexists. split; [vm_compute; reflexivity|].
  match goal with
  | |- In _ (pass (findings ?rep)) =>
      apply (proj1 (proj2 cycle_is_not_reported) primitiveA semanticCycle rep)
  end.
  vm_compute. reflexivity.
Defined.

(** * Further properties *)

(** ** The report *)

(** X1.  The score is a percentage: whatever the three buckets hold, it lies
    between 0 and 100. *)
Theorem score_is_a_percentage (r : results) :
  (0 <= score (printResults r) <= 100)%Z.
Proof.
  destruct (Nat.eq_dec
              (List.length (pass r)
               + (List.length (critical r) + List.length (warnings r))) 0)
    as [Hz|Hnz].
  - unfold printResults, computeScore. cbn [score].
    rewrite Hz. simpl. lia.
  - rewrite (score_formula r) by lia.
    split.
    + apply Z.div_pos; lia.
    + apply Z.lt_succ_r, Z.div_lt_upper_bound; lia.
Qed.

(** X2.  A run records between 1 and 19 passing checks, and so its score is 100
    exactly when its verdict is "production ready": one warning or one
    critical finding keeps the score below 100. *)
Theorem full_score_iff_ready (primitiveTokens semanticTokens : json)
    (rep : report) :
  audit primitiveTokens semanticTokens = inr rep ->
  1 <= List.length (pass (findings rep)) <= 19
  /\ (score rep = 100%Z <-> readiness rep = ProductionReady).
Proof.
  intros E.
  pose proof (at_most_19_passing_checks _ _ _ E) as Hp.
  unfold audit in E.
  destruct (runChecks primitiveTokens semanticTokens results0)
    as [[] r|] eqn:Er; [|discriminate].
  injection E as <-.
  pose proof (records_runChecks _ _ _ _ _ Er) as Hin.
  cbn [findings printResults] in Hp. cbn [findings score readiness printResults].
  assert (H1 : 1 <= List.length (pass r)).
  { destruct (pass r); [destruct Hin | simpl; lia]. }
  split; [lia|].
  change (computeScore r) with (score (printResults r)).
  rewrite (score_formula r) by lia.
  assert (Hv : computeVerdict r = ProductionReady
               <-> List.length (critical r) + List.length (warnings r) = 0).
  { unfold computeVerdict.
    destruct (critical r), (warnings r); simpl; split; intros H;
      try reflexivity; try discriminate H. }
  rewrite Hv. split; intros H.
  - destruct (Nat.eq_dec (List.length (critical r) + List.length (warnings r)) 0)
      as [Hz|Hnz]; [exact Hz | exfalso].
    assert (Hlt : ((200 * Z.of_nat (List.length (pass r))
                    + (Z.of_nat (List.length (pass r))
                       + Z.of_nat (List.length (warnings r))
                       + Z.of_nat (List.length (critical r))))
                   / (2 * (Z.of_nat (List.length (pass r))
                           + Z.of_nat (List.length (warnings r))
                           + Z.of_nat (List.length (critical r)))) < 100)%Z)
      by (apply Z.div_lt_upper_bound; lia).
    lia.
  - symmetry.
    apply (Z.div_unique _ _ 100 (Z.of_nat (List.length (pass r)))); lia.
Qed.

Lemma full_score_iff_ready_witness :
  exists rep,
    audit primitiveA semanticA = inr rep
    /\ 1 <= List.length (pass (findings rep)) <= 19
    /\ (score rep = 100%Z <-> readiness rep = ProductionReady).
Proof.
  eexists. split; [vm_compute; reflexivity|].
  match goal with
  | |- _ <= List.length (pass (findings ?rep)) <= _ /\ _ =>
      apply (full_score_iff_ready primitiveA semanticA rep)
  end.
  vm_compute. reflexivity.
Defined.

(** X3.  The process fails exactly on a critical finding: the exit code is 1
    when the verdict is "not production ready" and 0 otherwise, whatever the
    number of warnings and whatever the score. *)
Theorem exit_code_follows_verdict (r : results) :
  exitCode (printResults r)
  = match readiness (printResults r) with
    | NotProductionReady => 1
    | _ => 0
    end.
Proof.
  unfold printResults, computeVerdict. cbn [exitCode readiness].
  destruct (critical r), (warnings r); reflexivity.
Qed.

(** ** The verdict of a validator *)

Lemma keeps_traverseTokens {A} (R : results -> results -> Prop)
    (obj : json) (callback : list string -> json -> layer -> A -> M A)
    path l acc :
  (forall r, R r r) ->
  (forall r1 r2 r3, R r1 r2 -> R r2 r3 -> R r1 r3) ->
  (forall l r,
      R r (mkResults (pass r) (warnings r) (critical r)
                     (countToken l (stats r)))) ->
  (forall p t acc, keeps R (callback p t l acc)) ->
  keeps R (traverseTokens obj callback path l acc).
Proof.
  intros Hrefl Htrans Hcount Hc.
  destruct (json_null_dec obj) as [->|Hnn].
  - intros r x r' E. discriminate E.
  - intros r x r' E. rewrite traverseTokens_fold in E by exact Hnn.
    revert r x r' E.
    apply keeps_foldM; [exact Hrefl | exact Htrans |].
    intros acc' [p t]. unfold visitToken. simpl.
    apply keeps_bind; [exact Htrans | apply Hc | intros x].
    apply keeps_bind; [exact Htrans | | intros; apply keeps_ret, Hrefl].
    intros r y r' E. injection E as _ <-. apply Hcount.
Qed.

(** One step of a proof that a computation keeps a relation with the
    reflexivity proof [refl], the transitivity proof [trans] and the proof
    [cnt] that counting a token respects it; [tac] handles the steps that
    change the results. *)
Ltac kstep refl trans cnt tac :=
  first
    [ tac
    | match goal with
      | |- forall _, _ => intro
      | |- keeps _ (bind _ _) => apply keeps_bind; [exact trans | | ]
      | |- keeps _ (ret _) => apply keeps_ret; exact refl
      | |- keeps _ (throw _) => apply keeps_throw
      | |- keeps _ (when _ _) => apply keeps_when; [exact refl | ]
      | |- keeps _ getStats => apply keeps_getStats; exact refl
      | |- keeps _ (hasProp _ _) => apply keeps_hasProp; exact refl
      | |- keeps _ (toNumberM _) => apply keeps_toNumberM; exact refl
      | |- keeps _ (render _) => apply keeps_render; exact refl
      | |- keeps _ (lessThan _ _) =>
          apply keeps_lessThan; [exact refl | exact trans]
      | |- keeps _ (greaterThan _ _) =>
          apply keeps_greaterThan; [exact refl | exact trans]
      | |- keeps _ (testHex _) =>
          apply keeps_testHex; [exact refl | exact trans]
      | |- keeps _ (missingProps _ _) =>
          apply keeps_missingProps; [exact refl | exact trans]
      | |- keeps _ (orM _ _) =>
          apply keeps_orM; [exact refl | exact trans | | ]
      | |- keeps _ (forEach _ _) =>
          apply keeps_forEach; [exact refl | exact trans | ]
      | |- keeps _ (traverseTokens _ _ _ _ _) =>
          apply keeps_traverseTokens;
          [exact refl | exact trans | exact cnt | intros; unfold_callbacks]
      | |- keeps _ (validateColorValue _ _) => unfold validateColorValue
      | |- keeps _ (validateDimensionValue _ _) =>
          unfold validateDimensionValue
      | |- keeps _ (validateTypographyValue _ _) =>
          unfold validateTypographyValue
      | |- keeps _ (validateShadowValue _ _) => unfold validateShadowValue
      | |- keeps _ (checkScale _ _) => unfold checkScale
      | |- keeps _ (if ?b then _ else _) => destruct b
      | |- keeps _ (match ?x with _ => _ end) => destruct x
      | |- keeps _ (let _ := _ in _) => cbv zeta
      end ].

Lemma warned_refl r : warned r r.
Proof. repeat split. exists []. rewrite app_nil_r. reflexivity. Qed.

Lemma warned_trans r1 r2 r3 : warned r1 r2 -> warned r2 r3 -> warned r1 r3.
Proof.
  intros (Hp & Hc & Hs & ws & Hw) (Hp' & Hc' & Hs' & ws' & Hw').
  repeat split; try congruence.
  exists (ws ++ ws'). rewrite Hw', Hw, app_assoc. reflexivity.
Qed.

Lemma warned_addWarning msg : keeps warned (addWarning msg).
Proof.
  intros r x r' E. injection E as _ <-. repeat split. simpl. eauto.
Qed.

Ltac warned_tac :=
  repeat kstep warned_refl warned_trans I ltac:(apply warned_addWarning).

Lemma judges_bind {A} (m : M A) (k : A -> M bool) :
  keeps warned m -> (forall a, judges (k a)) -> judges (bind m k).
Proof.
  intros Hm Hk r b r' E.
  destruct (bind_returned _ _ _ _ _ E) as (a & r1 & E1 & E2).
  destruct (Hm _ _ _ E1) as (Hp & Hc & Hs & ws & Hw).
  destruct (Hk a _ _ _ E2) as (Hp' & Hs' & (ws' & Hw') & Hb).
  rewrite Hp', Hs', Hw', Hp, Hs, Hw. repeat split.
  - exists (ws ++ ws'). rewrite app_assoc. reflexivity.
  - rewrite <- Hc. exact Hb.
Qed.

Lemma judges_false c : judges (addCritical c ;; ret false).
Proof.
  intros r b r' E. injection E as <- <-. repeat split.
  - exists []. simpl. rewrite app_nil_r. reflexivity.
  - exists c. reflexivity.
Qed.

Lemma judges_true : judges (ret true).
Proof.
  intros r b r' E. injection E as <- <-. repeat split.
  exists []. rewrite app_nil_r. reflexivity.
Qed.

Ltac judges_step :=
  match goal with
  | |- forall _, _ => intro
  | |- judges (bind (addCritical _) _) => apply judges_false
  | |- judges (ret true) => apply judges_true
  | |- judges (bind _ _) => apply judges_bind; [warned_tac | ]
  | |- judges (if ?b then _ else _) => destruct b
  | |- judges (match ?x with _ => _ end) => destruct x
  | |- judges (let _ := _ in _) => cbv zeta
  end.

Lemma judges_validateShadows shadows tokenPath :
  judges (validateShadows shadows tokenPath).
Proof.
  induction shadows as [|shadow rest IH]; simpl; repeat judges_step.
  exact IH.
Qed.

(** X4.  The answer of a validator tells what it recorded.  Each of the four
    value validators, when it answers [false], has recorded exactly one
    critical finding, and when it answers [true] none; whatever it answers,
    it has only added warnings besides, and has touched neither the passing
    checks nor the counters. *)
Theorem validators_answer_false_with_one_critical (value : json)
    (tokenPath : string) :
  judges (validateColorValue value tokenPath)
  /\ judges (validateDimensionValue value tokenPath)
  /\ judges (validateTypographyValue value tokenPath)
  /\ judges (validateShadowValue value tokenPath).
Proof.
  split; [|split; [|split]].
  - unfold validateColorValue. repeat judges_step.
  - unfold validateDimensionValue. repeat judges_step.
  - unfold validateTypographyValue. repeat judges_step.
  - unfold validateShadowValue. repeat judges_step;
      apply judges_validateShadows.
Qed.

(** ** What the validators accept *)

Lemma missingProps_missingOf (required : list string) (value : json) r :
  isObjectNode value = true ->
  missingProps required value r = Returned (missingOf required value) r.
Proof.
  intros Ho. induction required as [|prop rest IH]; [reflexivity|].
  simpl. unfold bind, hasProp.
  destruct (inOperator prop value) as [b|] eqn:E.
  - unfold ret at 1. rewrite IH. destruct b; reflexivity.
  - destruct value; discriminate.
Qed.

Lemma lookup_hasOwn k props v : lookup k props = Some v -> hasOwn k props = true.
Proof.
  induction props as [|[k' v'] props IH]; simpl; [discriminate|].
  destruct (String.eqb k k'); [reflexivity | exact IH].
Qed.

(** X5.  A colour object with the colour space "hsl", three numeric components,
    a numeric alpha between 0 and 1 and a 6-digit hex is accepted, in
    whatever order its properties are written.  Components out of their
    range do not make the colour invalid: each is reported as a warning, and
    the answer is still [true]. *)
Theorem color_accepted_with_range_warnings
    (props : list (string * json)) (h s l a : Q) (hex tokenPath : string)
    (r : results) :
  lookup "colorSpace" props = Some (JStr "hsl") ->
  lookup "components" props = Some (JArr [JNum h; JNum s; JNum l]) ->
  lookup "alpha" props = Some (JNum a) ->
  inRange 0 1 a = true ->
  lookup "hex" props = Some (JStr hex) ->
  isHexColor hex = true ->
  validateColorValue (JObj props) tokenPath r
  = Returned true
      (mkResults (pass r)
         (warnings r ++ componentWarnings tokenPath h s l)
         (critical r) (stats r)).
Proof.
  intros Hcs Hco Ha Hra Hh Hhex.
  unfold validateColorValue.
  change (notAnObject (JObj props)) with false. cbv iota.
  unfold bind at 1. rewrite missingProps_missingOf by reflexivity.
  unfold missingOf. cbn [filter inOperator].
  rewrite (lookup_hasOwn _ _ _ Hcs), (lookup_hasOwn _ _ _ Hco),
    (lookup_hasOwn _ _ _ Ha), (lookup_hasOwn _ _ _ Hh).
  cbn [negb List.length Nat.ltb Nat.leb getProp].
  rewrite Hcs, Hco, Ha, Hh. cbn [eqString negb].
  change (String.eqb "hsl" "hsl") with true. cbv iota.
  unfold componentWarnings, inRange in *.
  apply andb_true_iff in Hra. destruct Hra as [Ha0 Ha1].
  cbv beta iota delta [orM lessThan greaterThan toNumberM bind ret when render
    testHex addWarning num_gt num_lt convertibleOpt convertible toNumber
    toNumber_json typeof hexTest negb String.eqb Ascii.eqb Bool.eqb].
  rewrite Ha0, Ha1, Hhex.
  destruct r as [ps ws cs st].
  destruct (Qle_bool 0 h), (Qle_bool h 360), (Qle_bool 0 s), (Qle_bool s 100),
    (Qle_bool 0 l), (Qle_bool l 100);
    cbn [negb andb orb app pass warnings critical stats];
    rewrite <- ?app_assoc, ?app_nil_r; reflexivity.
Qed.

Lemma validators_answer_false_with_one_critical_witness :
  exists b r',
    validateDimensionValue (JObj [("value", JNum 16)]) "spacing.4" results0
    = Returned b r'
    /\ b = false
    /\ exists c, critical r' = critical results0 ++ [c].
Proof.
  eexists _, _. split; [reflexivity|]. split; [reflexivity|].
  destruct (proj1 (proj2 (validators_answer_false_with_one_critical
                            (JObj [("value", JNum 16)]) "spacing.4"))
              results0 _ _ eq_refl) as (_ & _ & _ & H).
  exact H.
Defined.

Lemma color_accepted_with_range_warnings_witness :
  validateColorValue brandBlue "color.brand.600" results0
  = Returned true
      (mkResults [] ([] ++ componentWarnings "color.brand.600" 217 91 60) []
                 (stats results0)).
Proof.
  apply (color_accepted_with_range_warnings
           [("colorSpace", JStr "hsl");
            ("components", JArr [JNum 217; JNum 91; JNum 60]);
            ("alpha", JNum 1); ("hex", JStr "#2563eb")]
           217 91 60 1 "#2563eb" "color.brand.600" results0);
    reflexivity.
Defined.

(** X6.  A dimension object whose "value" is a number and whose "unit" is a
    string is accepted, in whatever order the two are written and whatever
    else the object holds; a unit other than "px" and "em" is reported as a
    warning only. *)
Theorem dimension_accepted_with_unit_warning
    (props : list (string * json)) (q : Q) (u tokenPath : string)
    (r : results) :
  lookup "value" props = Some (JNum q) ->
  lookup "unit" props = Some (JStr u) ->
  validateDimensionValue (JObj props) tokenPath r
  = Returned true
      (if String.eqb u "px" || String.eqb u "em" then r
       else mkResults (pass r)
              (warnings r ++ [UnexpectedUnit tokenPath (Some (JStr u))])
              (critical r) (stats r)).
Proof.
  intros Hv Hu. unfold validateDimensionValue.
  change (notAnObject (JObj props)) with false. cbv iota.
  unfold hasProp, inOperator.
  rewrite (lookup_hasOwn _ _ _ Hv), (lookup_hasOwn _ _ _ Hu).
  cbn [getProp]. rewrite Hv, Hu.
  cbv beta iota delta [bind ret when addWarning typeof eqString negb andb orb].
  change (String.eqb "number" "number") with true.
  change (String.eqb "string" "string") with true. cbv iota.
  destruct (String.eqb u "px"), (String.eqb u "em"); reflexivity.
Qed.

Lemma dimension_accepted_with_unit_warning_witness :
  validateDimensionValue
    (JObj [("value", JNum 16); ("unit", JStr "rem")]) "spacing.4" results0
  = Returned true
      (mkResults [] [UnexpectedUnit "spacing.4" (Some (JStr "rem"))] []
                 (stats results0)).
Proof.
  apply (dimension_accepted_with_unit_warning
           [("value", JNum 16); ("unit", JStr "rem")] 16 "rem" "spacing.4"
           results0); reflexivity.
Defined.

Lemma notAnObject_isObjectNode (value : json) :
  notAnObject value = negb (isObjectNode value).
Proof.
  destruct value as [|b|q|s|elems|props]; try reflexivity;
    unfold notAnObject; simpl.
  - destruct b; reflexivity.
  - destruct (Qeq_bool q 0); reflexivity.
  - destruct (String.eqb s ""); reflexivity.
Qed.

(** X7.  The typography validator never throws, and it rejects a value only for
    not being an object: on an object or an array the answer is [true], with
    one warning that lists, in the order fontFamily, fontSize, fontWeight,
    lineHeight, exactly the properties that are absent, and no warning when
    none is; on every other value the answer is [false] with the one
    critical finding that the value must be an object. *)
Theorem typography_rejects_only_non_objects (value : json)
    (tokenPath : string) (r : results) :
  validateTypographyValue value tokenPath r
  = if isObjectNode value then
      Returned true
        match missingOf typographyProps value with
        | [] => r
        | missing =>
            mkResults (pass r)
              (warnings r ++ [TypographyMissing tokenPath missing])
              (critical r) (stats r)
        end
    else
      Returned false
        (mkResults (pass r) (warnings r)
           (critical r ++ [TypographyNotObject tokenPath]) (stats r)).
Proof.
  unfold validateTypographyValue.
  rewrite notAnObject_isObjectNode.
  destruct (isObjectNode value) eqn:Ho; cbn [negb]; [|reflexivity].
  unfold bind at 1.
  rewrite (missingProps_missingOf _ value r Ho).
  fold typographyProps.
  destruct (missingOf typographyProps value); reflexivity.
Qed.

(** ** Lists of shadows *)

Lemma validateShadows_complete (pre rest : list json) tokenPath r :
  forallb completeShadow pre = true ->
  validateShadows (pre ++ rest) tokenPath r = validateShadows rest tokenPath r.
Proof.
  induction pre as [|x pre IH]; intros H; [reflexivity|].
  simpl in H. apply andb_true_iff in H. destruct H as [Hx Hpre].
  unfold completeShadow in Hx. apply andb_true_iff in Hx.
  destruct Hx as [Ho Hm]. apply Nat.eqb_eq in Hm.
  cbn [app validateShadows]. unfold bind at 1.
  rewrite (missingProps_missingOf _ x r Ho).
  fold shadowProps. rewrite Hm. exact (IH Hpre).
Qed.

(** X8.  A list of shadows is checked up to its first incomplete member: when
    the members before [shadow] have the four properties offsetX, offsetY,
    blur and color and [shadow] is an object that lacks some, the validator
    answers [false] with one critical finding that lists what [shadow]
    lacks, and the members after it are not looked at. *)
Theorem shadow_list_stops_at_first_incomplete
    (pre rest : list json) (shadow : json) (tokenPath : string) (r : results) :
  forallb completeShadow pre = true ->
  isObjectNode shadow = true ->
  missingOf shadowProps shadow <> [] ->
  validateShadowValue (JArr (pre ++ shadow :: rest)) tokenPath r
  = Returned false
      (mkResults (pass r) (warnings r)
         (critical r
          ++ [ShadowMissingProps tokenPath (missingOf shadowProps shadow)])
         (stats r)).
Proof.
  intros Hpre Ho Hm. unfold validateShadowValue.
  change (notAnObject (JArr (pre ++ shadow :: rest))) with false. cbv iota.
  rewrite validateShadows_complete by exact Hpre.
  cbn [validateShadows]. unfold bind at 1.
  rewrite (missingProps_missingOf _ shadow r Ho). fold shadowProps.
  destruct (missingOf shadowProps shadow); [congruence | reflexivity].
Qed.

Lemma shadow_list_stops_at_first_incomplete_witness :
  validateShadowValue
    (JArr [JObj [("offsetX", JNum 0); ("offsetY", JNum 1); ("blur", JNum 2);
                 ("color", JStr "{color.black}")];
           JObj [("offsetX", JNum 0); ("blur", JNum 4)];
           JObj []])
    "shadow.md" results0
  = Returned false
      (mkResults [] [] [ShadowMissingProps "shadow.md" ["offsetY"; "color"]]
                 (stats results0)).
Proof.
  apply (shadow_list_stops_at_first_incomplete
           [JObj [("offsetX", JNum 0); ("offsetY", JNum 1); ("blur", JNum 2);
                  ("color", JStr "{color.black}")]]
           [JObj []]
           (JObj [("offsetX", JNum 0); ("blur", JNum 4)])
           "shadow.md" results0);
    [reflexivity | reflexivity | discriminate].
Defined.

(** X9.  A list of shadows with a member that is no object ends the run: when
    the members before it are complete shadows, a member that is a string
    (a reference to another shadow, say), a number, a boolean or [null]
    makes the validator throw the TypeError of the [in] operator.  The empty
    list is accepted. *)
Theorem shadow_list_member_must_be_object
    (pre rest : list json) (member : json) (tokenPath : string) (r : results) :
  forallb completeShadow pre = true ->
  isObjectNode member = false ->
  validateShadowValue (JArr (pre ++ member :: rest)) tokenPath r
  = Thrown (TypeError "Cannot use 'in' operator to search in a non-object")
  /\ validateShadowValue (JArr []) tokenPath r = Returned true r.
Proof.
  intros Hpre Ho. split; [|reflexivity].
  unfold validateShadowValue.
  change (notAnObject (JArr (pre ++ member :: rest))) with false. cbv iota.
  rewrite validateShadows_complete by exact Hpre.
  destruct member; try discriminate Ho; reflexivity.
Qed.

Lemma shadow_list_member_must_be_object_witness :
  validateShadowValue (JArr [JStr "{shadow.sm}"; JStr "{shadow.md}"])
    "shadow.lg" results0
  = Thrown (TypeError "Cannot use 'in' operator to search in a non-object")
  /\ validateShadowValue (JArr []) "shadow.lg" results0
     = Returned true results0.
Proof.
  apply (shadow_list_member_must_be_object
           [] [JStr "{shadow.md}"] (JStr "{shadow.sm}") "shadow.lg" results0);
    reflexivity.
Defined.

(** ** Documents that are no object *)

Lemma safe_typeCallback p t l a : safe (typeCallback p t l a).
Proof.
  unfold typeCallback. apply safe_when, safe_bind;
    [apply safe_addCritical | intros; apply safe_modifyStats].
Qed.

(** X10.  A document that is [null] ends the run with the TypeError of
    [Object.entries]: at once when it is the primitive document, and after
    the first traversal of the primitive tree when it is the semantic one,
    so when the groups of the primitive tree are nested no deeper than the
    stack holds nested calls; deeper, that traversal ends in a RangeError.
    A document that is a number, a boolean or a string is audited as the
    empty object is. *)
Theorem null_document_aborts_run (primitiveTokens semanticTokens : json)
    (stack : nat) :
  (primitiveTokens = JNull ->
   auditWithin stack primitiveTokens semanticTokens
   = inl (TypeError "Cannot convert undefined or null to object"))
  /\ (semanticTokens = JNull -> groupDepth primitiveTokens <= stack ->
      auditWithin stack primitiveTokens semanticTokens
      = inl (TypeError "Cannot convert undefined or null to object"))
  /\ (semanticTokens = JNull -> stack < groupDepth primitiveTokens ->
      auditWithin stack primitiveTokens semanticTokens = inl stackOverflow)
  /\ (isObjectNode primitiveTokens = false -> primitiveTokens <> JNull ->
      auditWithin stack primitiveTokens semanticTokens
      = auditWithin stack (JObj []) semanticTokens)
  /\ (isObjectNode semanticTokens = false -> semanticTokens <> JNull ->
      auditWithin stack primitiveTokens semanticTokens
      = auditWithin stack primitiveTokens (JObj [])).
Proof.
  split; [|split; [|split; [|split]]].
  - intros ->. reflexivity.
  - intros -> Hd.
    destruct (json_null_dec primitiveTokens) as [->|Hnn]; [reflexivity|].
    destruct (traverseTokens_returns typeCallback primitive
                (typeCallback_returns primitive) primitiveTokens [] tt
                results0 Hnn) as (a & r' & E).
    rewrite <- (traverseTokensWithin_direct typeCallback primitive
                  primitiveTokens stack) in E by exact Hd.
    unfold auditWithin, runChecksWithin, checkDTCGComplianceWithin, bind.
    rewrite E. reflexivity.
  - intros _ Hd. apply deep_groups_exhaust_stack. exact Hd.
  - intros Ho Hnn. destruct primitiveTokens; try discriminate Ho;
      try congruence; reflexivity.
  - intros Ho Hnn. destruct semanticTokens; try discriminate Ho;
      try congruence; reflexivity.
Qed.

Lemma null_document_aborts_run_witness :
  auditWithin 3 primitiveA JNull
  = inl (TypeError "Cannot convert undefined or null to object").
Proof.
  apply (proj1 (proj2 (null_document_aborts_run primitiveA JNull 3)));
    [reflexivity | vm_compute; lia].
Defined.

(** ** The index of token paths *)

Lemma includes_In (arr : list string) (x : string) :
  includes arr x = true <-> In x arr.
Proof.
  unfold includes. rewrite existsb_exists. split.
  - intros (y & Hin & Heq). apply String.eqb_eq in Heq. subst. exact Hin.
  - intros Hin. exists x. split; [exact Hin | apply String.eqb_refl].
Qed.

Lemma setAdd_In (set : list string) (x y : string) :
  In y (setAdd set x) <-> In y set \/ y = x.
Proof.
  unfold setAdd. destruct (includes set x) eqn:E.
  - apply includes_In in E. split; [auto|]. intros [H| ->]; assumption.
  - rewrite in_app_iff. simpl. intuition.
Qed.

Lemma setAdd_NoDup (set : list string) (x : string) :
  NoDup set -> NoDup (setAdd set x).
Proof.
  intros Hnd. unfold setAdd. destruct (includes set x) eqn:E; [exact Hnd|].
  assert (Hx : ~ In x set).
  { intros Hin. apply includes_In in Hin. congruence. }
  clear E. induction Hnd as [|y set Hy Hnd IH]; simpl.
  - constructor; [intros []|constructor].
  - constructor.
    + rewrite in_app_iff. simpl. intros [H|[H|[]]]; [auto|].
      apply Hx. left. symmetry. exact H.
    + apply IH. intros H. apply Hx. right. exact H.
Qed.

Lemma index_fold (l : layer) (ts : list (list string * json)) :
  forall index r,
    foldM (visitToken indexCallback l) ts index r
    = Returned (fold_left setAdd (map (fun pt => getTokenPath (fst pt)) ts) index)
               (counted l (List.length ts) r).
Proof.
  induction ts as [|[p t] ts IH]; intros index r.
  - destruct r; reflexivity.
  - simpl. unfold bind at 1. unfold visitToken at 1. simpl.
    rewrite IH. f_equal. unfold counted. simpl. f_equal.
    symmetry.
    exact (Nat.iter_succ_r (List.length ts) _ (countToken l) (stats r)).
Qed.

Lemma fold_setAdd_In (xs : list string) :
  forall set y, In y (fold_left setAdd xs set) <-> In y set \/ In y xs.
Proof.
  induction xs as [|x xs IH]; intros set y; simpl.
  - intuition.
  - rewrite IH, setAdd_In. intuition.
Qed.

Lemma fold_setAdd_NoDup (xs : list string) :
  forall set, NoDup set -> NoDup (fold_left setAdd xs set).
Proof.
  induction xs as [|x xs IH]; intros set Hnd; simpl; [exact Hnd|].
  apply IH, setAdd_NoDup, Hnd.
Qed.

(** X11.  The index that a checker builds from a tree holds the joined path of
    each token of the tree, once: a string is in the index exactly when it
    is the path, joined with dots, of a token that [traverseTokens] visits.
    Building the index counts every token of the tree once more. *)
Theorem token_index_holds_the_token_paths (obj : json) (l : layer)
    (r : results) :
  obj <> JNull ->
  exists index,
    traverseTokens obj indexCallback [] l [] r
    = Returned index (counted l (List.length (tokensIn obj [])) r)
    /\ NoDup index
    /\ forall s,
         includes index s = true
         <-> exists p t, In (p, t) (tokensIn obj []) /\ getTokenPath p = s.
Proof.
  intros Hnn. eexists. split; [|split].
  - rewrite traverseTokens_fold by exact Hnn. apply index_fold.
  - apply fold_setAdd_NoDup. constructor.
  - intros s. rewrite includes_In, fold_setAdd_In, in_map_iff. split.
    + intros [[]|([p t] & Hs & Hin)]. exists p, t. auto.
    + intros (p & t & Hin & Hs). right. exists (p, t). auto.
Qed.

Lemma token_index_holds_the_token_paths_witness :
  exists index,
    traverseTokens primitiveA indexCallback [] primitive [] results0
    = Returned index
        (counted primitive (List.length (tokensIn primitiveA [])) results0)
    /\ NoDup index
    /\ forall s,
         includes index s = true
         <-> exists p t, In (p, t) (tokensIn primitiveA []) /\ getTokenPath p = s.
Proof.
  apply (token_index_holds_the_token_paths primitiveA primitive results0).
  discriminate.
Defined.

(** ** The reference walker *)

Lemma checkReferences_arr pi si tokenPath (elems : list json) :
  forall all r,
    (forall v, In v elems -> forall all r,
        checkReferences pi si v tokenPath all r
        = foldM (fun all s => checkReferences pi si (JStr s) tokenPath all)
            (stringLeaves v) all r) ->
    (fix loop (elems : list json) (all : list string) : M (list string) :=
       match elems with
       | [] => ret all
       | v :: rest =>
           all' <- checkReferences pi si v tokenPath all ;;
           loop rest all'
       end) elems all r
    = foldM (fun all s => checkReferences pi si (JStr s) tokenPath all)
        (flat_map stringLeaves elems) all r.
Proof.
  induction elems as [|v elems IH]; intros all r Hv; [reflexivity|].
  cbn [flat_map]. rewrite foldM_app. apply bind_ext.
  - intros r0. apply Hv. left. reflexivity.
  - intros a r0. apply IH. intros x Hx. apply Hv. right. exact Hx.
Qed.

(** Without a bound on the stack, the walker does on a value what it does
    on each string inside it. *)
Lemma checkReferences_leaves
    (primitiveIndex semanticIndex : list string) (value : json)
    (tokenPath : string) (all : list string) (r : results) :
  checkReferences primitiveIndex semanticIndex value tokenPath all r
  = foldM (fun all s =>
             checkReferences primitiveIndex semanticIndex (JStr s) tokenPath all)
      (stringLeaves value) all r.
Proof.
  revert all r. induction value using json_ind; intros all r;
    try reflexivity.
  - (* a string *)
    cbn [stringLeaves foldM]. unfold bind.
    destruct (checkReferences _ _ _ _ _ r); reflexivity.
  - (* an array *)
    rewrite Forall_forall in H.
    exact (checkReferences_arr _ _ _ elems all r H).
  - (* an object *)
    cbn [stringLeaves]. simpl checkReferences. revert all r.
    induction H as [|[k v] props Hv _ IH]; intros all r; [reflexivity|].
    cbn [flat_map snd]. rewrite foldM_app. apply bind_ext.
    + intros r0. apply Hv.
    + intros a r0. apply IH.
Qed.

Lemma checkReferencesWithin_overflow
    (primitiveIndex semanticIndex : list string) (tokenPath : string)
    (value : json) :
  forall stack all r,
    stack < nesting value ->
    checkReferencesWithin primitiveIndex semanticIndex value stack tokenPath
      all r
    = Thrown stackOverflow.
Proof.
  induction value using json_ind; intros stack all r Hd;
    try (simpl in Hd; lia).
  - (* an array *)
    simpl. revert all r Hd.
    induction H as [|x elems Hx _ IH]; intros all r Hd; [simpl in Hd; lia|].
    rewrite nesting_arr_cons in Hd. unfold bind at 1.
    destruct stack as [|below]; [reflexivity|].
    destruct (Nat.le_gt_cases (nesting x) below) as [Hfit|Hdeep].
    + rewrite checkReferencesWithin_fits by exact Hfit.
      destruct (safe_checkReferences primitiveIndex semanticIndex x
                  tokenPath all r) as (a & r1 & ->).
      apply IH. lia.
    + rewrite Hx by exact Hdeep. reflexivity.
  - (* an object *)
    simpl. revert all r Hd.
    induction H as [|[k x] props Hx _ IH]; intros all r Hd;
      [simpl in Hd; lia|].
    rewrite nesting_obj_cons in Hd. simpl in Hx. unfold bind at 1.
    destruct stack as [|below]; [reflexivity|].
    destruct (Nat.le_gt_cases (nesting x) below) as [Hfit|Hdeep].
    + rewrite checkReferencesWithin_fits by exact Hfit.
      destruct (safe_checkReferences primitiveIndex semanticIndex x
                  tokenPath all r) as (a & r1 & ->).
      apply IH. lia.
    + rewrite Hx by exact Hdeep. reflexivity.
Qed.

(** X12.  The walker checks the strings inside a value and nothing else.  It
    calls itself once for each level of nesting; on a stack that holds as
    many nested calls as the value is nested it does on a composite value
    (an object in an object, an array of objects), in order, what it does
    on each string that is a value at any depth, and the keys of objects,
    the numbers, the booleans and [null] have no effect.  On a smaller
    stack it ends in a RangeError. *)
Theorem reference_walker_checks_every_string
    (primitiveIndex semanticIndex : list string) (value : json) (stack : nat)
    (tokenPath : string) (all : list string) (r : results) :
  checkReferencesWithin primitiveIndex semanticIndex value stack tokenPath
    all r
  = if nesting value <=? stack then
      foldM (fun all s =>
               checkReferences primitiveIndex semanticIndex (JStr s)
                 tokenPath all)
        (stringLeaves value) all r
    else Thrown stackOverflow.
Proof.
  destruct (nesting value <=? stack) eqn:E.
  - apply Nat.leb_le in E. rewrite checkReferencesWithin_fits by exact E.
    apply checkReferences_leaves.
  - apply Nat.leb_gt in E. apply checkReferencesWithin_overflow. exact E.
Qed.

(** X13.  What the walker records for one reference.  A string in braces is a
    reference to what is between the braces.  It is added to the set of
    references; it gets a critical finding, and counts as an invalid
    reference, exactly when it is in neither index; independently it gets a
    critical finding when it starts with a layer prefix.  A reference that
    is in the semantic index alone is accepted, so a semantic token may
    refer to a semantic token. *)
Theorem reference_findings
    (primitiveIndex semanticIndex : list string) (ref tokenPath : string)
    (all : list string) (r : results) :
  checkReferences primitiveIndex semanticIndex (JStr ("{" ++ ref ++ "}"))
    tokenPath all r
  = Returned (setAdd all ref)
      (mkResults (pass r) (warnings r)
         (critical r
          ++ referenceFindings primitiveIndex semanticIndex tokenPath ref)
         (if unresolved primitiveIndex semanticIndex ref
          then incrInvalidReferences (stats r) else stats r)).
Proof.
  destruct (braces_make_a_reference ref) as (Hs & He & Hr).
  cbn [checkReferences]. rewrite Hs, He, Hr. cbn [andb].
  unfold referenceFindings, unresolved.
  destruct r as [ps ws cs st].
  destruct (negb (includes primitiveIndex ref) && negb (includes semanticIndex ref)),
    (isLayerPrefixed ref); cbn; rewrite <- ?app_assoc, ?app_nil_r; reflexivity.
Qed.

(** ** The counters of missing types, missing descriptions and invalid
    references *)

Lemma count_snoc {A} (f : A -> bool) (l : list A) (x : A) :
  count f (l ++ [x]) = count f l + (if f x then 1 else 0).
Proof.
  unfold count. rewrite filter_app, length_app. simpl.
  destruct (f x); reflexivity.
Qed.

Lemma balanced_refl r : balanced r r.
Proof. repeat split. Qed.

Lemma balanced_trans r1 r2 r3 :
  balanced r1 r2 -> balanced r2 r3 -> balanced r1 r3.
Proof. unfold balanced. intros (? & ? & ?) (? & ? & ?). lia. Qed.

Lemma balanced_count l r :
  balanced r (mkResults (pass r) (warnings r) (critical r)
                        (countToken l (stats r))).
Proof. repeat split. Qed.

Lemma balanced_addPass msg : keeps balanced (addPass msg).
Proof. intros r x r' E. injection E as _ <-. repeat split. Qed.

Lemma balanced_addWarning msg :
  isMissingDescription msg = false -> keeps balanced (addWarning msg).
Proof.
  intros H r x r' E. injection E as _ <-. unfold balanced. simpl.
  rewrite count_snoc, H. lia.
Qed.

Lemma balanced_addCritical msg :
  isMissingType msg = false -> isReferenceNotFound msg = false ->
  keeps balanced (addCritical msg).
Proof.
  intros H H' r x r' E. injection E as _ <-. unfold balanced. simpl.
  rewrite !count_snoc, H, H'. lia.
Qed.

Lemma balanced_missingType tokenPath :
  keeps balanced
    (addCritical (MissingTypeProperty tokenPath) ;; modifyStats incrMissingType).
Proof.
  intros r x r' E. injection E as _ <-. unfold balanced. simpl.
  rewrite !count_snoc. simpl. lia.
Qed.

Lemma balanced_missingDescription tokenPath :
  keeps balanced
    (addWarning (MissingDescription tokenPath) ;;
     modifyStats incrMissingDescription).
Proof.
  intros r x r' E. injection E as _ <-. unfold balanced. simpl.
  rewrite !count_snoc. simpl. lia.
Qed.

Lemma balanced_invalidReference tokenPath ref :
  keeps balanced
    (addCritical (ReferenceNotFound tokenPath ref) ;;
     modifyStats incrInvalidReferences).
Proof.
  intros r x r' E. injection E as _ <-. unfold balanced. simpl.
  rewrite !count_snoc. simpl. lia.
Qed.

Ltac balanced_base :=
  first
    [ apply balanced_missingType
    | apply balanced_missingDescription
    | apply balanced_invalidReference
    | apply balanced_addPass
    | apply balanced_addWarning; reflexivity
    | apply balanced_addCritical; reflexivity
    | match goal with H : _ |- keeps _ _ => solve [apply H] end ].

Ltac balanced_tac :=
  repeat kstep balanced_refl balanced_trans balanced_count balanced_base.

Lemma balanced_validateShadows shadows tokenPath :
  keeps balanced (validateShadows shadows tokenPath).
Proof. induction shadows; simpl; balanced_tac. Qed.

Lemma balanced_checkReferences pi si (value : json) :
  forall tokenPath all,
    keeps balanced (checkReferences pi si value tokenPath all).
Proof.
  induction value using json_ind; intros tokenPath all;
    try (simpl; balanced_tac; fail).
  - simpl. revert all.
    induction H as [|v elems Hv _ IH]; intros all; balanced_tac.
  - simpl. revert all.
    induction H as [|[k v] props Hv _ IH]; intros all; simpl in *;
      balanced_tac.
Qed.

Lemma balanced_checkEssentials semanticIndex essentials n :
  keeps balanced (checkEssentials semanticIndex essentials n).
Proof. revert n. induction essentials; intros n; simpl; balanced_tac. Qed.

Lemma balanced_checkTypeSets sets n : keeps balanced (checkTypeSets sets n).
Proof.
  revert n. induction sets as [|[c ts] sets IH]; intros n; simpl;
    balanced_tac.
Qed.

Ltac balanced_checker :=
  repeat
    first
      [ apply balanced_validateShadows
      | apply balanced_checkReferences
      | apply balanced_checkEssentials
      | apply balanced_checkTypeSets
      | kstep balanced_refl balanced_trans balanced_count balanced_base ].

Lemma balanced_runChecks (primitiveTokens semanticTokens : json) :
  keeps balanced (runChecks primitiveTokens semanticTokens).
Proof.
  unfold runChecks.
  apply keeps_bind;
    [exact balanced_trans | unfold checkDTCGCompliance; balanced_checker
    | intros _].
  apply keeps_bind;
    [exact balanced_trans | unfold checkReferenceIntegrity; balanced_checker
    | intros _].
  apply keeps_bind;
    [exact balanced_trans | unfold checkNamingConventions; balanced_checker
    | intros _].
  apply keeps_bind;
    [exact balanced_trans
    | unfold checkValueFormatConsistency; balanced_checker | intros _].
  apply keeps_bind;
    [exact balanced_trans | unfold checkCompleteness; balanced_checker
    | intros _].
  unfold checkQuality. balanced_checker.
Qed.

(** X14.  Three counters of the report agree with its findings: in the report of
    every run, [missingType] is the number of "Missing required $type
    property" critical findings, [missingDescription] the number of "Missing
    $description property" warnings, and [invalidReferences] the number of
    "points to non-existent token" critical findings. *)
Theorem counters_agree_with_findings (primitiveTokens semanticTokens : json)
    (rep : report) :
  audit primitiveTokens semanticTokens = inr rep ->
  missingType (stats (findings rep))
  = count isMissingType (critical (findings rep))
  /\ missingDescription (stats (findings rep))
     = count isMissingDescription (warnings (findings rep))
  /\ invalidReferences (stats (findings rep))
     = count isReferenceNotFound (critical (findings rep)).
Proof.
  unfold audit. intros E.
  destruct (runChecks primitiveTokens semanticTokens results0)
    as [[] r|] eqn:Er; [|discriminate].
  injection E as <-.
  destruct (balanced_runChecks _ _ _ _ _ Er) as (H1 & H2 & H3).
  cbn in *. lia.
Qed.

Lemma counters_agree_with_findings_witness :
  exists rep,
    audit primitiveA semanticBare = inr rep
    /\ missingType (stats (findings rep)) = 1
    /\ missingType (stats (findings rep))
       = count isMissingType (critical (findings rep))
    /\ missingDescription (stats (findings rep))
       = count isMissingDescription (warnings (findings rep))
    /\ invalidReferences (stats (findings rep))
       = count isReferenceNotFound (critical (findings rep)).
Proof.
  eexists. split; [vm_compute; reflexivity|]. split; [reflexivity|].
  match goal with
  | |- missingType (stats (findings ?rep)) = _ /\ _ =>
      apply (counters_agree_with_findings primitiveA semanticBare rep)
  end.
  vm_compute. reflexivity.
Defined.

(** ** Tokens without a type or a description *)

Lemma sameMissing_refl r : sameMissing r r.
Proof. split; reflexivity. Qed.

Lemma sameMissing_trans r1 r2 r3 :
  sameMissing r1 r2 -> sameMissing r2 r3 -> sameMissing r1 r3.
Proof. unfold sameMissing. intuition congruence. Qed.

Lemma sameMissing_count l r :
  sameMissing r (mkResults (pass r) (warnings r) (critical r)
                           (countToken l (stats r))).
Proof. split; reflexivity. Qed.

Lemma sameMissing_addPass msg : keeps sameMissing (addPass msg).
Proof. intros r x r' E. injection E as _ <-. split; reflexivity. Qed.

Lemma sameMissing_addWarning msg : keeps sameMissing (addWarning msg).
Proof. intros r x r' E. injection E as _ <-. split; reflexivity. Qed.

Lemma sameMissing_addCritical msg : keeps sameMissing (addCritical msg).
Proof. intros r x r' E. injection E as _ <-. split; reflexivity. Qed.

Lemma sameMissing_invalidReferences :
  keeps sameMissing (modifyStats incrInvalidReferences).
Proof. intros r x r' E. injection E as _ <-. split; reflexivity. Qed.

Ltac sameMissing_base :=
  first
    [ apply sameMissing_addPass
    | apply sameMissing_addWarning
    | apply sameMissing_addCritical
    | apply sameMissing_invalidReferences
    | match goal with H : _ |- keeps _ _ => solve [apply H] end ].

Ltac sameMissing_tac :=
  repeat kstep sameMissing_refl sameMissing_trans sameMissing_count
           sameMissing_base.

Lemma sameMissing_validateShadows shadows tokenPath :
  keeps sameMissing (validateShadows shadows tokenPath).
Proof. induction shadows; simpl; sameMissing_tac. Qed.

Lemma sameMissing_checkReferences pi si (value : json) :
  forall tokenPath all,
    keeps sameMissing (checkReferences pi si value tokenPath all).
Proof.
  induction value using json_ind; intros tokenPath all;
    try (simpl; sameMissing_tac; fail).
  - simpl. revert all.
    induction H as [|v elems Hv _ IH]; intros all; sameMissing_tac.
  - simpl. revert all.
    induction H as [|[k v] props Hv _ IH]; intros all; simpl in *;
      sameMissing_tac.
Qed.

Lemma sameMissing_checkEssentials semanticIndex essentials n :
  keeps sameMissing (checkEssentials semanticIndex essentials n).
Proof. revert n. induction essentials; intros n; simpl; sameMissing_tac. Qed.

Lemma sameMissing_checkTypeSets sets n :
  keeps sameMissing (checkTypeSets sets n).
Proof.
  revert n. induction sets as [|[c ts] sets IH]; intros n; simpl;
    sameMissing_tac.
Qed.

Ltac sameMissing_checker :=
  repeat
    first
      [ apply sameMissing_validateShadows
      | apply sameMissing_checkReferences
      | apply sameMissing_checkEssentials
      | apply sameMissing_checkTypeSets
      | kstep sameMissing_refl sameMissing_trans sameMissing_count
              sameMissing_base ].

Lemma bumps_of_keeps {A} (m : M A) : keeps sameMissing m -> bumps m 0 0.
Proof. intros H r a r' E. destruct (H _ _ _ E). lia. Qed.

Lemma bumps_bind {A B} (m : M A) (k : A -> M B) a b c d :
  bumps m a b -> (forall x, bumps (k x) c d) -> bumps (bind m k) (a + c) (b + d).
Proof.
  intros Hm Hk r y r' E.
  destruct (bind_returned _ _ _ _ _ E) as (x & r1 & E1 & E2).
  destruct (Hm _ _ _ E1), (Hk x _ _ _ E2). lia.
Qed.

Lemma bumps_eq {A} (m : M A) a b a' b' :
  bumps m a b -> a = a' -> b = b' -> bumps m a' b'.
Proof. intros H <- <-. exact H. Qed.

Lemma bumps_fold {A} (callback : list string -> json -> layer -> A -> M A)
    (l : layer) (fT fD : json -> bool) (ts : list (list string * json)) :
  (forall p t acc,
      bumps (callback p t l acc)
            (if fT t then 0 else 1) (if fD t then 0 else 1)) ->
  forall acc,
    bumps (foldM (visitToken callback l) ts acc)
          (lacking fT ts) (lacking fD ts).
Proof.
  intros Hc. induction ts as [|[p t] ts IH]; intros acc; simpl.
  - apply bumps_of_keeps, keeps_ret, sameMissing_refl.
  - eapply bumps_eq; [apply bumps_bind; [|exact IH]|..].
    + unfold visitToken. cbn [fst snd].
      eapply bumps_eq; [apply bumps_bind; [apply Hc|]|..].
      * intros x. apply bumps_of_keeps.
        apply keeps_bind; [exact sameMissing_trans | |
                           intros; apply keeps_ret, sameMissing_refl].
        intros r y r' E. injection E as _ <-. apply sameMissing_count.
      * rewrite Nat.add_0_r. reflexivity.
      * rewrite Nat.add_0_r. reflexivity.
    + unfold lacking, count. simpl. destruct (fT t); reflexivity.
    + unfold lacking, count. simpl. destruct (fD t); reflexivity.
Qed.

Lemma bumps_traverse {A} (obj : json)
    (callback : list string -> json -> layer -> A -> M A)
    (l : layer) (fT fD : json -> bool) acc :
  (forall p t acc,
      bumps (callback p t l acc)
            (if fT t then 0 else 1) (if fD t then 0 else 1)) ->
  bumps (traverseTokens obj callback [] l acc)
        (lacking fT (tokensIn obj [])) (lacking fD (tokensIn obj [])).
Proof.
  intros Hc. destruct (json_null_dec obj) as [->|Hnn].
  - intros r x r' E. discriminate E.
  - intros r x r' E. rewrite traverseTokens_fold in E by exact Hnn.
    exact (bumps_fold callback l fT fD _ Hc acc r x r' E).
Qed.

Lemma lacking_none (ts : list (list string * json)) :
  lacking (fun _ => true) ts = 0.
Proof. unfold lacking, count. induction ts; simpl; auto. Qed.

Lemma bumps_typeCallback p t l acc :
  bumps (typeCallback p t l acc) (if hasType t then 0 else 1) 0.
Proof.
  unfold typeCallback, hasType.
  destruct (truthy (getProp t "$type")); intros r a r' E;
    injection E as _ <-; simpl; lia.
Qed.

Lemma bumps_semanticDescriptionCallback p t l acc :
  bumps (semanticDescriptionCallback p t l acc)
        0 (if hasDescription t then 0 else 1).
Proof.
  unfold semanticDescriptionCallback, hasDescription.
  destruct (truthy (getProp t "$description")); intros r a r' E;
    injection E as _ <-; simpl; lia.
Qed.

Lemma bumps_primitiveDescriptionCallback p t l acc :
  bumps (primitiveDescriptionCallback p t l acc)
        0 (if hasDescription t then 0 else 1).
Proof.
  unfold primitiveDescriptionCallback, hasDescription.
  destruct (getProp t "$description") as [d|] eqn:Ed.
  - destruct (truthy (Some d)); cbn [negb].
    + apply bumps_of_keeps. sameMissing_tac.
    + intros r a r' E. injection E as _ <-. simpl. lia.
  - intros r a r' E. injection E as _ <-. simpl. lia.
Qed.

Lemma bumps_typeTraversal (obj : json) (l : layer) :
  bumps (traverseTokens obj typeCallback [] l tt)
        (lacking hasType (tokensIn obj [])) 0.
Proof.
  eapply bumps_eq;
    [apply (bumps_traverse obj typeCallback l hasType (fun _ => true))
    | reflexivity | apply lacking_none].
  intros. apply bumps_typeCallback.
Qed.

Lemma bumps_primitiveDescriptionTraversal (obj : json) (l : layer) :
  bumps (traverseTokens obj primitiveDescriptionCallback [] l tt)
        0 (lacking hasDescription (tokensIn obj [])).
Proof.
  eapply bumps_eq;
    [apply (bumps_traverse obj primitiveDescriptionCallback l
              (fun _ => true) hasDescription)
    | apply lacking_none | reflexivity].
  intros. apply bumps_primitiveDescriptionCallback.
Qed.

Lemma bumps_semanticDescriptionTraversal (obj : json) (l : layer) :
  bumps (traverseTokens obj semanticDescriptionCallback [] l tt)
        0 (lacking hasDescription (tokensIn obj [])).
Proof.
  eapply bumps_eq;
    [apply (bumps_traverse obj semanticDescriptionCallback l
              (fun _ => true) hasDescription)
    | apply lacking_none | reflexivity].
  intros. apply bumps_semanticDescriptionCallback.
Qed.

Ltac bumps_step :=
  match goal with
  | |- forall _, _ => intro
  | |- bumps (bind _ _) _ _ => eapply bumps_bind
  | |- bumps (traverseTokens _ typeCallback _ _ _) _ _ =>
      apply bumps_typeTraversal
  | |- bumps (traverseTokens _ primitiveDescriptionCallback _ _ _) _ _ =>
      apply bumps_primitiveDescriptionTraversal
  | |- bumps (traverseTokens _ semanticDescriptionCallback _ _ _) _ _ =>
      apply bumps_semanticDescriptionTraversal
  | |- bumps ?m _ _ =>
      apply (bumps_eq m 0 0);
      [apply bumps_of_keeps; sameMissing_checker | reflexivity | reflexivity]
  end.

Lemma lacking_app f ts ts' :
  lacking f (ts ++ ts') = lacking f ts + lacking f ts'.
Proof. unfold lacking, count. rewrite filter_app, length_app. reflexivity. Qed.

Lemma bumps_checkDTCGCompliance (primitiveTokens semanticTokens : json) :
  bumps (checkDTCGCompliance primitiveTokens semanticTokens)
        (lacking hasType (tokensIn primitiveTokens [] ++ tokensIn semanticTokens []))
        (lacking hasDescription
           (tokensIn primitiveTokens [] ++ tokensIn semanticTokens [])).
Proof.
  unfold checkDTCGCompliance.
  eapply bumps_eq; [repeat bumps_step | rewrite lacking_app; lia ..].
Qed.

Lemma bumps_runChecks (primitiveTokens semanticTokens : json) :
  bumps (runChecks primitiveTokens semanticTokens)
        (lacking hasType (tokensIn primitiveTokens [] ++ tokensIn semanticTokens []))
        (lacking hasDescription
           (tokensIn primitiveTokens [] ++ tokensIn semanticTokens [])).
Proof.
  unfold runChecks.
  eapply bumps_eq;
    [ eapply bumps_bind; [apply bumps_checkDTCGCompliance | intros _];
      apply bumps_of_keeps;
      apply keeps_bind;
        [exact sameMissing_trans
        | unfold checkReferenceIntegrity; sameMissing_checker | intros _];
      apply keeps_bind;
        [exact sameMissing_trans
        | unfold checkNamingConventions; sameMissing_checker | intros _];
      apply keeps_bind;
        [exact sameMissing_trans
        | unfold checkValueFormatConsistency; sameMissing_checker | intros _];
      apply keeps_bind;
        [exact sameMissing_trans
        | unfold checkCompleteness; sameMissing_checker | intros _];
      unfold checkQuality; sameMissing_checker
    | lia .. ].
Qed.

(** X15.  A token without a type, or without a description, is reported once.
    In the report of every run the number of "Missing required $type
    property" critical findings is the number of tokens of the two trees
    whose [$type] is absent or falsy, and the number of "Missing
    $description property" warnings is the number of tokens whose
    [$description] is absent or falsy; the counters [missingType] and
    [missingDescription] hold the same two numbers. *)
Theorem untyped_and_undescribed_tokens_reported_once
    (primitiveTokens semanticTokens : json) (rep : report) :
  audit primitiveTokens semanticTokens = inr rep ->
  let tokens := tokensIn primitiveTokens [] ++ tokensIn semanticTokens [] in
  count isMissingType (critical (findings rep)) = lacking hasType tokens
  /\ missingType (stats (findings rep)) = lacking hasType tokens
  /\ count isMissingDescription (warnings (findings rep))
     = lacking hasDescription tokens
  /\ missingDescription (stats (findings rep)) = lacking hasDescription tokens.
Proof.
  intros E tokens. unfold audit in E.
  destruct (runChecks primitiveTokens semanticTokens results0)
    as [[] r|] eqn:Er; [|discriminate].
  injection E as <-.
  destruct (balanced_runChecks _ _ _ _ _ Er) as (H1 & H2 & _).
  destruct (bumps_runChecks _ _ _ _ _ Er) as (H3 & H4).
  subst tokens. cbn in *. lia.
Qed.

Lemma untyped_and_undescribed_tokens_reported_once_witness :
  exists rep,
    audit primitiveA semanticBare = inr rep
    /\ count isMissingType (critical (findings rep)) = 1
    /\ count isMissingDescription (warnings (findings rep)) = 1.
Proof.
  eexists. split; [vm_compute; reflexivity|].
  match goal with
  | |- count _ (critical (findings ?rep)) = _ /\ _ =>
      destruct (untyped_and_undescribed_tokens_reported_once
                  primitiveA semanticBare rep) as (H1 & _ & H3 & _)
  end.
  - vm_compute. reflexivity.
  - split; [exact H1 | exact H3].
Defined.

(** ** The passing checks that depend on a counter *)

Lemma settled_refl r : settled r r.
Proof. split; [reflexivity|]. exists []. rewrite app_nil_r. auto. Qed.

Lemma settled_trans r1 r2 r3 : settled r1 r2 -> settled r2 r3 -> settled r1 r3.
Proof.
  intros (Hi & ps & Hp & Hok) (Hi' & ps' & Hp' & Hok').
  split; [congruence|]. exists (ps ++ ps').
  rewrite Hp', Hp, app_assoc, forallb_app, Hok, Hok'. auto.
Qed.

Lemma settled_same (r : results) ws cs st :
  invalidReferences st = invalidReferences (stats r) ->
  settled r (mkResults (pass r) ws cs st).
Proof.
  intros H. split; [exact H|]. exists []. simpl. rewrite app_nil_r. auto.
Qed.

Lemma settled_count l r :
  settled r (mkResults (pass r) (warnings r) (critical r)
                       (countToken l (stats r))).
Proof. apply settled_same. reflexivity. Qed.

Lemma settled_addWarning msg : keeps settled (addWarning msg).
Proof.
  intros r x r' E. injection E as _ <-. apply settled_same. reflexivity.
Qed.

Lemma settled_addCritical msg : keeps settled (addCritical msg).
Proof.
  intros r x r' E. injection E as _ <-. apply settled_same. reflexivity.
Qed.

Lemma settled_addPass msg :
  isConditionalPass msg = false -> keeps settled (addPass msg).
Proof.
  intros H r x r' E. injection E as _ <-. split; [reflexivity|].
  exists [msg]. simpl. rewrite H. auto.
Qed.

Ltac settled_base :=
  first
    [ apply settled_addPass; reflexivity
    | apply settled_addWarning
    | apply settled_addCritical
    | match goal with H : _ |- keeps _ _ => solve [apply H] end ].

Ltac settled_tac :=
  repeat kstep settled_refl settled_trans settled_count settled_base.

Lemma settled_validateShadows shadows tokenPath :
  keeps settled (validateShadows shadows tokenPath).
Proof. induction shadows; simpl; settled_tac. Qed.

Lemma settled_checkEssentials semanticIndex essentials n :
  keeps settled (checkEssentials semanticIndex essentials n).
Proof. revert n. induction essentials; intros n; simpl; settled_tac. Qed.

Lemma settled_checkTypeSets sets n : keeps settled (checkTypeSets sets n).
Proof.
  revert n. induction sets as [|[c ts] sets IH]; intros n; simpl; settled_tac.
Qed.

Ltac settled_checker :=
  repeat
    first
      [ apply settled_validateShadows
      | apply settled_checkEssentials
      | apply settled_checkTypeSets
      | kstep settled_refl settled_trans settled_count settled_base ].

Lemma settled_laterCheckers (primitiveTokens semanticTokens : json) :
  keeps settled
    (checkNamingConventions primitiveTokens semanticTokens ;;
     checkValueFormatConsistency primitiveTokens semanticTokens ;;
     checkCompleteness primitiveTokens semanticTokens ;;
     checkQuality primitiveTokens semanticTokens).
Proof.
  apply keeps_bind;
    [exact settled_trans | unfold checkNamingConventions; settled_checker
    | intros _].
  apply keeps_bind;
    [exact settled_trans
    | unfold checkValueFormatConsistency; settled_checker | intros _].
  apply keeps_bind;
    [exact settled_trans | unfold checkCompleteness; settled_checker
    | intros _].
  unfold checkQuality. settled_checker.
Qed.

Lemma settled_In (r r' : results) (msg : passMsg) :
  settled r r' -> isConditionalPass msg = true ->
  (In msg (pass r') <-> In msg (pass r)).
Proof.
  intros (_ & ps & Hp & Hok) Hm. rewrite Hp, in_app_iff.
  split; [|auto]. intros [H|H]; [exact H|].
  rewrite forallb_forall in Hok. specialize (Hok _ H).
  rewrite Hm in Hok. discriminate.
Qed.

Lemma grows_traverse {A} (obj : json)
    (callback : list string -> json -> layer -> A -> M A) path l acc r a r' :
  (forall p t acc, keeps grows (callback p t l acc)) ->
  traverseTokens obj callback path l acc r = Returned a r' ->
  pass r' = pass r.
Proof.
  intros Hc E.
  destruct (keeps_grows_traverse obj callback path l acc Hc _ _ _ E) as (H & _).
  exact H.
Qed.

(** The passing checks that [checkDTCGCompliance] adds. *)
Lemma checkDTCGCompliance_pass (primitiveTokens semanticTokens : json) r r1 :
  checkDTCGCompliance primitiveTokens semanticTokens r = Returned tt r1 ->
  pass r1
  = pass r
    ++ (if missingType (stats r1) =? 0 then [AllHaveType] else [])
    ++ (if missingDescription (stats r1) =? 0 then [AllHaveDescription] else []).
Proof.
  unfold checkDTCGCompliance. intros E.
  do 7 (apply bind_returned in E;
        let E1 := fresh "E" in
        let a := fresh "a" in
        let r := fresh "r" in
        destruct E as (a & r & E1 & E);
        apply grows_traverse in E1; [|solve [eauto with keeps nocore]]).
  unfold bind, getStats, when, addPass, ret in E.
  destruct (missingType (stats r7) =? 0) eqn:ET; cbn in E;
    destruct (missingDescription (stats r7) =? 0) eqn:ED;
    injection E as <-; cbn [pass stats]; rewrite ?ET, ?ED;
    rewrite <- ?app_assoc, ?app_nil_r; cbn [app];
    replace (pass r7) with (pass r) by congruence; reflexivity.
Qed.

(** The passing checks that [checkReferenceIntegrity] adds. *)
Lemma checkReferenceIntegrity_pass (primitiveTokens semanticTokens : json)
    r r2 :
  checkReferenceIntegrity primitiveTokens semanticTokens r = Returned tt r2 ->
  exists n,
    pass r2
    = pass r
      ++ (if invalidReferences (stats r2) =? 0
          then [AllReferencesValid n] else [])
      ++ [NoCircularReferences].
Proof.
  unfold checkReferenceIntegrity. intros E.
  do 3 (apply bind_returned in E;
        let E1 := fresh "E" in
        let a := fresh "a" in
        let r := fresh "r" in
        destruct E as (a & r & E1 & E);
        apply grows_traverse in E1; [|solve [eauto with keeps nocore]]).
  exists (List.length a1).
  unfold bind, getStats, when, addPass, ret in E.
  destruct (invalidReferences (stats r3) =? 0) eqn:EI;
    injection E as <-; cbn [pass stats]; rewrite ?EI;
    rewrite <- ?app_assoc; cbn [app];
    replace (pass r3) with (pass r) by congruence; reflexivity.
Qed.

(** X16.  Three passing checks tell the truth.  In the report of every run, "All
    tokens have $type declarations" is listed exactly when every token of
    the two trees has a truthy [$type], "All tokens have $description"
    exactly when every token has a truthy [$description], and "All n token
    references are valid" exactly when no "points to non-existent token"
    critical finding is listed. *)
Theorem conditional_passes_are_truthful
    (primitiveTokens semanticTokens : json) (rep : report) :
  audit primitiveTokens semanticTokens = inr rep ->
  let tokens := tokensIn primitiveTokens [] ++ tokensIn semanticTokens [] in
  (In AllHaveType (pass (findings rep))
   <-> forallb (fun pt => hasType (snd pt)) tokens = true)
  /\ (In AllHaveDescription (pass (findings rep))
      <-> forallb (fun pt => hasDescription (snd pt)) tokens = true)
  /\ ((exists n, In (AllReferencesValid n) (pass (findings rep)))
      <-> count isReferenceNotFound (critical (findings rep)) = 0).
Proof.
  intros E tokens. unfold audit in E.
  destruct (runChecks primitiveTokens semanticTokens results0)
    as [[] r|] eqn:Er; [|discriminate].
  injection E as <-. cbn [findings printResults].
  destruct (balanced_runChecks _ _ _ _ _ Er) as (_ & _ & Hbal).
  unfold runChecks in Er.
  apply bind_returned in Er. destruct Er as ([] & r1 & E1 & Er).
  apply bind_returned in Er. destruct Er as ([] & r2 & E2 & Er).
  apply settled_laterCheckers in Er.
  destruct (bumps_checkDTCGCompliance _ _ _ _ _ E1) as (HT & HD).
  apply checkDTCGCompliance_pass in E1.
  apply checkReferenceIntegrity_pass in E2. destruct E2 as (n & E2).
  fold tokens in HT, HD. cbn in HT, HD, Hbal, E1.
  assert (Hall : forall f, lacking f tokens = 0
                           <-> forallb (fun pt => f (snd pt)) tokens = true).
  { intros f. unfold lacking, count. clear.
    induction tokens as [|pt ts IH]; simpl; [tauto|].
    destruct (f (snd pt)); simpl; [exact IH|]. split; intros; discriminate. }
  split; [|split].
  - rewrite (settled_In r2 r AllHaveType Er eq_refl), E2, E1, <- Hall, <- HT.
    destruct (missingType (stats r1) =? 0) eqn:ET;
      destruct (missingDescription (stats r1) =? 0),
        (invalidReferences (stats r2) =? 0);
      (apply Nat.eqb_eq in ET || apply Nat.eqb_neq in ET); simpl;
      split; intros H; try tauto; try lia;
      repeat (destruct H as [H|H]; try discriminate H; try tauto).
  - rewrite (settled_In r2 r AllHaveDescription Er eq_refl), E2, E1, <- Hall,
      <- HD.
    destruct (missingDescription (stats r1) =? 0) eqn:ED;
      destruct (missingType (stats r1) =? 0),
        (invalidReferences (stats r2) =? 0);
      (apply Nat.eqb_eq in ED || apply Nat.eqb_neq in ED); simpl;
      split; intros H; try tauto; try lia;
      repeat (destruct H as [H|H]; try discriminate H; try tauto).
  - assert (Hi : invalidReferences (stats r) = invalidReferences (stats r2))
      by (destruct Er as (Hi & _); exact Hi).
    rewrite <- Hbal, Nat.add_0_r, Hi.
    split.
    + intros (k & Hk).
      rewrite (settled_In r2 r (AllReferencesValid k) Er eq_refl), E2, E1 in Hk.
      destruct (invalidReferences (stats r2) =? 0) eqn:EI;
        [apply Nat.eqb_eq in EI; exact EI|].
      exfalso.
      destruct (missingType (stats r1) =? 0),
        (missingDescription (stats r1) =? 0); simpl in Hk;
        repeat (destruct Hk as [Hk|Hk]; try discriminate Hk; try tauto).
    + intros H0. exists n.
      rewrite (settled_In r2 r (AllReferencesValid n) Er eq_refl), E2.
      apply Nat.eqb_eq in H0. rewrite H0.
      apply in_or_app. right. left. reflexivity.
Qed.

Lemma conditional_passes_are_truthful_witness :
  exists rep,
    audit primitiveA semanticA = inr rep
    /\ In AllHaveType (pass (findings rep))
    /\ In AllHaveDescription (pass (findings rep))
    /\ count isReferenceNotFound (critical (findings rep)) = 0.
Proof.
  eexists. split; [vm_compute; reflexivity|].
  match goal with
  | |- In _ (pass (findings ?rep)) /\ _ =>
      destruct (conditional_passes_are_truthful primitiveA semanticA rep)
        as (HT & HD & HR)
  end.
  - vm_compute. reflexivity.
  - split; [apply HT; reflexivity|].
    split; [apply HD; reflexivity|].
    apply HR. exists 1. simpl. auto.
Defined.

(** ** The depth rule against the essential patterns *)

Lemma dots_append (a b : string) : dots (a ++ b) = dots a + dots b.
Proof. induction a as [|c a IH]; simpl; [reflexivity|]. rewrite IH. lia. Qed.

Lemma dots_prefix (pre s : string) :
  String.prefix pre s = true -> dots pre <= dots s.
Proof.
  revert s. induction pre as [|a pre IH]; intros s H; simpl; [lia|].
  destruct s as [|b s]; simpl in H; [discriminate|].
  destruct (ascii_dec a b) as [->|]; [|discriminate].
  simpl. specialize (IH s H). lia.
Qed.

Lemma dots_getTokenPath (path : list string) :
  forallb dotFree path = true ->
  dots (getTokenPath path) = List.length path - 1.
Proof.
  unfold getTokenPath.
  induction path as [|x path IH]; intros H; [reflexivity|].
  simpl in H. apply andb_true_iff in H. destruct H as [Hx Hp].
  apply Nat.eqb_eq in Hx. specialize (IH Hp).
  destruct path as [|y path]; [simpl; lia|].
  change (String.concat "." (x :: y :: path))
    with (x ++ "." ++ String.concat "." (y :: path))%string.
  rewrite !dots_append, Hx, IH. simpl. lia.
Qed.

Lemma essential_path_is_deep (path : list string) :
  forallb dotFree path = true ->
  startsWith (getTokenPath path) "color.text.neutral.base.default" = true ->
  4 < List.length path.
Proof.
  intros Hfree Hstart. apply dots_prefix in Hstart.
  rewrite (dots_getTokenPath path Hfree) in Hstart.
  change (dots "color.text.neutral.base.default") with 4 in Hstart. lia.
Qed.

Lemma depth_fold (l : layer) (ts : list (list string * json)) :
  forall r,
    foldM (visitToken depthCallback l) ts tt r
    = Returned tt
        (mkResults (pass r) (warnings r ++ depthWarnings ts) (critical r)
                   (Nat.iter (List.length ts) (countToken l) (stats r))).
Proof.
  induction ts as [|[p t] ts IH]; intros r.
  - unfold depthWarnings. simpl. rewrite app_nil_r. destruct r; reflexivity.
  - cbn [foldM]. unfold bind at 1. unfold visitToken at 1.
    unfold depthCallback, depthWarnings, isDeep. cbn [fst snd filter].
    destruct (4 <? List.length p) eqn:E.
    + cbv beta iota delta [when bind addWarning modifyStats ret].
      rewrite IH. cbn [pass warnings critical stats map List.length].
      rewrite <- app_assoc.
      rewrite <- (Nat.iter_succ_r (List.length ts) _ (countToken l) (stats r)).
      reflexivity.
    + cbv beta iota delta [when bind addWarning modifyStats ret].
      rewrite IH. cbn [pass warnings critical stats map List.length].
      rewrite <- (Nat.iter_succ_r (List.length ts) _ (countToken l) (stats r)).
      reflexivity.
Qed.

Lemma warnsMore_depthTraversal (obj : json) (l : layer) :
  existsb isDeep (tokensIn obj []) = true ->
  warnsMore (traverseTokens obj depthCallback [] l tt).
Proof.
  intros Hdeep r a r' E.
  destruct (json_null_dec obj) as [->|Hnn]; [discriminate E|].
  rewrite traverseTokens_fold, depth_fold in E by exact Hnn.
  injection E as _ <-. cbn [warnings]. eexists. split; [reflexivity|].
  unfold depthWarnings. apply existsb_exists in Hdeep.
  destruct Hdeep as (pt & Hin & Hd).
  assert (Hf : In pt (filter isDeep (tokensIn obj [])))
    by (apply filter_In; auto).
  destruct (filter isDeep (tokensIn obj [])); [destruct Hf | discriminate].
Qed.

Lemma warnsMore_addWarning msg : warnsMore (addWarning msg).
Proof.
  intros r a r' E. injection E as _ <-. exists [msg].
  split; [reflexivity | discriminate].
Qed.

Lemma warnsMore_checkDTCGCompliance (primitiveTokens semanticTokens : json) :
  existsb isDeep (tokensIn semanticTokens []) = true ->
  warnsMore (checkDTCGCompliance primitiveTokens semanticTokens).
Proof.
  intros Hdeep. unfold checkDTCGCompliance.
  do 6 (eapply warnsMore_bind_r; [repeat extends_step | intros ?]).
  eapply warnsMore_bind_l;
    [apply warnsMore_depthTraversal, Hdeep | intros ?; repeat extends_step].
Qed.

Lemma index_paths (obj : json) (l : layer) r index r' :
  traverseTokens obj indexCallback [] l [] r = Returned index r' ->
  forall s, In s index ->
            exists p t, In (p, t) (tokensIn obj []) /\ getTokenPath p = s.
Proof.
  intros E s Hin.
  destruct (json_null_dec obj) as [->|Hnn]; [discriminate E|].
  rewrite traverseTokens_fold, index_fold in E by exact Hnn.
  injection E as <- _.
  apply fold_setAdd_In in Hin. destruct Hin as [[]|Hin].
  apply in_map_iff in Hin. destruct Hin as ([p t] & Hs & Hin).
  exists p, t. auto.
Qed.

Lemma checkEssentials_cons semanticIndex essential rest n :
  checkEssentials semanticIndex (essential :: rest) n
  = if negb (existsb (fun path => startsWith path essential) semanticIndex)
    then addWarning (MissingEssential essential) ;;
         checkEssentials semanticIndex rest (S n)
    else checkEssentials semanticIndex rest n.
Proof. reflexivity. Qed.

Lemma warnsMore_checkCompleteness_shallow
    (primitiveTokens semanticTokens : json) :
  plainKeys semanticTokens = true ->
  existsb isDeep (tokensIn semanticTokens []) = false ->
  warnsMore (checkCompleteness primitiveTokens semanticTokens).
Proof.
  intros Hkeys Hshallow r a r' E. unfold checkCompleteness in E.
  apply bind_returned in E. destruct E as (index & r1 & E1 & E).
  assert (Hg : grows r r1).
  { apply (keeps_grows_traverse semanticTokens indexCallback [] semantic [])
      with (a := index); [|exact E1].
    intros. apply keeps_indexCallback. exact grows_refl. }
  pose proof (index_paths _ _ _ _ _ E1) as Hidx.
  assert (Hnone : existsb (fun path => startsWith path
                                         "color.text.neutral.base.default")
                          index = false).
  { destruct (existsb _ index) eqn:Ex; [exfalso | reflexivity].
    apply existsb_exists in Ex. destruct Ex as (x & Hin & Hstart).
    destruct (Hidx x Hin) as (p & t & Hpt & <-).
    unfold plainKeys in Hkeys. rewrite forallb_forall in Hkeys.
    pose proof (essential_path_is_deep p (Hkeys _ Hpt) Hstart) as Hd.
    assert (Hex : existsb isDeep (tokensIn semanticTokens []) = true).
    { apply existsb_exists. exists (p, t). split; [exact Hpt|].
      apply Nat.ltb_lt. exact Hd. }
    congruence. }
  assert (Hrest : warnsMore
            (_ <- checkEssentials index essentialSemantics 0 ;;
             forEach (checkScale primitiveTokens) colorCategories ;;
             hasStates <- traverseTokens semanticTokens hasStatesCallback []
                            semantic false ;;
             (if hasStates then addPass StatesDefined
              else addWarning NoInteractiveStates) ;;
             primitiveIndex <- traverseTokens primitiveTokens indexCallback []
                                 primitive [] ;;
             (if includes primitiveIndex "color.white" then addPass WhiteDefined
              else addWarning MissingWhite) ;;
             (if includes primitiveIndex "color.black" then addPass BlackDefined
              else addWarning MissingBlack))).
  { eapply warnsMore_bind_l.
    - unfold essentialSemantics. rewrite checkEssentials_cons, Hnone.
      cbn [negb]. eapply warnsMore_bind_l; [apply warnsMore_addWarning|].
      intros _. apply (extends_of_keeps _ 0).
      apply keeps_checkEssentials; eauto with keeps nocore.
    - intros _. unfold colorCategories. cbn [forEach].
      repeat first [apply extends_checkScale | extends_step]. }
  destruct (Hrest _ _ _ E) as (ws & Hw & Hne).
  destruct Hg as (_ & (ws0 & Hw0) & _).
  exists (ws0 ++ ws). rewrite Hw, Hw0, app_assoc. split; [reflexivity|].
  destruct ws0; [exact Hne | discriminate].
Qed.

(** X17.  No run over a semantic tree whose keys have no dot is fully ready.  The
    first essential pattern, color.text.neutral.base.default, has five
    segments: either no token path starts with it, and the pattern is
    reported missing, or one does, and that token is deeper than the four
    levels of the depth rule.  Every such run records a warning, its verdict
    is never "production ready", and its score is at most 95. *)
Theorem no_run_is_fully_ready (primitiveTokens semanticTokens : json)
    (rep : report) :
  plainKeys semanticTokens = true ->
  audit primitiveTokens semanticTokens = inr rep ->
  warnings (findings rep) <> []
  /\ readiness rep <> ProductionReady
  /\ (score rep <= 95)%Z.
Proof.
  intros Hkeys E.
  pose proof (at_most_19_passing_checks _ _ _ E) as Hp.
  unfold audit in E.
  destruct (runChecks primitiveTokens semanticTokens results0)
    as [[] r|] eqn:Er; [|discriminate].
  injection E as <-. cbn [findings printResults readiness] in *.
  assert (Hw : warnsMore (runChecks primitiveTokens semanticTokens)).
  { unfold runChecks.
    destruct (existsb isDeep (tokensIn semanticTokens [])) eqn:Hdeep.
    - eapply warnsMore_bind_l;
        [apply warnsMore_checkDTCGCompliance, Hdeep | intros _].
      eapply extends_bind; [apply extends_checkReferenceIntegrity | intros _].
      eapply extends_bind; [apply extends_checkNamingConventions | intros _].
      eapply extends_bind;
        [apply extends_checkValueFormatConsistency | intros _].
      eapply extends_bind; [apply extends_checkCompleteness | intros _].
      apply extends_checkQuality.
    - eapply warnsMore_bind_r; [apply extends_checkDTCGCompliance | intros _].
      eapply warnsMore_bind_r;
        [apply extends_checkReferenceIntegrity | intros _].
      eapply warnsMore_bind_r;
        [apply extends_checkNamingConventions | intros _].
      eapply warnsMore_bind_r;
        [apply extends_checkValueFormatConsistency | intros _].
      eapply warnsMore_bind_l;
        [apply warnsMore_checkCompleteness_shallow; assumption | intros _].
      apply extends_checkQuality. }
  destruct (Hw _ _ _ Er) as (ws & Hws & Hne). simpl in Hws.
  assert (Hlen : 1 <= List.length (warnings r)).
  { rewrite Hws. destruct ws; [congruence | simpl; lia]. }
  split; [destruct (warnings r); [simpl in Hlen; lia | discriminate]|].
  split.
  - unfold computeVerdict.
    destruct (warnings r); [simpl in Hlen; lia|].
    destruct (critical r); simpl; discriminate.
  - change (computeScore r) with (score (printResults r)).
    rewrite (score_formula r) by lia.
    apply Z.lt_succ_r, Z.div_lt_upper_bound; lia.
Qed.

Lemma no_run_is_fully_ready_witness :
  exists rep,
    audit primitiveA semanticDeep = inr rep
    /\ warnings (findings rep) <> []
    /\ readiness rep <> ProductionReady
    /\ (score rep <= 95)%Z.
Proof.
  eexists. split; [vm_compute; reflexivity|].
  match goal with
  | |- warnings (findings ?rep) <> [] /\ _ =>
      apply (no_run_is_fully_ready primitiveA semanticDeep rep)
  end.
  - reflexivity.
  - vm_compute. reflexivity.
Defined.

(** ** Findings of a kind *)

Section Untouched.

Variable kw : warningMsg -> bool.
Variable kc : criticalMsg -> bool.

Lemma untouched_refl r : untouched kw kc r r.
Proof. split; reflexivity. Qed.

Lemma untouched_trans r1 r2 r3 :
  untouched kw kc r1 r2 -> untouched kw kc r2 r3 -> untouched kw kc r1 r3.
Proof. unfold untouched. intuition congruence. Qed.

Lemma untouched_count l r :
  untouched kw kc r
    (mkResults (pass r) (warnings r) (critical r) (countToken l (stats r))).
Proof. split; reflexivity. Qed.

Lemma untouched_addPass msg : keeps (untouched kw kc) (addPass msg).
Proof. intros r x r' E. injection E as _ <-. split; reflexivity. Qed.

Lemma untouched_modifyStats f : keeps (untouched kw kc) (modifyStats f).
Proof. intros r x r' E. injection E as _ <-. split; reflexivity. Qed.

Lemma untouched_addWarning msg :
  kw msg = false -> keeps (untouched kw kc) (addWarning msg).
Proof.
  intros H r x r' E. injection E as _ <-. split; [|reflexivity]. simpl.
  rewrite filter_app. simpl. rewrite H. apply app_nil_r.
Qed.

Lemma untouched_addCritical msg :
  kc msg = false -> keeps (untouched kw kc) (addCritical msg).
Proof.
  intros H r x r' E. injection E as _ <-. split; [reflexivity|]. simpl.
  rewrite filter_app. simpl. rewrite H. apply app_nil_r.
Qed.

Lemma emits_of_keeps {A} (m : M A) :
  keeps (untouched kw kc) m -> emits kw kc m [] [].
Proof.
  intros H r a r' E. destruct (H _ _ _ E) as (Hw & Hc).
  rewrite Hw, Hc, !app_nil_r. split; reflexivity.
Qed.

Lemma emits_bind {A B} (m : M A) (k : A -> M B) ws cs ws' cs' :
  emits kw kc m ws cs -> (forall x, emits kw kc (k x) ws' cs') ->
  emits kw kc (bind m k) (ws ++ ws') (cs ++ cs').
Proof.
  intros Hm Hk r y r' E.
  destruct (bind_returned _ _ _ _ _ E) as (x & r1 & E1 & E2).
  destruct (Hm _ _ _ E1) as (Hw & Hc), (Hk x _ _ _ E2) as (Hw' & Hc').
  rewrite Hw', Hc', Hw, Hc, !app_assoc. split; reflexivity.
Qed.

Lemma emits_eq {A} (m : M A) ws cs ws' cs' :
  emits kw kc m ws cs -> ws = ws' -> cs = cs' -> emits kw kc m ws' cs'.
Proof. intros H <- <-. exact H. Qed.

Lemma emits_fold {A} (callback : list string -> json -> layer -> A -> M A)
    (l : layer) (fw : list string * json -> list warningMsg)
    (fc : list string * json -> list criticalMsg)
    (ts : list (list string * json)) :
  (forall p t acc, emits kw kc (callback p t l acc) (fw (p, t)) (fc (p, t))) ->
  forall acc,
    emits kw kc (foldM (visitToken callback l) ts acc)
          (flat_map fw ts) (flat_map fc ts).
Proof.
  intros Hc. induction ts as [|[p t] ts IH]; intros acc; simpl.
  - apply emits_of_keeps, keeps_ret, untouched_refl.
  - apply emits_bind; [|exact IH].
    unfold visitToken. cbn [fst snd].
    eapply emits_eq; [apply emits_bind; [apply Hc|]|apply app_nil_r ..].
    intros x. apply emits_of_keeps.
    apply keeps_bind; [exact untouched_trans | apply untouched_modifyStats |].
    intros. apply keeps_ret, untouched_refl.
Qed.

Lemma emits_traverse {A} (obj : json)
    (callback : list string -> json -> layer -> A -> M A)
    (l : layer) (fw : list string * json -> list warningMsg)
    (fc : list string * json -> list criticalMsg) acc :
  (forall p t acc, emits kw kc (callback p t l acc) (fw (p, t)) (fc (p, t))) ->
  emits kw kc (traverseTokens obj callback [] l acc)
        (flat_map fw (tokensIn obj [])) (flat_map fc (tokensIn obj [])).
Proof.
  intros Hc. destruct (json_null_dec obj) as [->|Hnn].
  - intros r x r' E. discriminate E.
  - intros r x r' E. rewrite traverseTokens_fold in E by exact Hnn.
    exact (emits_fold callback l fw fc _ Hc acc r x r' E).
Qed.

End Untouched.

Ltac untouched_base :=
  first
    [ apply untouched_addPass
    | apply untouched_modifyStats
    | apply untouched_addWarning; first [reflexivity | solve [auto]]
    | apply untouched_addCritical; first [reflexivity | solve [auto]]
    | match goal with H : _ |- keeps _ _ => solve [apply H] end ].

Ltac untouched_step :=
  kstep uconstr:(untouched_refl _ _) uconstr:(untouched_trans _ _)
        uconstr:(untouched_count _ _) untouched_base.

Lemma untouched_validateShadows kw kc shadows tokenPath :
  (forall tp missing, kc (ShadowMissingProps tp missing) = false) ->
  keeps (untouched kw kc) (validateShadows shadows tokenPath).
Proof. intros Hk. induction shadows; simpl; repeat untouched_step. Qed.

Lemma untouched_checkReferences kw kc pi si (value : json) :
  (forall tp ref, kc (ReferenceNotFound tp ref) = false) ->
  (forall tp ref, kc (ReferenceLayerPrefix tp ref) = false) ->
  forall tokenPath all,
    keeps (untouched kw kc) (checkReferences pi si value tokenPath all).
Proof.
  intros Hn Hl.
  induction value using json_ind; intros tokenPath all;
    try (simpl; repeat untouched_step; fail).
  - simpl. revert all.
    induction H as [|v elems Hv _ IH]; intros all; repeat untouched_step.
  - simpl. revert all.
    induction H as [|[k v] props Hv _ IH]; intros all; simpl in *;
      repeat untouched_step.
Qed.

Lemma untouched_checkEssentials kw kc semanticIndex essentials n :
  (forall e, kw (MissingEssential e) = false) ->
  keeps (untouched kw kc) (checkEssentials semanticIndex essentials n).
Proof.
  intros Hk. revert n.
  induction essentials; intros n; simpl; repeat untouched_step.
Qed.

Lemma untouched_checkTypeSets kw kc sets n :
  (forall c ts, kw (MultipleTypes c ts) = false) ->
  keeps (untouched kw kc) (checkTypeSets sets n).
Proof.
  intros Hk. revert n.
  induction sets as [|[c ts] sets IH]; intros n; simpl;
    repeat untouched_step.
Qed.

Ltac untouched_checker :=
  repeat
    first
      [ apply untouched_validateShadows; intros; reflexivity
      | apply untouched_checkReferences; intros; reflexivity
      | apply untouched_checkEssentials; intros; reflexivity
      | apply untouched_checkTypeSets; intros; reflexivity
      | untouched_step ].

(** ** The depth warnings of a run *)

Lemma emits_depthTraversal (obj : json) (l : layer) :
  emits isDepthWarning noCritical (traverseTokens obj depthCallback [] l tt)
        (depthWarnings (tokensIn obj [])) [].
Proof.
  intros r a r' E.
  destruct (json_null_dec obj) as [->|Hnn]; [discriminate E|].
  rewrite traverseTokens_fold, depth_fold in E by exact Hnn.
  injection E as _ <-. cbn [warnings critical]. split.
  - rewrite filter_app. f_equal. unfold depthWarnings.
    induction (filter isDeep (tokensIn obj [])) as [|pt ts IH];
      [reflexivity|]. simpl. rewrite IH. reflexivity.
  - rewrite app_nil_r. reflexivity.
Qed.

Ltac depth_step :=
  match goal with
  | |- forall _, _ => intro
  | |- emits _ _ (bind _ _) _ _ => eapply emits_bind
  | |- emits _ _ (traverseTokens _ depthCallback _ _ _) _ _ =>
      apply emits_depthTraversal
  | |- emits _ _ _ _ _ => apply emits_of_keeps; untouched_checker
  end.

Lemma emits_depth_runChecks (primitiveTokens semanticTokens : json) :
  emits isDepthWarning noCritical (runChecks primitiveTokens semanticTokens)
        (depthWarnings (tokensIn primitiveTokens [])
         ++ depthWarnings (tokensIn semanticTokens []))
        [].
Proof.
  unfold runChecks.
  eapply emits_eq.
  - eapply emits_bind;
      [unfold checkDTCGCompliance; repeat depth_step | intros _].
    apply emits_of_keeps.
    apply keeps_bind;
      [apply untouched_trans
      | unfold checkReferenceIntegrity; untouched_checker | intros _].
    apply keeps_bind;
      [apply untouched_trans
      | unfold checkNamingConventions; untouched_checker | intros _].
    apply keeps_bind;
      [apply untouched_trans
      | unfold checkValueFormatConsistency; untouched_checker | intros _].
    apply keeps_bind;
      [apply untouched_trans
      | unfold checkCompleteness; untouched_checker | intros _].
    unfold checkQuality. untouched_checker.
  - simpl. rewrite !app_nil_r. reflexivity.
  - reflexivity.
Qed.

(** X18.  The depth warnings of a report are one for each token whose path has
    more than four segments, in the order of the visit, the primitive tree
    first; no other step of the run adds a depth warning, and a token is
    reported once although the trees are traversed many times. *)
Theorem depth_warnings_of_a_run (primitiveTokens semanticTokens : json)
    (rep : report) :
  audit primitiveTokens semanticTokens = inr rep ->
  filter isDepthWarning (warnings (findings rep))
  = depthWarnings (tokensIn primitiveTokens [])
    ++ depthWarnings (tokensIn semanticTokens []).
Proof.
  unfold audit. intros E.
  destruct (runChecks primitiveTokens semanticTokens results0)
    as [[] r|] eqn:Er; [|discriminate].
  injection E as <-.
  destruct (emits_depth_runChecks _ _ _ _ _ Er) as (Hw & _).
  exact Hw.
Qed.

Lemma depth_warnings_of_a_run_witness :
  exists rep,
    audit primitiveA semanticDeep = inr rep
    /\ filter isDepthWarning (warnings (findings rep))
       = [] ++ [DepthExceeded "color.text.neutral.base.hover" 5].
Proof.
  eexists. split; [vm_compute; reflexivity|].
  match goal with
  | |- filter _ (warnings (findings ?rep)) = _ =>
      apply (depth_warnings_of_a_run primitiveA semanticDeep rep)
  end.
  vm_compute. reflexivity.
Defined.

(** ** The depth check and the state names *)

Lemma emits_stateCallback (p : list string) (t : json) (l : layer) (acc : unit) :
  emits isStateWarning noCritical (stateCallback p t l acc)
        (stateFinding (p, t)) [].
Proof.
  intros r a r' E. unfold stateCallback, stateFinding in *. cbn [fst] in *.
  destruct (lastSegment p) as [last|].
  - destruct (includes states last && negb (List.length p =? 4)).
    + injection E as _ <-. cbn [warnings critical]. rewrite filter_app.
      rewrite app_nil_r. split; reflexivity.
    + injection E as _ <-. rewrite !app_nil_r. split; reflexivity.
  - injection E as _ <-. rewrite !app_nil_r. split; reflexivity.
Qed.

Lemma emits_stateTraversal (obj : json) (l : layer) :
  emits isStateWarning noCritical (traverseTokens obj stateCallback [] l tt)
        (flat_map stateFinding (tokensIn obj [])) [].
Proof.
  eapply emits_eq.
  - apply (emits_traverse isStateWarning noCritical obj stateCallback l
             stateFinding (fun _ => [])).
    intros p t acc. apply emits_stateCallback.
  - reflexivity.
  - induction (tokensIn obj []); simpl; auto.
Qed.

Ltac state_step :=
  match goal with
  | |- forall _, _ => intro
  | |- emits _ _ (bind _ _) _ _ => eapply emits_bind
  | |- emits _ _ (traverseTokens _ stateCallback _ _ _) _ _ =>
      apply emits_stateTraversal
  | |- emits _ _ _ _ _ => apply emits_of_keeps; untouched_checker
  end.

Lemma emits_state_runChecks (primitiveTokens semanticTokens : json) :
  emits isStateWarning noCritical (runChecks primitiveTokens semanticTokens)
        (flat_map stateFinding (tokensIn semanticTokens [])) [].
Proof.
  unfold runChecks.
  eapply emits_eq.
  - eapply emits_bind;
      [apply emits_of_keeps; unfold checkDTCGCompliance; untouched_checker
      | intros _].
    eapply emits_bind;
      [apply emits_of_keeps; unfold checkReferenceIntegrity;
       untouched_checker
      | intros _].
    eapply emits_bind;
      [unfold checkNamingConventions; repeat state_step | intros _].
    apply emits_of_keeps.
    apply keeps_bind;
      [apply untouched_trans
      | unfold checkValueFormatConsistency; untouched_checker | intros _].
    apply keeps_bind;
      [apply untouched_trans
      | unfold checkCompleteness; untouched_checker | intros _].
    unfold checkQuality. untouched_checker.
  - simpl. rewrite !app_nil_r. reflexivity.
  - reflexivity.
Qed.

Lemma depthWarnings_app (ts us : list (list string * json)) :
  depthWarnings (ts ++ us) = depthWarnings ts ++ depthWarnings us.
Proof. unfold depthWarnings. rewrite filter_app, map_app. reflexivity. Qed.

(** C4, as the code has it.  The depth check is one test, on the number of
    segments of the path, in both layers: the depth warnings of a report
    are one for each token whose path has more than four segments.  A path
    of four segments gets none; a path of five segments gets one, whatever
    its last segment, a state name included.  The naming checker walks the
    semantic tree only: a semantic token with a path of five segments that
    ends in a state name gets a second warning, that a token with a state
    should have four levels, and a primitive token gets none. *)
Theorem depth_warning_boundary (primitiveTokens semanticTokens : json)
    (rep : report) :
  audit primitiveTokens semanticTokens = inr rep ->
  filter isDepthWarning (warnings (findings rep))
  = depthWarnings (tokensIn primitiveTokens [] ++ tokensIn semanticTokens [])
  /\ filter isStateWarning (warnings (findings rep))
     = flat_map stateFinding (tokensIn semanticTokens [])
  /\ (forall a b c d tok, depthWarnings [([a; b; c; d], tok)] = [])
  /\ (forall a b c d e tok,
        depthWarnings [([a; b; c; d; e], tok)]
        = [DepthExceeded (getTokenPath [a; b; c; d; e]) 5])
  /\ (forall a b c d e tok,
        stateFinding ([a; b; c; d; e], tok)
        = if includes states e
          then [StateNotFourLevels (getTokenPath [a; b; c; d; e]) e]
          else []).
Proof.
  unfold audit. intros E.
  destruct (runChecks primitiveTokens semanticTokens results0)
    as [[] r|] eqn:Er; [|discriminate].
  injection E as <-.
  destruct (emits_depth_runChecks _ _ _ _ _ Er) as (Hd & _).
  destruct (emits_state_runChecks _ _ _ _ _ Er) as (Hs & _).
  split; [|split; [|split; [|split]]].
  - rewrite depthWarnings_app. exact Hd.
  - exact Hs.
  - reflexivity.
  - reflexivity.
  - intros a b c d e tok. unfold stateFinding.
    cbn [fst lastSegment List.length Nat.sub nth_error].
    destruct (includes states e); reflexivity.
Qed.

Lemma depth_warning_boundary_witness :
  exists rep,
    audit primitiveA semanticDeep = inr rep
    /\ filter isDepthWarning (warnings (findings rep))
       = [DepthExceeded "color.text.neutral.base.hover" 5]
    /\ filter isStateWarning (warnings (findings rep))
       = [StateNotFourLevels "color.text.neutral.base.hover" "hover"].
Proof.
  eexists. split; [vm_compute; reflexivity|].
  match goal with
  | |- filter _ (warnings (findings ?rep)) = _ /\ _ =>
      destruct (depth_warning_boundary primitiveA semanticDeep rep)
        as (Hd & Hs & _)
  end.
  - vm_compute. reflexivity.
  - split; [rewrite Hd | rewrite Hs]; vm_compute; reflexivity.
Defined.

(** ** Findings that are reported twice *)

Lemma withFindings_results0 r : withFindings r results0 = r.
Proof. destruct r. unfold withFindings. simpl. rewrite !app_nil_r. reflexivity. Qed.

Lemma withFindings_assoc r d1 d2 :
  withFindings (withFindings r d1) d2 = withFindings r (withFindings d1 d2).
Proof. unfold withFindings. simpl. rewrite !app_assoc. reflexivity. Qed.

Lemma framed_ret {A} (a : A) : framed (ret a).
Proof. intros r. unfold ret. rewrite withFindings_results0. reflexivity. Qed.

Lemma framed_throw {A} (e : error) : framed (@throw A e).
Proof. intros r. reflexivity. Qed.

Lemma framed_addWarning msg : framed (addWarning msg).
Proof.
  intros r. unfold addWarning, withFindings. simpl.
  rewrite app_nil_r. reflexivity.
Qed.

Lemma framed_addCritical msg : framed (addCritical msg).
Proof.
  intros r. unfold addCritical, withFindings. simpl.
  rewrite app_nil_r. reflexivity.
Qed.

Lemma framed_bind {A B} (m : M A) (k : A -> M B) :
  framed m -> (forall a, framed (k a)) -> framed (bind m k).
Proof.
  intros Hm Hk r. unfold bind. rewrite (Hm r).
  destruct (m results0) as [a d1|e]; [|reflexivity].
  rewrite (Hk a (withFindings r d1)), (Hk a d1).
  destruct (k a results0) as [b d2|e]; [|reflexivity].
  rewrite withFindings_assoc. reflexivity.
Qed.

Ltac framed_step :=
  match goal with
  | |- forall _, _ => intro
  | |- framed (bind _ _) => apply framed_bind
  | |- framed (ret _) => apply framed_ret
  | |- framed (throw _) => apply framed_throw
  | |- framed (addWarning _) => apply framed_addWarning
  | |- framed (addCritical _) => apply framed_addCritical
  | |- framed (when _ _) => unfold when
  | |- framed (hasProp _ _) => unfold hasProp
  | |- framed (toNumberM _) => unfold toNumberM
  | |- framed (render _) => unfold render
  | |- framed (lessThan _ _) => unfold lessThan
  | |- framed (greaterThan _ _) => unfold greaterThan
  | |- framed (orM _ _) => unfold orM
  | |- framed (testHex _) => unfold testHex
  | H : _ |- framed _ => solve [apply H]
  | |- framed (if ?b then _ else _) => destruct b
  | |- framed (match ?x with _ => _ end) => destruct x
  | |- framed (let _ := _ in _) => cbv zeta
  end.

Lemma framed_missingProps required value : framed (missingProps required value).
Proof. induction required; simpl; repeat framed_step. Qed.

Lemma framed_validateColorValue value tokenPath :
  framed (validateColorValue value tokenPath).
Proof.
  pose proof framed_missingProps.
  unfold validateColorValue. repeat framed_step.
Qed.

Lemma framed_validateDimensionValue value tokenPath :
  framed (validateDimensionValue value tokenPath).
Proof. unfold validateDimensionValue. repeat framed_step. Qed.

Lemma filter_all {A} (k : A -> bool) (l : list A) :
  filter (fun x => negb (k x)) l = [] -> filter k l = l.
Proof.
  induction l as [|x l IH]; simpl; [reflexivity|].
  destruct (k x); simpl; [intros H; rewrite IH; auto | discriminate].
Qed.

(** A validator whose findings are all of the kinds [kw] and [kc] adds,
    in every state, the findings that it records in the initial one. *)
Lemma emits_framed (kw : warningMsg -> bool) (kc : criticalMsg -> bool)
    (m : M bool) :
  framed m ->
  keeps (untouched (fun w => negb (kw w)) (fun c => negb (kc c))) m ->
  emits kw kc m (fst (findingsOf m)) (snd (findingsOf m)).
Proof.
  intros Hf Hk r b r' E. rewrite (Hf r) in E. unfold findingsOf.
  destruct (m results0) as [b0 d|e] eqn:E0; [|discriminate].
  injection E as _ <-. destruct (Hk _ _ _ E0) as (Hw & Hc).
  cbn [warnings critical withFindings fst snd]. rewrite !filter_app.
  rewrite (filter_all kw _ Hw), (filter_all kc _ Hc). split; reflexivity.
Qed.

Lemma emits_validateColorValue value tokenPath :
  emits isComponentWarning isColorCritical
        (validateColorValue value tokenPath)
        (fst (findingsOf (validateColorValue value tokenPath)))
        (snd (findingsOf (validateColorValue value tokenPath))).
Proof.
  apply emits_framed; [apply framed_validateColorValue | untouched_checker].
Qed.

Lemma emits_validateDimensionValue value tokenPath :
  emits isUnitWarning isDimensionCritical
        (validateDimensionValue value tokenPath)
        (fst (findingsOf (validateDimensionValue value tokenPath)))
        (snd (findingsOf (validateDimensionValue value tokenPath))).
Proof.
  apply emits_framed;
    [apply framed_validateDimensionValue | untouched_checker].
Qed.

Lemma emits_then {A B} kw kc (m : M A) (k : A -> M B) ws cs :
  emits kw kc m ws cs -> (forall a, keeps (untouched kw kc) (k a)) ->
  emits kw kc (bind m k) ws cs.
Proof.
  intros Hm Hk.
  eapply emits_eq;
    [apply emits_bind; [exact Hm | intros a; apply emits_of_keeps, Hk]
    | apply app_nil_r ..].
Qed.

Lemma emits_color_valueFormatCallback p t l acc :
  emits isComponentWarning isColorCritical (valueFormatCallback p t l acc)
        (fst (colorFindings (p, t))) (snd (colorFindings (p, t))).
Proof.
  unfold valueFormatCallback, colorFindings. cbn [fst snd]. cbv zeta.
  destruct (eqString (getProp t "$type") "color").
  - apply emits_then; [apply emits_validateColorValue|].
    intros. apply keeps_ret, untouched_refl.
  - apply emits_of_keeps. untouched_checker.
Qed.

Lemma emits_color_colorFormatCallback p t l acc :
  emits isComponentWarning isColorCritical (colorFormatCallback p t l acc)
        (fst (colorFindings (p, t))) (snd (colorFindings (p, t))).
Proof.
  unfold colorFormatCallback, colorFindings. cbn [fst snd].
  destruct (eqString (getProp t "$type") "color").
  - apply emits_then; [apply emits_validateColorValue|].
    intros. apply keeps_ret, untouched_refl.
  - apply emits_of_keeps. untouched_checker.
Qed.

Lemma eqString_color_dimension (v : option json) :
  eqString v "color" = true -> eqString v "dimension" = false.
Proof.
  destruct v as [[| | |s| |]|]; simpl; try discriminate.
  intros H. apply String.eqb_eq in H. subst s. reflexivity.
Qed.

Lemma emits_dimension_valueFormatCallback p t l acc :
  emits isUnitWarning isDimensionCritical (valueFormatCallback p t l acc)
        (fst (dimensionFindings (p, t))) (snd (dimensionFindings (p, t))).
Proof.
  unfold valueFormatCallback, dimensionFindings. cbn [fst snd]. cbv zeta.
  destruct (eqString (getProp t "$type") "color") eqn:Ec.
  - rewrite (eqString_color_dimension _ Ec).
    apply emits_of_keeps. untouched_checker.
  - destruct (eqString (getProp t "$type") "dimension").
    + apply emits_then; [apply emits_validateDimensionValue|].
      intros. apply keeps_ret, untouched_refl.
    + apply emits_of_keeps. untouched_checker.
Qed.

Lemma emits_dimension_dimensionFormatCallback p t l acc :
  emits isUnitWarning isDimensionCritical (dimensionFormatCallback p t l acc)
        (fst (dimensionFindings (p, t))) (snd (dimensionFindings (p, t))).
Proof.
  unfold dimensionFormatCallback, dimensionFindings. cbn [fst snd].
  destruct (eqString (getProp t "$type") "dimension").
  - apply emits_then; [apply emits_validateDimensionValue|].
    intros. apply keeps_ret, untouched_refl.
  - apply emits_of_keeps. untouched_checker.
Qed.

Ltac color_step :=
  match goal with
  | |- forall _, _ => intro
  | |- emits _ _ (bind _ _) _ _ => eapply emits_bind
  | |- emits _ _ (traverseTokens _ valueFormatCallback _ _ _) _ _ =>
      apply (emits_traverse _ _ _ valueFormatCallback primitive
               (fun pt => fst (colorFindings pt))
               (fun pt => snd (colorFindings pt)));
      intros; apply emits_color_valueFormatCallback
  | |- emits _ _ (traverseTokens _ colorFormatCallback _ _ _) _ _ =>
      apply (emits_traverse _ _ _ colorFormatCallback primitive
               (fun pt => fst (colorFindings pt))
               (fun pt => snd (colorFindings pt)));
      intros; apply emits_color_colorFormatCallback
  | |- emits _ _ _ _ _ => apply emits_of_keeps; untouched_checker
  end.

Ltac dimension_step :=
  match goal with
  | |- forall _, _ => intro
  | |- emits _ _ (bind _ _) _ _ => eapply emits_bind
  | |- emits _ _ (traverseTokens _ valueFormatCallback _ _ _) _ _ =>
      apply (emits_traverse _ _ _ valueFormatCallback primitive
               (fun pt => fst (dimensionFindings pt))
               (fun pt => snd (dimensionFindings pt)));
      intros; apply emits_dimension_valueFormatCallback
  | |- emits _ _ (traverseTokens _ dimensionFormatCallback _ _ _) _ _ =>
      apply (emits_traverse _ _ _ dimensionFormatCallback primitive
               (fun pt => fst (dimensionFindings pt))
               (fun pt => snd (dimensionFindings pt)));
      intros; apply emits_dimension_dimensionFormatCallback
  | |- emits _ _ _ _ _ => apply emits_of_keeps; untouched_checker
  end.

Lemma emits_color_runChecks (primitiveTokens semanticTokens : json) :
  let ws := flat_map (fun pt => fst (colorFindings pt))
                     (tokensIn primitiveTokens []) in
  let cs := flat_map (fun pt => snd (colorFindings pt))
                     (tokensIn primitiveTokens []) in
  emits isComponentWarning isColorCritical
        (runChecks primitiveTokens semanticTokens) (ws ++ ws) (cs ++ cs).
Proof.
  intros ws cs. unfold runChecks.
  eapply emits_eq.
  - eapply emits_bind;
      [unfold checkDTCGCompliance; repeat color_step | intros _].
    eapply emits_bind;
      [apply emits_of_keeps; unfold checkReferenceIntegrity;
       untouched_checker | intros _].
    eapply emits_bind;
      [apply emits_of_keeps; unfold checkNamingConventions;
       untouched_checker | intros _].
    eapply emits_bind;
      [unfold checkValueFormatConsistency; repeat color_step | intros _].
    apply emits_of_keeps.
    apply keeps_bind;
      [apply untouched_trans
      | unfold checkCompleteness; untouched_checker | intros _].
    unfold checkQuality. untouched_checker.
  - subst ws. simpl. rewrite !app_nil_r. reflexivity.
  - subst cs. simpl. rewrite !app_nil_r. reflexivity.
Qed.

Lemma emits_dimension_runChecks (primitiveTokens semanticTokens : json) :
  let ws := flat_map (fun pt => fst (dimensionFindings pt))
                     (tokensIn primitiveTokens []) in
  let cs := flat_map (fun pt => snd (dimensionFindings pt))
                     (tokensIn primitiveTokens []) in
  emits isUnitWarning isDimensionCritical
        (runChecks primitiveTokens semanticTokens) (ws ++ ws) (cs ++ cs).
Proof.
  intros ws cs. unfold runChecks.
  eapply emits_eq.
  - eapply emits_bind;
      [unfold checkDTCGCompliance; repeat dimension_step | intros _].
    eapply emits_bind;
      [apply emits_of_keeps; unfold checkReferenceIntegrity;
       untouched_checker | intros _].
    eapply emits_bind;
      [apply emits_of_keeps; unfold checkNamingConventions;
       untouched_checker | intros _].
    eapply emits_bind;
      [unfold checkValueFormatConsistency; repeat dimension_step | intros _].
    apply emits_of_keeps.
    apply keeps_bind;
      [apply untouched_trans
      | unfold checkCompleteness; untouched_checker | intros _].
    unfold checkQuality. untouched_checker.
  - subst ws. simpl. rewrite !app_nil_r. reflexivity.
  - subst cs. simpl. rewrite !app_nil_r. reflexivity.
Qed.

(** X19.  The findings of the colour and of the dimension validator are reported
    twice.  The compliance checker and the format checker both validate the
    value of every primitive token of type color and of type dimension, so
    the report lists each critical finding and each warning of the two
    validators two times: the colour findings of a run are the colour
    findings of the primitive tokens, in the order of the visit, followed by
    the same list again, and so are the dimension findings. *)
Theorem value_findings_are_reported_twice
    (primitiveTokens semanticTokens : json) (rep : report) :
  audit primitiveTokens semanticTokens = inr rep ->
  let tokens := tokensIn primitiveTokens [] in
  let colorWarnings := flat_map (fun pt => fst (colorFindings pt)) tokens in
  let colorCriticals := flat_map (fun pt => snd (colorFindings pt)) tokens in
  let unitWarnings := flat_map (fun pt => fst (dimensionFindings pt)) tokens in
  let dimensionCriticals :=
    flat_map (fun pt => snd (dimensionFindings pt)) tokens in
  filter isColorCritical (critical (findings rep))
  = colorCriticals ++ colorCriticals
  /\ filter isComponentWarning (warnings (findings rep))
     = colorWarnings ++ colorWarnings
  /\ filter isDimensionCritical (critical (findings rep))
     = dimensionCriticals ++ dimensionCriticals
  /\ filter isUnitWarning (warnings (findings rep))
     = unitWarnings ++ unitWarnings.
Proof.
  intros E. cbv zeta. unfold audit in E.
  destruct (runChecks primitiveTokens semanticTokens results0)
    as [[] r|] eqn:Er; [|discriminate].
  injection E as <-.
  destruct (emits_color_runChecks _ _ _ _ _ Er) as (Hw & Hc).
  destruct (emits_dimension_runChecks _ _ _ _ _ Er) as (Hw' & Hc').
  cbn [findings printResults]. auto.
Qed.

Lemma value_findings_are_reported_twice_witness :
  exists rep,
    audit primitiveAlias semanticA = inr rep
    /\ filter isColorCritical (critical (findings rep))
       = [ColorStringFormat "color.link" "{color.brand.600}";
          ColorStringFormat "color.link" "{color.brand.600}"].
Proof.
  eexists. split; [vm_compute; reflexivity|].
  match goal with
  | |- filter _ (critical (findings ?rep)) = _ =>
      destruct (value_findings_are_reported_twice primitiveAlias semanticA rep)
        as (H & _)
  end.
  - vm_compute. reflexivity.
  - rewrite H. reflexivity.
Defined.

(** ** The exact effect of the naming checker *)

Lemma effect_ret {A} (a : A) : effect (ret a) a [] [] [].
Proof.
  intros r. exists r. rewrite !app_nil_r. repeat split.
Qed.

Lemma effect_addPass msg : effect (addPass msg) tt [msg] [] [].
Proof.
  intros r. eexists. split; [reflexivity|]. simpl.
  rewrite !app_nil_r. repeat split.
Qed.

Lemma effect_addWarning msg : effect (addWarning msg) tt [] [msg] [].
Proof.
  intros r. eexists. split; [reflexivity|]. simpl.
  rewrite !app_nil_r. repeat split.
Qed.

Lemma effect_addCritical msg : effect (addCritical msg) tt [] [] [msg].
Proof.
  intros r. eexists. split; [reflexivity|]. simpl.
  rewrite !app_nil_r. repeat split.
Qed.

Lemma effect_bind {A B} (m : M A) (k : A -> M B) a b ps ws cs ps' ws' cs' :
  effect m a ps ws cs -> effect (k a) b ps' ws' cs' ->
  effect (bind m k) b (ps ++ ps') (ws ++ ws') (cs ++ cs').
Proof.
  intros Hm Hk r.
  destruct (Hm r) as (r1 & E1 & Hp & Hw & Hc).
  destruct (Hk r1) as (r2 & E2 & Hp' & Hw' & Hc').
  exists r2. unfold bind. rewrite E1, E2, Hp', Hw', Hc', Hp, Hw, Hc.
  rewrite !app_assoc. repeat split.
Qed.

Lemma effect_eq {A} (m : M A) a ps ws cs ps' ws' cs' :
  effect m a ps ws cs -> ps = ps' -> ws = ws' -> cs = cs' ->
  effect m a ps' ws' cs'.
Proof. intros H <- <- <-. exact H. Qed.

Lemma effect_count l : effect (modifyStats (countToken l)) tt [] [] [].
Proof.
  intros r. eexists. split; [reflexivity|]. simpl.
  rewrite !app_nil_r. repeat split.
Qed.

Lemma effect_fold {A} (callback : list string -> json -> layer -> A -> M A)
    (l : layer) (g : A -> list string * json -> A)
    (fw : list string * json -> list warningMsg)
    (fc : list string * json -> list criticalMsg)
    (ts : list (list string * json)) :
  (forall p t acc,
      effect (callback p t l acc) (g acc (p, t)) [] (fw (p, t)) (fc (p, t))) ->
  forall acc,
    effect (foldM (visitToken callback l) ts acc)
           (fold_left g ts acc) [] (flat_map fw ts) (flat_map fc ts).
Proof.
  intros Hc. induction ts as [|[p t] ts IH]; intros acc.
  - apply effect_ret.
  - cbn [foldM fold_left flat_map].
    eapply effect_eq.
    + eapply effect_bind; [|apply IH].
      unfold visitToken. cbn [fst snd].
      eapply effect_bind; [apply Hc|].
      eapply effect_bind; [apply effect_count | apply effect_ret].
    + reflexivity.
    + rewrite !app_nil_r. reflexivity.
    + rewrite !app_nil_r. reflexivity.
Qed.

Lemma effect_traverse {A} (obj : json)
    (callback : list string -> json -> layer -> A -> M A)
    (l : layer) (g : A -> list string * json -> A)
    (fw : list string * json -> list warningMsg)
    (fc : list string * json -> list criticalMsg) acc :
  obj <> JNull ->
  (forall p t acc,
      effect (callback p t l acc) (g acc (p, t)) [] (fw (p, t)) (fc (p, t))) ->
  effect (traverseTokens obj callback [] l acc)
         (fold_left g (tokensIn obj []) acc) []
         (flat_map fw (tokensIn obj [])) (flat_map fc (tokensIn obj [])).
Proof.
  intros Hnn Hc r.
  destruct (effect_fold callback l g fw fc (tokensIn obj []) Hc acc r)
    as (r' & E & H).
  exists r'. rewrite traverseTokens_fold by exact Hnn. auto.
Qed.

Lemma effect_layerPrefixCallback p t l n :
  effect (layerPrefixCallback p t l n)
         (if hasLayerPrefix (p, t) then S n else n) []
         [] (layerPrefixFinding (p, t)).
Proof.
  unfold layerPrefixCallback, layerPrefixFinding, hasLayerPrefix.
  cbn [fst]. cbv zeta.
  destruct (isLayerPrefixed (getTokenPath p)).
  - eapply effect_eq;
      [eapply effect_bind; [apply effect_addCritical | apply effect_ret]
      | reflexivity ..].
  - apply effect_ret.
Qed.

Lemma effect_stateCallback p t l a :
  effect (stateCallback p t l a) tt [] (stateFinding (p, t)) [].
Proof.
  unfold stateCallback, stateFinding. cbn [fst].
  destruct (lastSegment p) as [last|]; [|destruct a; apply effect_ret].
  destruct (includes states last && negb (List.length p =? 4)); simpl.
  - apply effect_addWarning.
  - destruct a. apply effect_ret.
Qed.

Lemma count_prefixed (ts : list (list string * json)) :
  forall n,
    fold_left (fun n pt => if hasLayerPrefix pt then S n else n) ts n
    = n + count hasLayerPrefix ts.
Proof.
  unfold count. induction ts as [|pt ts IH]; intros n; simpl; [lia|].
  rewrite IH. destruct (hasLayerPrefix pt); simpl; lia.
Qed.

Lemma count_zero_existsb {A} (f : A -> bool) (l : list A) :
  (count f l =? 0) = negb (existsb f l).
Proof.
  unfold count. induction l as [|x l IH]; simpl; [reflexivity|].
  destruct (f x); simpl; [reflexivity | exact IH].
Qed.

Lemma effect_when b (m : M unit) ps ws cs :
  effect m tt ps ws cs ->
  effect (when b m) tt (if b then ps else []) (if b then ws else [])
         (if b then cs else []).
Proof. intros H. destruct b; [exact H | apply effect_ret]. Qed.

Lemma count_app {A} (f : A -> bool) (l l' : list A) :
  count f (l ++ l') = count f l + count f l'.
Proof. unfold count. rewrite filter_app, length_app. reflexivity. Qed.

Lemma flat_map_nil {A B} (l : list A) :
  flat_map (fun _ : A => @nil B) l = [].
Proof. induction l; simpl; auto. Qed.

(** The effect of the naming checker without a bound on the stack. *)
Lemma effect_checkNamingConventions (primitiveTokens semanticTokens : json) :
  primitiveTokens <> JNull ->
  semanticTokens <> JNull ->
  effect (checkNamingConventions primitiveTokens semanticTokens) tt
    (if existsb hasLayerPrefix
          (tokensIn primitiveTokens [] ++ tokensIn semanticTokens [])
     then [] else [NoLayerPrefixInPaths; NamingFollowsConvention])
    (flat_map stateFinding (tokensIn semanticTokens []))
    (flat_map layerPrefixFinding (tokensIn primitiveTokens [])
     ++ flat_map layerPrefixFinding (tokensIn semanticTokens [])).
Proof.
  intros Hp Hs. unfold checkNamingConventions.
  eapply effect_eq.
  - eapply effect_bind.
    { apply (effect_traverse primitiveTokens layerPrefixCallback primitive
               (fun n pt => if hasLayerPrefix pt then S n else n)
               (fun _ => []) layerPrefixFinding 0 Hp).
      intros. apply effect_layerPrefixCallback. }
    eapply effect_bind.
    { apply (effect_traverse semanticTokens layerPrefixCallback semantic
               (fun n pt => if hasLayerPrefix pt then S n else n)
               (fun _ => []) layerPrefixFinding _ Hs).
      intros. apply effect_layerPrefixCallback. }
    eapply effect_bind.
    { apply (effect_traverse semanticTokens stateCallback semantic
               (fun a _ => a) stateFinding (fun _ => []) tt Hs).
      intros p t []. apply effect_stateCallback. }
    apply effect_when.
    eapply effect_bind; apply effect_addPass.
  - rewrite !count_prefixed, Nat.add_0_l, <- count_app, count_zero_existsb.
    destruct (existsb hasLayerPrefix _); reflexivity.
  - rewrite !flat_map_nil.
    destruct (_ =? 0); cbn [app]; rewrite ?app_nil_r; reflexivity.
  - rewrite !flat_map_nil.
    destruct (_ =? 0); cbn [app]; rewrite ?app_nil_r; reflexivity.
Qed.

(** X20.  The naming checker, on two trees that are not [null] and whose
    groups are nested no deeper than the stack holds nested calls, returns
    from every state and adds exactly this: a critical finding for each
    token path, of the primitive tree and then of the semantic tree, that
    starts with "primitive." or "semantic."; a warning for each semantic
    token whose last segment is a state name and whose path has not four
    segments; and its two passing checks, both or none, exactly when no
    token path starts with a layer name.  The warnings about states do not
    withhold the passing check on the naming convention. *)
Theorem naming_checker_effect (primitiveTokens semanticTokens : json)
    (stack : nat) :
  primitiveTokens <> JNull ->
  semanticTokens <> JNull ->
  groupDepth primitiveTokens <= stack ->
  groupDepth semanticTokens <= stack ->
  effect (checkNamingConventionsWithin stack primitiveTokens semanticTokens) tt
    (if existsb hasLayerPrefix
          (tokensIn primitiveTokens [] ++ tokensIn semanticTokens [])
     then [] else [NoLayerPrefixInPaths; NamingFollowsConvention])
    (flat_map stateFinding (tokensIn semanticTokens []))
    (flat_map layerPrefixFinding (tokensIn primitiveTokens [])
     ++ flat_map layerPrefixFinding (tokensIn semanticTokens [])).
Proof.
  intros Hp Hs Hdp Hds r.
  rewrite checkNamingConventionsWithin_fits by assumption.
  exact (effect_checkNamingConventions _ _ Hp Hs r).
Qed.

Lemma naming_checker_effect_witness :
  effect (checkNamingConventionsWithin 4 primitiveA semanticDeep) tt
    (if existsb hasLayerPrefix
          (tokensIn primitiveA [] ++ tokensIn semanticDeep [])
     then [] else [NoLayerPrefixInPaths; NamingFollowsConvention])
    (flat_map stateFinding (tokensIn semanticDeep []))
    (flat_map layerPrefixFinding (tokensIn primitiveA [])
     ++ flat_map layerPrefixFinding (tokensIn semanticDeep [])).
Proof.
  apply (naming_checker_effect primitiveA semanticDeep 4);
    try discriminate; vm_compute; lia.
Defined.

(** ** The exact effect of the completeness checker *)

Lemma effect_value {A} (m : M A) a a' ps ws cs :
  effect m a ps ws cs -> a = a' -> effect m a' ps ws cs.
Proof. intros H <-. exact H. Qed.

Lemma effect_indexTraversal (obj : json) (l : layer) :
  obj <> JNull ->
  effect (traverseTokens obj indexCallback [] l [])
         (fold_left setAdd (tokenPaths (tokensIn obj [])) []) [] [] [].
Proof.
  intros Hnn. eapply effect_value; [eapply effect_eq|].
  - apply (effect_traverse obj indexCallback l
             (fun index pt => setAdd index (getTokenPath (fst pt)))
             (fun _ => []) (fun _ => []) [] Hnn).
    intros. unfold indexCallback. apply effect_ret.
  - reflexivity.
  - apply flat_map_nil.
  - apply flat_map_nil.
  - unfold tokenPaths. generalize (tokensIn obj []). intros ts.
    generalize (@nil string).
    induction ts as [|pt ts IH]; intros acc; simpl; [reflexivity | apply IH].
Qed.

Lemma existsb_ext_In {A} (f : A -> bool) (l l' : list A) :
  (forall x, In x l <-> In x l') -> existsb f l = existsb f l'.
Proof.
  intros H. destruct (existsb f l') eqn:E.
  - apply existsb_exists in E. destruct E as (x & Hin & Hf).
    apply existsb_exists. exists x. split; [apply H, Hin | exact Hf].
  - destruct (existsb f l) eqn:E'; [|reflexivity].
    apply existsb_exists in E'. destruct E' as (x & Hin & Hf).
    assert (Ht : existsb f l' = true)
      by (apply existsb_exists; exists x; split; [apply H, Hin | exact Hf]).
    congruence.
Qed.

Lemma index_same_members (paths : list string) :
  forall x, In x (fold_left setAdd paths []) <-> In x paths.
Proof. intros x. rewrite fold_setAdd_In. simpl. tauto. Qed.

Lemma effect_checkEssentials (index : list string) (essentials : list string) :
  forall n,
    effect (checkEssentials index essentials n)
           (n + List.length
                  (filter (fun e => negb (existsb (fun path => startsWith path e)
                                                  index)) essentials))
           []
           (map MissingEssential
                (filter (fun e => negb (existsb (fun path => startsWith path e)
                                                index)) essentials))
           [].
Proof.
  induction essentials as [|e es IH]; intros n.
  - simpl. rewrite Nat.add_0_r. apply effect_ret.
  - rewrite checkEssentials_cons. cbn [filter].
    destruct (negb (existsb (fun path => startsWith path e) index)).
    + eapply effect_value; [eapply effect_eq|].
      * eapply effect_bind; [apply effect_addWarning | apply IH].
      * reflexivity.
      * reflexivity.
      * reflexivity.
      * simpl. lia.
    + apply IH.
Qed.

Lemma scales_fold (category : string) (ts : list (list string * json)) :
  forall acc,
    fold_left (fun found pt =>
                 if segmentIs (segment (fst pt) 0) "color"
                    && segmentIs (segment (fst pt) 1) category
                 then found ++ [segment (fst pt) 2] else found) ts acc
    = acc ++ scalesFound ts category.
Proof.
  unfold scalesFound.
  induction ts as [|pt ts IH]; intros acc; simpl.
  - rewrite app_nil_r. reflexivity.
  - rewrite IH. destruct (_ && _); [rewrite <- app_assoc|]; reflexivity.
Qed.

Lemma effect_checkScale (primitiveTokens : json) (category : string) :
  primitiveTokens <> JNull ->
  effect (checkScale primitiveTokens category) tt
         match missingScales (tokensIn primitiveTokens []) category with
         | [] => [ScaleComplete category]
         | _ => []
         end
         match missingScales (tokensIn primitiveTokens []) category with
         | [] => []
         | missing => [MissingScales category missing]
         end
         [].
Proof.
  intros Hnn. unfold checkScale.
  eapply effect_eq.
  - eapply effect_bind.
    { apply (effect_traverse primitiveTokens (scaleCallback category) primitive
               (fun found pt =>
                  if segmentIs (segment (fst pt) 0) "color"
                     && segmentIs (segment (fst pt) 1) category
                  then found ++ [segment (fst pt) 2] else found)
               (fun _ => []) (fun _ => []) [] Hnn).
      intros p t acc. unfold scaleCallback. cbn [fst].
      destruct (_ && _); apply effect_ret. }
    rewrite scales_fold. cbn [app]. cbv zeta.
    fold (missingScales (tokensIn primitiveTokens []) category).
    instantiate (1 := match missingScales (tokensIn primitiveTokens []) category
                      with [] => [] | _ => [] end).
    instantiate (1 := match missingScales (tokensIn primitiveTokens []) category
                      with [] => [] | missing => [MissingScales category missing]
                      end).
    instantiate (1 := match missingScales (tokensIn primitiveTokens []) category
                      with [] => [ScaleComplete category] | _ => [] end).
    destruct (missingScales (tokensIn primitiveTokens []) category);
      [apply effect_addPass | apply effect_addWarning].
  - reflexivity.
  - rewrite flat_map_nil. reflexivity.
  - rewrite flat_map_nil.
    destruct (missingScales (tokensIn primitiveTokens []) category);
      reflexivity.
Qed.

Lemma effect_forEach_checkScale (primitiveTokens : json)
    (categories : list string) :
  primitiveTokens <> JNull ->
  effect (forEach (checkScale primitiveTokens) categories) tt
         (flat_map (fun category =>
                      match missingScales (tokensIn primitiveTokens []) category
                      with
                      | [] => [ScaleComplete category]
                      | _ => []
                      end) categories)
         (flat_map (fun category =>
                      match missingScales (tokensIn primitiveTokens []) category
                      with
                      | [] => []
                      | missing => [MissingScales category missing]
                      end) categories)
         [].
Proof.
  intros Hnn. induction categories as [|c cs IH]; cbn [forEach flat_map].
  - apply effect_ret.
  - eapply effect_eq;
      [eapply effect_bind; [apply effect_checkScale, Hnn | exact IH]
      | reflexivity ..].
Qed.

Lemma states_fold (ts : list (list string * json)) :
  forall b,
    fold_left (fun hasStates pt =>
                 if includes_opt statePatterns (lastSegment (fst pt))
                 then true else hasStates) ts b
    = b || statesFound ts.
Proof.
  unfold statesFound. induction ts as [|pt ts IH]; intros b; simpl.
  - rewrite orb_false_r. reflexivity.
  - rewrite IH. destruct (includes_opt _ _), b; reflexivity.
Qed.

Lemma includes_index (paths : list string) (x : string) :
  includes (fold_left setAdd paths []) x = includes paths x.
Proof. apply existsb_ext_In, index_same_members. Qed.

(** The effect of the completeness checker without a bound on the
    stack. *)
Lemma effect_checkCompleteness (primitiveTokens semanticTokens : json) :
  primitiveTokens <> JNull ->
  semanticTokens <> JNull ->
  effect (checkCompleteness primitiveTokens semanticTokens) tt
    (completenessPasses (tokensIn primitiveTokens [])
                        (tokensIn semanticTokens []))
    (completenessWarnings (tokensIn primitiveTokens [])
                          (tokensIn semanticTokens []))
    [].
Proof.
  intros Hp Hs. unfold checkCompleteness.
  eapply effect_eq.
  - eapply effect_bind; [apply effect_indexTraversal, Hs|].
    eapply effect_bind; [apply effect_checkEssentials|].
    eapply effect_bind; [apply effect_forEach_checkScale, Hp|].
    eapply effect_bind.
    { apply (effect_traverse semanticTokens hasStatesCallback semantic
               (fun hasStates pt =>
                  if includes_opt statePatterns (lastSegment (fst pt))
                  then true else hasStates)
               (fun _ => []) (fun _ => []) false Hs).
      intros p t acc. unfold hasStatesCallback. cbn [fst].
      destruct (includes_opt _ _); apply effect_ret. }
    rewrite states_fold. cbn [orb].
    eapply effect_bind.
    { instantiate (1 := if statesFound (tokensIn semanticTokens [])
                        then [] else []).
      instantiate (1 := if statesFound (tokensIn semanticTokens [])
                        then [] else [NoInteractiveStates]).
      instantiate (1 := if statesFound (tokensIn semanticTokens [])
                        then [StatesDefined] else []).
      destruct (statesFound (tokensIn semanticTokens []));
        [apply effect_addPass | apply effect_addWarning]. }
    eapply effect_bind; [apply effect_indexTraversal, Hp|].
    rewrite !includes_index.
    eapply effect_bind.
    { instantiate (1 := if includes (tokenPaths (tokensIn primitiveTokens []))
                                    "color.white" then [] else []).
      instantiate (1 := if includes (tokenPaths (tokensIn primitiveTokens []))
                                    "color.white" then [] else [MissingWhite]).
      instantiate (1 := if includes (tokenPaths (tokensIn primitiveTokens []))
                                    "color.white" then [WhiteDefined] else []).
      destruct (includes (tokenPaths (tokensIn primitiveTokens []))
                         "color.white");
        [apply effect_addPass | apply effect_addWarning]. }
    instantiate (1 := if includes (tokenPaths (tokensIn primitiveTokens []))
                                  "color.black" then [] else []).
    instantiate (1 := if includes (tokenPaths (tokensIn primitiveTokens []))
                                  "color.black" then [] else [MissingBlack]).
    instantiate (1 := if includes (tokenPaths (tokensIn primitiveTokens []))
                                  "color.black" then [BlackDefined] else []).
    destruct (includes (tokenPaths (tokensIn primitiveTokens []))
                       "color.black");
      [apply effect_addPass | apply effect_addWarning].
  - unfold completenessPasses. cbn [app]. rewrite ?flat_map_nil.
    cbn [app]. reflexivity.
  - unfold completenessWarnings, essentialFound.
    rewrite ?flat_map_nil. cbn [app].
    rewrite (filter_ext _ _
               (fun e => f_equal negb
                  (existsb_ext_In (fun path => startsWith path e) _ _
                     (index_same_members
                        (tokenPaths (tokensIn semanticTokens [])))))).
    reflexivity.
  - rewrite ?flat_map_nil.
    destruct (statesFound _), (includes _ "color.white"),
      (includes _ "color.black"); reflexivity.
Qed.

(** X21.  The completeness checker, on two trees that are not [null] and
    whose groups are nested no deeper than the stack holds nested calls,
    returns from every state and adds exactly this.  For each essential
    pattern with which no semantic token path starts, a warning.  For each
    of the six colour categories, one finding: the passing check of the
    complete scale when each of the twelve steps 100 to 1200 is the third
    segment of a primitive token path that begins with "color" and the
    category, and otherwise a warning that lists the steps that are not.
    One finding about the interactive states: the passing check when the
    last segment of some semantic token path is "default", "hover" or
    "pressed", the warning otherwise.  One finding for color.white and one
    for color.black: the passing check when it is the path of a primitive
    token, the warning otherwise.  It adds no critical finding. *)
Theorem completeness_checker_effect (primitiveTokens semanticTokens : json)
    (stack : nat) :
  primitiveTokens <> JNull ->
  semanticTokens <> JNull ->
  groupDepth primitiveTokens <= stack ->
  groupDepth semanticTokens <= stack ->
  effect (checkCompletenessWithin stack primitiveTokens semanticTokens) tt
    (completenessPasses (tokensIn primitiveTokens [])
                        (tokensIn semanticTokens []))
    (completenessWarnings (tokensIn primitiveTokens [])
                          (tokensIn semanticTokens []))
    [].
Proof.
  intros Hp Hs Hdp Hds r.
  rewrite checkCompletenessWithin_fits by assumption.
  exact (effect_checkCompleteness _ _ Hp Hs r).
Qed.

Lemma completeness_checker_effect_witness :
  effect (checkCompletenessWithin 4 primitiveA semanticDeep) tt
    (completenessPasses (tokensIn primitiveA []) (tokensIn semanticDeep []))
    (completenessWarnings (tokensIn primitiveA []) (tokensIn semanticDeep []))
    [].
Proof.
  apply (completeness_checker_effect primitiveA semanticDeep 4);
    try discriminate; vm_compute; lia.
Defined.

(** ** Numbers in their range *)

Lemma remainder_test (q : Q) :
  Qle_bool 100 q = true -> Qle_bool q 900 = true ->
  Qeq_bool (q - 100 * inject_Z (Qtrunc (q / 100))) 0 = isFontWeight q.
Proof.
  intros Hlo Hhi. apply Qle_bool_iff in Hlo, Hhi.
  assert (Hpos : (0 <= q / 100)%Q).
  { apply Qle_shift_div_l; [reflexivity|]. rewrite Qmult_0_l.
    apply Qle_trans with (y := 100%Q); [discriminate | exact Hlo]. }
  unfold Qtrunc. apply Qle_bool_iff in Hpos. rewrite Hpos.
  apply Qle_bool_iff in Hpos.
  set (k := Qfloor (q / 100)).
  assert (Hk1 : (1 <= k)%Z).
  { change 1%Z with (Qfloor 1). apply Qfloor_resp_le.
    apply Qle_shift_div_l; [reflexivity|]. exact Hlo. }
  assert (Hk9 : (k <= 9)%Z).
  { change 9%Z with (Qfloor 9). apply Qfloor_resp_le.
    apply Qle_shift_div_r; [reflexivity|]. exact Hhi. }
  destruct (Qeq_bool (q - 100 * inject_Z k) 0) eqn:E.
  - apply Qeq_bool_iff in E. symmetry. unfold isFontWeight.
    apply existsb_exists. exists (100 * k)%Z. split.
    + unfold fontWeights.
      assert (Hc : (k = 1 \/ k = 2 \/ k = 3 \/ k = 4 \/ k = 5 \/ k = 6
                    \/ k = 7 \/ k = 8 \/ k = 9)%Z) by lia.
      repeat (destruct Hc as [Hc|Hc]; [rewrite Hc; simpl; tauto|]).
      rewrite Hc. simpl. tauto.
    + apply Qeq_bool_iff. rewrite inject_Z_mult.
      apply Qplus_inj_r with (z := (- (100 * inject_Z k))%Q).
      rewrite Qplus_opp_r. exact E.
  - symmetry. unfold isFontWeight.
    destruct (existsb _ fontWeights) eqn:Ex; [exfalso | reflexivity].
    apply existsb_exists in Ex. destruct Ex as (w & Hin & Hw).
    apply Qeq_bool_iff in Hw.
    assert (Hj : exists j, w = (100 * j)%Z).
    { unfold fontWeights in Hin. simpl in Hin.
      repeat (destruct Hin as [<-|Hin];
              [match goal with
               | |- exists j, ?w = _ => exists (w / 100)%Z; reflexivity
               end|]).
      destruct Hin. }
    destruct Hj as (j & ->).
    assert (Hq : (q / 100 == inject_Z j)%Q).
    { rewrite Hw, inject_Z_mult. field. }
    assert (Hkj : k = j).
    { subst k. rewrite (Qfloor_comp _ _ Hq). apply Qfloor_Z. }
    apply Qeq_bool_neq in E. apply E.
    rewrite Hw, Hkj, inject_Z_mult. ring.
Qed.

Lemma outside_font_weights (q : Q) :
  Qle_bool 100 q && Qle_bool q 900 = false -> isFontWeight q = false.
Proof.
  intros H. unfold isFontWeight.
  destruct (existsb _ fontWeights) eqn:Ex; [exfalso | reflexivity].
  apply existsb_exists in Ex. destruct Ex as (w & Hin & Hw).
  apply Qeq_bool_iff in Hw.
  assert (Hr : (100 <= w <= 900)%Z).
  { unfold fontWeights in Hin. simpl in Hin.
    repeat (destruct Hin as [<-|Hin]; [lia|]). destruct Hin. }
  assert (Hlo : Qle_bool 100 q = true).
  { apply Qle_bool_iff. rewrite Hw. change 100%Q with (inject_Z 100).
    rewrite <- Zle_Qle. lia. }
  assert (Hhi : Qle_bool q 900 = true).
  { apply Qle_bool_iff. rewrite Hw. change 900%Q with (inject_Z 900).
    rewrite <- Zle_Qle. lia. }
  rewrite Hlo, Hhi in H. discriminate.
Qed.

Lemma prefix_app (p s : string) : String.prefix p (p ++ s) = true.
Proof.
  induction p as [|a p IH]; simpl; [destruct s; reflexivity|].
  destruct (ascii_dec a a); [exact IH | congruence].
Qed.

Lemma startsWith_first_segment (seg name : string) (rest : list string) :
  startsWith (getTokenPath (seg :: name :: rest)) (seg ++ ".") = true.
Proof.
  unfold startsWith, getTokenPath.
  change (String.concat "." (seg :: name :: rest))
    with (seg ++ "." ++ String.concat "." (name :: rest))%string.
  replace (seg ++ "." ++ String.concat "." (name :: rest))%string
    with ((seg ++ ".") ++ String.concat "." (name :: rest))%string.
  - apply prefix_app.
  - induction seg as [|a seg IH]; [reflexivity|].
    cbn [append]. f_equal. exact IH.
Qed.

(** X22.  The range checks on a numeric value.  For a primitive token of type
    number whose value is the number [q]: below "fontWeight" the token gets
    a warning unless [q] is one of 100, 200, ..., 900; below "lineHeight" it
    gets a warning unless [q] lies between 0.5 and 3; below "opacity" it gets
    a critical finding, which counts as a format issue, unless [q] lies
    between 0 and 1.  A value in its range leaves the results as they
    are. *)
Theorem number_range_checks (props : list (string * json)) (q : Q)
    (name : string) (rest : list string) (formatIssues : nat) (r : results) :
  lookup "$type" props = Some (JStr "number") ->
  lookup "$value" props = Some (JNum q) ->
  numberFormatCallback ("fontWeight" :: name :: rest) (JObj props) primitive
    formatIssues r
  = Returned formatIssues
      (if isFontWeight q then r
       else withWarning r
              (FontWeightRange (getTokenPath ("fontWeight" :: name :: rest))
                               (JNum q)))
  /\ numberFormatCallback ("lineHeight" :: name :: rest) (JObj props) primitive
       formatIssues r
     = Returned formatIssues
         (if inRange (1 # 2) 3 q then r
          else withWarning r
                 (LineHeightRange (getTokenPath ("lineHeight" :: name :: rest))
                                  (JNum q)))
  /\ numberFormatCallback ("opacity" :: name :: rest) (JObj props) primitive
       formatIssues r
     = if inRange 0 1 q then Returned formatIssues r
       else Returned (S formatIssues)
              (withCritical r
                 (OpacityRange (getTokenPath ("opacity" :: name :: rest))
                               (JNum q))).
Proof.
  intros Ht Hv.
  assert (Hval : valueOf (JObj props) = JNum q)
    by (unfold valueOf; cbn [getProp]; rewrite Hv; reflexivity).
  unfold numberFormatCallback. rewrite Hval. cbn [getProp].
  rewrite Ht, Hv. cbn [eqString]. change (String.eqb "number" "number") with true.
  cbv iota zeta.
  change (typeof (Some (JNum q))) with "number".
  change (String.eqb "number" "number") with true. cbn [negb].
  split; [|split].
  - rewrite (startsWith_first_segment "fontWeight" name rest
               : startsWith _ "fontWeight." = true).
    change (startsWith (getTokenPath ("fontWeight" :: name :: rest)) "lineHeight.")
      with false.
    change (startsWith (getTokenPath ("fontWeight" :: name :: rest)) "opacity.")
      with false.
    cbv beta iota delta [bind ret when orM lessThan greaterThan toNumberM render
      convertibleOpt convertible toNumber toNumber_json num_lt num_gt
      num_nonzero num_rem addWarning withWarning].
    destruct (Qle_bool 100 q) eqn:Hlo; cbn [negb];
      [|rewrite outside_font_weights by (rewrite Hlo; reflexivity);
        reflexivity].
    destruct (Qle_bool q 900) eqn:Hhi; cbn [negb];
      [|rewrite outside_font_weights
          by (rewrite Hlo, Hhi; reflexivity); reflexivity].
    rewrite (remainder_test q Hlo Hhi).
    destruct (isFontWeight q); reflexivity.
  - change (startsWith (getTokenPath ("lineHeight" :: name :: rest)) "fontWeight.")
      with false.
    rewrite (startsWith_first_segment "lineHeight" name rest
               : startsWith _ "lineHeight." = true).
    change (startsWith (getTokenPath ("lineHeight" :: name :: rest)) "opacity.")
      with false.
    cbv beta iota delta [bind ret when orM lessThan greaterThan toNumberM render
      convertibleOpt convertible toNumber toNumber_json num_lt num_gt
      addWarning withWarning inRange].
    destruct (Qle_bool (1 # 2) q), (Qle_bool q 3); reflexivity.
  - change (startsWith (getTokenPath ("opacity" :: name :: rest)) "fontWeight.")
      with false.
    change (startsWith (getTokenPath ("opacity" :: name :: rest)) "lineHeight.")
      with false.
    rewrite (startsWith_first_segment "opacity" name rest
               : startsWith _ "opacity." = true).
    cbv beta iota delta [bind ret when orM lessThan greaterThan toNumberM render
      convertibleOpt convertible toNumber toNumber_json num_lt num_gt
      addCritical withCritical inRange].
    destruct (Qle_bool 0 q), (Qle_bool q 1); reflexivity.
Qed.

Lemma number_range_checks_witness :
  numberFormatCallback ["fontWeight"; "bold"]
    (JObj [("$type", JStr "number"); ("$value", JNum 750)]) primitive 0 results0
  = Returned 0
      (if isFontWeight 750 then results0
       else withWarning results0 (FontWeightRange "fontWeight.bold" (JNum 750))).
Proof.
  apply (number_range_checks
           [("$type", JStr "number"); ("$value", JNum 750)] 750 "bold" [] 0
           results0); reflexivity.
Defined.

(** ** The warnings that the summary prints *)

(** X23.  The summary loses no warning from its count.  It prints the first
    warnings in the order in which they were recorded, never more than 20;
    it prints the line about more warnings exactly when some warning was
    left out, and the number in that line is the number of warnings left
    out. *)
Theorem printed_warnings_and_the_rest (r : results) :
  (exists rest, warnings r = printedWarnings r ++ rest
                /\ List.length rest
                   = match moreWarnings r with Some n => n | None => 0 end)
  /\ List.length (printedWarnings r) <= 20
  /\ (moreWarnings r = None <-> printedWarnings r = warnings r)
  /\ (forall n, moreWarnings r = Some n -> 0 < n).
Proof.
  unfold printedWarnings, moreWarnings.
  split; [|split; [|split]].
  - exists (skipn 20 (warnings r)). split.
    + symmetry. apply firstn_skipn.
    + rewrite length_skipn.
      destruct (20 <? List.length (warnings r)) eqn:E; [reflexivity|].
      apply Nat.ltb_ge in E. lia.
  - apply firstn_le_length.
  - destruct (20 <? List.length (warnings r)) eqn:E.
    + apply Nat.ltb_lt in E. split; [discriminate|]. intros H.
      apply (f_equal (@List.length _)) in H.
      rewrite length_firstn in H. lia.
    + apply Nat.ltb_ge in E. split; [|reflexivity]. intros _.
      apply firstn_all2. exact E.
  - intros n. destruct (20 <? List.length (warnings r)) eqn:E;
      [|discriminate].
    apply Nat.ltb_lt in E. intros H. injection H as <-. lia.
Qed.

(** ** Traversal from a path *)

Lemma tokensBelow_prefix (path : list string) (key : string) (value : json) :
  (forall path, tokensIn value path
                = map (fun pt => (path ++ fst pt, snd pt)) (tokensIn value [])) ->
  tokensBelow path key value
  = map (fun pt => (path ++ fst pt, snd pt)) (tokensBelow [] key value).
Proof.
  intros IH. unfold tokensBelow.
  destruct (isMetadataKey key); [reflexivity|].
  destruct (isToken value); [reflexivity|].
  destruct (isGroup value); [|reflexivity].
  rewrite (IH (path ++ [key])), (IH ([] ++ [key])), map_map.
  apply map_ext. intros [p t]. simpl. rewrite <- app_assoc. reflexivity.
Qed.

Lemma tokensIn_prefix (obj : json) :
  forall path,
    tokensIn obj path
    = map (fun pt => (path ++ fst pt, snd pt)) (tokensIn obj []).
Proof.
  induction obj using json_ind; intros path; try reflexivity.
  - rewrite (tokensIn_entries (JArr elems) path _ eq_refl),
      (tokensIn_entries (JArr elems) [] _ eq_refl).
    rewrite flat_map_concat_map, (flat_map_concat_map _ _), concat_map, map_map.
    f_equal. apply map_ext_in. intros [k v] Hin. cbn [fst snd].
    apply tokensBelow_prefix. rewrite Forall_forall in H.
    apply H. exact (in_combine_r _ _ _ _ Hin).
  - rewrite (tokensIn_entries (JObj props) path _ eq_refl),
      (tokensIn_entries (JObj props) [] _ eq_refl).
    rewrite flat_map_concat_map, (flat_map_concat_map _ _), concat_map, map_map.
    f_equal. apply map_ext_in. intros [k v] Hin. cbn [fst snd].
    apply tokensBelow_prefix. rewrite Forall_forall in H.
    exact (H (k, v) Hin).
Qed.

Lemma foldM_map_paths {A} (callback : list string -> json -> layer -> A -> M A)
    (l : layer) (path : list string) (ts : list (list string * json)) :
  forall acc r,
    foldM (visitToken callback l)
          (map (fun pt => (path ++ fst pt, snd pt)) ts) acc r
    = foldM (visitToken (fun p => callback (path ++ p)) l) ts acc r.
Proof.
  induction ts as [|[p t] ts IH]; intros acc r; [reflexivity|].
  cbn [map foldM]. apply bind_ext; [reflexivity | intros; apply IH].
Qed.

(** X24.  The path argument of [traverseTokens] is a prefix and nothing more: a
    traversal that starts from the path [path] does what the traversal from
    the empty path does with a callback that puts [path] before the path it
    receives.  The tokens that are visited, their order and the paths below
    the prefix do not depend on the prefix. *)
Theorem traversal_from_a_path {A} (obj : json)
    (callback : list string -> json -> layer -> A -> M A)
    (path : list string) (l : layer) (acc : A) (r : results) :
  traverseTokens obj callback path l acc r
  = traverseTokens obj (fun p => callback (path ++ p)) [] l acc r.
Proof.
  destruct (json_null_dec obj) as [->|Hnn]; [reflexivity|].
  rewrite !traverseTokens_fold by exact Hnn.
  rewrite (tokensIn_prefix obj path). apply foldM_map_paths.
Qed.

(** ** What a completed run tells about the primitive tokens *)

Lemma foldM_returned_each {A B} (f : A -> B -> M A) (l : list B) :
  forall acc r a r',
    foldM f l acc r = Returned a r' ->
    forall x, In x l -> exists acc0 r0 a0 r1, f acc0 x r0 = Returned a0 r1.
Proof.
  induction l as [|y l IH]; intros acc r a r' E x Hin; [destruct Hin|].
  cbn [foldM] in E. apply bind_returned in E.
  destruct E as (acc1 & r1 & E1 & E2).
  destruct Hin as [<-|Hin]; [eauto | exact (IH _ _ _ _ E2 x Hin)].
Qed.

Lemma traversal_returned_each {A}
    (callback : list string -> json -> layer -> A -> M A)
    (obj : json) (l : layer) acc r a r' :
  traverseTokens obj callback [] l acc r = Returned a r' ->
  forall p t,
    In (p, t) (tokensIn obj []) ->
    exists acc0 r0 a0 r1, callback p t l acc0 r0 = Returned a0 r1.
Proof.
  intros E p t Hin.
  destruct (json_null_dec obj) as [->|Hnn]; [discriminate E|].
  rewrite traverseTokens_fold in E by exact Hnn.
  destruct (foldM_returned_each _ _ _ _ _ _ E (p, t) Hin)
    as (acc0 & r0 & a0 & r1 & E0).
  unfold visitToken in E0. apply bind_returned in E0.
  destruct E0 as (a1 & r2 & E1 & _). eauto.
Qed.

(** X25.  A run that completes has met no primitive token that the quality
    checker cannot handle: the description of every primitive token is
    absent, falsy or a string, and the first segment of its path is no name
    that objects inherit from [Object.prototype].  A primitive token with
    a number, [true], an array or an object as description, or in a group
    named "constructor" or "toString", ends the run with a TypeError. *)
Theorem completed_run_has_handled_every_primitive_token
    (primitiveTokens semanticTokens : json) (rep : report) :
  audit primitiveTokens semanticTokens = inr rep ->
  forallb (fun pt => descriptionIsText (snd pt) && categoryIsOwn (fst pt))
          (tokensIn primitiveTokens []) = true.
Proof.
  unfold audit. intros E.
  destruct (runChecks primitiveTokens semanticTokens results0)
    as [[] r|] eqn:Er; [|discriminate].
  clear E. unfold runChecks in Er.
  do 5 (apply bind_returned in Er; destruct Er as (? & ? & _ & Er)).
  unfold checkQuality in Er.
  apply bind_returned in Er. destruct Er as (n & r1 & E1 & Er).
  apply bind_returned in Er. destruct Er as (sets & r2 & E2 & _).
  apply forallb_forall. intros [p t] Hin. cbn [fst snd].
  apply andb_true_iff. split.
  - destruct (traversal_returned_each _ _ _ _ _ _ _ E1 p t Hin)
      as (acc0 & r0 & a0 & r3 & E0).
    unfold genericDescriptionCallback in E0. unfold descriptionIsText.
    destruct (getProp t "$description") as [d|]; [|reflexivity].
    destruct (truthy (Some d)) eqn:Et.
    + destruct d; try discriminate E0; reflexivity.
    + destruct d; reflexivity.
  - destruct (traversal_returned_each _ _ _ _ _ _ _ E2 p t Hin)
      as (acc0 & r0 & a0 & r3 & E0).
    unfold typeCollectCallback in E0. unfold categoryIsOwn.
    destruct (includes objectPrototypeKeys _); [discriminate E0|reflexivity].
Qed.

Lemma completed_run_has_handled_every_primitive_token_witness :
  forallb (fun pt => descriptionIsText (snd pt) && categoryIsOwn (fst pt))
          (tokensIn primitiveA []) = true.
Proof.
  eapply (completed_run_has_handled_every_primitive_token primitiveA semanticA).
  vm_compute. reflexivity.
Defined.

(** ** The format issues that are counted *)

Lemma sameCritical_refl r : sameCritical r r.
Proof. split; reflexivity. Qed.

Lemma sameCritical_trans r1 r2 r3 :
  sameCritical r1 r2 -> sameCritical r2 r3 -> sameCritical r1 r3.
Proof. unfold sameCritical. intuition congruence. Qed.

Lemma sameCritical_addWarning msg : keeps sameCritical (addWarning msg).
Proof. intros r x r' E. injection E as _ <-. split; reflexivity. Qed.

Lemma sameCritical_count l : keeps sameCritical (modifyStats (countToken l)).
Proof. intros r x r' E. injection E as _ <-. split; reflexivity. Qed.

Ltac sameCritical_tac :=
  repeat kstep sameCritical_refl sameCritical_trans I
           ltac:(apply sameCritical_addWarning).

Lemma tally_ret n : tally (ret n) n.
Proof.
  intros r n' r' E. injection E as <- <-. split; [reflexivity|].
  exists []. rewrite app_nil_r. simpl. auto.
Qed.

Lemma tally_critical msg n : tally (addCritical msg ;; ret (S n)) n.
Proof.
  intros r n' r' E. injection E as <- <-. split; [reflexivity|].
  exists [msg]. simpl. split; [reflexivity | lia].
Qed.

Lemma tally_bind (m : M nat) (k : nat -> M nat) n :
  tally m n -> (forall n1, tally (k n1) n1) -> tally (bind m k) n.
Proof.
  intros Hm Hk r n' r' E.
  destruct (bind_returned _ _ _ _ _ E) as (n1 & r1 & E1 & E2).
  destruct (Hm _ _ _ E1) as (Hp & cs & Hc & Hn).
  destruct (Hk n1 _ _ _ E2) as (Hp' & cs' & Hc' & Hn').
  split; [congruence|]. exists (cs ++ cs').
  rewrite Hc', Hc, app_assoc, length_app. split; [reflexivity | lia].
Qed.

Lemma tally_after {A} (m : M A) (k : A -> M nat) n :
  keeps sameCritical m -> (forall a, tally (k a) n) -> tally (bind m k) n.
Proof.
  intros Hm Hk r n' r' E.
  destruct (bind_returned _ _ _ _ _ E) as (a & r1 & E1 & E2).
  destruct (Hm _ _ _ E1) as (Hp & Hc).
  destruct (Hk a _ _ _ E2) as (Hp' & cs & Hc' & Hn).
  split; [congruence|]. exists cs. split; [congruence | exact Hn].
Qed.

Lemma tally_judged (m : M bool) n :
  judges m -> tally (ok <- m ;; ret (if ok then n else S n)) n.
Proof.
  intros Hm r n' r' E.
  destruct (bind_returned _ _ _ _ _ E) as (ok & r1 & E1 & E2).
  injection E2 as <- <-.
  destruct (Hm _ _ _ E1) as (Hp & _ & _ & Hc). split; [exact Hp|].
  destruct ok.
  - exists []. rewrite app_nil_r. simpl. auto.
  - destruct Hc as (c & Hc). exists [c]. simpl. split; [exact Hc | lia].
Qed.

Lemma judges_validateColorValue value tokenPath :
  judges (validateColorValue value tokenPath).
Proof. unfold validateColorValue. repeat judges_step. Qed.

Lemma judges_validateDimensionValue value tokenPath :
  judges (validateDimensionValue value tokenPath).
Proof. unfold validateDimensionValue. repeat judges_step. Qed.

Lemma judges_validateTypographyValue value tokenPath :
  judges (validateTypographyValue value tokenPath).
Proof. unfold validateTypographyValue. repeat judges_step. Qed.

Lemma judges_validateShadowValue value tokenPath :
  judges (validateShadowValue value tokenPath).
Proof.
  unfold validateShadowValue. repeat judges_step; apply judges_validateShadows.
Qed.

Lemma tally_fold (callback : list string -> json -> layer -> nat -> M nat)
    (l : layer) (ts : list (list string * json)) :
  (forall p t n, tally (callback p t l n) n) ->
  forall n, tally (foldM (visitToken callback l) ts n) n.
Proof.
  intros Hc. induction ts as [|[p t] ts IH]; intros n; cbn [foldM].
  - apply tally_ret.
  - apply tally_bind; [|exact IH].
    unfold visitToken. cbn [fst snd].
    apply tally_bind; [apply Hc | intros n1].
    apply tally_after; [apply sameCritical_count | intros; apply tally_ret].
Qed.

Lemma tally_traverse (obj : json)
    (callback : list string -> json -> layer -> nat -> M nat) (l : layer) :
  (forall p t n, tally (callback p t l n) n) ->
  forall n, tally (traverseTokens obj callback [] l n) n.
Proof.
  intros Hc n. destruct (json_null_dec obj) as [->|Hnn].
  - intros r x r' E. discriminate E.
  - intros r x r' E. rewrite traverseTokens_fold in E by exact Hnn.
    exact (tally_fold callback l _ Hc n r x r' E).
Qed.

Lemma tally_colorFormatCallback p t l n : tally (colorFormatCallback p t l n) n.
Proof.
  unfold colorFormatCallback. destruct (eqString _ "color");
    [apply tally_judged, judges_validateColorValue | apply tally_ret].
Qed.

Lemma tally_dimensionFormatCallback p t l n :
  tally (dimensionFormatCallback p t l n) n.
Proof.
  unfold dimensionFormatCallback. destruct (eqString _ "dimension");
    [apply tally_judged, judges_validateDimensionValue | apply tally_ret].
Qed.

Lemma tally_typographyFormatCallback p t l n :
  tally (typographyFormatCallback p t l n) n.
Proof.
  unfold typographyFormatCallback. destruct (eqString _ "typography");
    [apply tally_judged, judges_validateTypographyValue | apply tally_ret].
Qed.

Lemma tally_shadowFormatCallback p t l n :
  tally (shadowFormatCallback p t l n) n.
Proof.
  unfold shadowFormatCallback. destruct (eqString _ "shadow");
    [apply tally_judged, judges_validateShadowValue | apply tally_ret].
Qed.

Lemma tally_numberFormatCallback p t l n :
  tally (numberFormatCallback p t l n) n.
Proof.
  unfold numberFormatCallback. cbv zeta.
  destruct (eqString _ "number"); [|apply tally_ret].
  apply tally_bind.
  { destruct (negb _); [apply tally_critical | apply tally_ret]. }
  intros n1.
  apply tally_after; [sameCritical_tac | intros _].
  apply tally_after; [sameCritical_tac | intros _].
  destruct (startsWith _ "opacity."); [|apply tally_ret].
  apply tally_after; [sameCritical_tac | intros out].
  destruct out; [|apply tally_ret].
  apply tally_after; [sameCritical_tac | intros _].
  apply tally_critical.
Qed.

(** X26.  The passing check of the format checker tells what the checker itself
    found.  When [checkValueFormatConsistency] returns it has added critical
    findings and warnings only, and the passing check "All token values use
    correct format for their type" exactly when it has added no critical
    finding: every increment of its issue counter goes with one critical
    finding, and every critical finding with one increment. *)
Theorem format_pass_iff_no_critical (primitiveTokens semanticTokens : json)
    (r r' : results) :
  checkValueFormatConsistency primitiveTokens semanticTokens r
  = Returned tt r' ->
  exists cs,
    critical r' = critical r ++ cs
    /\ pass r' = pass r ++ match cs with
                           | [] => [AllFormatsCorrect]
                           | _ => []
                           end.
Proof.
  unfold checkValueFormatConsistency. intros E.
  assert (Ht : tally
            (formatIssues <- traverseTokens primitiveTokens colorFormatCallback
                               [] primitive 0 ;;
             formatIssues <- traverseTokens primitiveTokens
                               dimensionFormatCallback [] primitive formatIssues ;;
             formatIssues <- traverseTokens semanticTokens
                               typographyFormatCallback [] semantic formatIssues ;;
             formatIssues <- traverseTokens semanticTokens shadowFormatCallback
                               [] semantic formatIssues ;;
             traverseTokens primitiveTokens numberFormatCallback [] primitive
               formatIssues) 0).
  { apply tally_bind;
      [apply tally_traverse; intros; apply tally_colorFormatCallback | intros ?].
    apply tally_bind;
      [apply tally_traverse; intros; apply tally_dimensionFormatCallback | intros ?].
    apply tally_bind;
      [apply tally_traverse; intros; apply tally_typographyFormatCallback | intros ?].
    apply tally_bind;
      [apply tally_traverse; intros; apply tally_shadowFormatCallback | intros ?].
    apply tally_traverse; intros; apply tally_numberFormatCallback. }
  do 4 (apply bind_returned in E;
        let a := fresh "n" in let r := fresh "r" in let E1 := fresh "E" in
        destruct E as (a & r & E1 & E)).
  apply bind_returned in E. destruct E as (n3 & r4 & E4 & E).
  assert (Hrun : (formatIssues <- traverseTokens primitiveTokens
                                    colorFormatCallback [] primitive 0 ;;
                  formatIssues <- traverseTokens primitiveTokens
                                    dimensionFormatCallback [] primitive
                                    formatIssues ;;
                  formatIssues <- traverseTokens semanticTokens
                                    typographyFormatCallback [] semantic
                                    formatIssues ;;
                  formatIssues <- traverseTokens semanticTokens
                                    shadowFormatCallback [] semantic
                                    formatIssues ;;
                  traverseTokens primitiveTokens numberFormatCallback []
                    primitive formatIssues) r = Returned n3 r4).
  { unfold bind. rewrite E0, E1, E2, E3. exact E4. }
  destruct (Ht _ _ _ Hrun) as (Hp & cs & Hc & Hn).
  exists cs. unfold when in E.
  destruct cs as [|c cs]; simpl in Hn; subst n3; simpl in E.
  - injection E as <-. simpl. rewrite Hc, Hp, app_nil_r. auto.
  - injection E as <-. rewrite Hc, Hp, app_nil_r. auto.
Qed.

Lemma format_pass_iff_no_critical_witness :
  exists r' cs,
    checkValueFormatConsistency primitiveAlias semanticA results0
    = Returned tt r'
    /\ critical r' = critical results0 ++ cs
    /\ pass r' = pass results0 ++ match cs with
                                  | [] => [AllFormatsCorrect]
                                  | _ => []
                                  end.
Proof.
  eexists.
  match goal with
  | |- exists cs, ?m = Returned tt ?r' /\ _ =>
      assert (E : m = Returned tt r') by (vm_compute; reflexivity);
      destruct (format_pass_iff_no_critical primitiveAlias semanticA results0
                  r' E) as (cs & H)
  end.
  exists cs. split; [exact E | exact H].
Defined.

(** ** Findings that are reported once *)

Lemma framed_validateTypographyValue value tokenPath :
  framed (validateTypographyValue value tokenPath).
Proof.
  pose proof framed_missingProps.
  unfold validateTypographyValue. repeat framed_step.
Qed.

Lemma framed_validateShadows shadows tokenPath :
  framed (validateShadows shadows tokenPath).
Proof.
  pose proof framed_missingProps.
  induction shadows; simpl; repeat framed_step.
Qed.

Lemma framed_validateShadowValue value tokenPath :
  framed (validateShadowValue value tokenPath).
Proof.
  pose proof framed_validateShadows.
  unfold validateShadowValue. repeat framed_step.
Qed.

Lemma emits_validateTypographyValue value tokenPath :
  emits isTypographyWarning isTypographyCritical
        (validateTypographyValue value tokenPath)
        (fst (findingsOf (validateTypographyValue value tokenPath)))
        (snd (findingsOf (validateTypographyValue value tokenPath))).
Proof.
  apply emits_framed;
    [apply framed_validateTypographyValue | untouched_checker].
Qed.

Lemma emits_validateShadowValue value tokenPath :
  emits noWarning isShadowCritical
        (validateShadowValue value tokenPath)
        (fst (findingsOf (validateShadowValue value tokenPath)))
        (snd (findingsOf (validateShadowValue value tokenPath))).
Proof.
  apply emits_framed; [apply framed_validateShadowValue|].
  untouched_checker.
Qed.

Lemma emits_typographyFormatCallback p t l acc :
  emits isTypographyWarning isTypographyCritical
        (typographyFormatCallback p t l acc)
        (fst (typographyFindings (p, t))) (snd (typographyFindings (p, t))).
Proof.
  unfold typographyFormatCallback, typographyFindings. cbn [fst snd].
  destruct (eqString (getProp t "$type") "typography").
  - apply emits_then; [apply emits_validateTypographyValue|].
    intros. apply keeps_ret, untouched_refl.
  - apply emits_of_keeps. untouched_checker.
Qed.

Lemma emits_shadowFormatCallback p t l acc :
  emits noWarning isShadowCritical (shadowFormatCallback p t l acc)
        (fst (shadowFindings (p, t))) (snd (shadowFindings (p, t))).
Proof.
  unfold shadowFormatCallback, shadowFindings. cbn [fst snd].
  destruct (eqString (getProp t "$type") "shadow").
  - apply emits_then; [apply emits_validateShadowValue|].
    intros. apply keeps_ret, untouched_refl.
  - apply emits_of_keeps. untouched_checker.
Qed.

Ltac typography_step :=
  match goal with
  | |- forall _, _ => intro
  | |- emits _ _ (bind _ _) _ _ => eapply emits_bind
  | |- emits _ _ (traverseTokens _ typographyFormatCallback _ _ _) _ _ =>
      apply (emits_traverse _ _ _ typographyFormatCallback semantic
               (fun pt => fst (typographyFindings pt))
               (fun pt => snd (typographyFindings pt)));
      intros; apply emits_typographyFormatCallback
  | |- emits _ _ _ _ _ => apply emits_of_keeps; untouched_checker
  end.

Ltac shadow_step :=
  match goal with
  | |- forall _, _ => intro
  | |- emits _ _ (bind _ _) _ _ => eapply emits_bind
  | |- emits _ _ (traverseTokens _ shadowFormatCallback _ _ _) _ _ =>
      apply (emits_traverse _ _ _ shadowFormatCallback semantic
               (fun pt => fst (shadowFindings pt))
               (fun pt => snd (shadowFindings pt)));
      intros; apply emits_shadowFormatCallback
  | |- emits _ _ _ _ _ => apply emits_of_keeps; untouched_checker
  end.

Lemma emits_typography_runChecks (primitiveTokens semanticTokens : json) :
  emits isTypographyWarning isTypographyCritical
        (runChecks primitiveTokens semanticTokens)
        (flat_map (fun pt => fst (typographyFindings pt))
                  (tokensIn semanticTokens []))
        (flat_map (fun pt => snd (typographyFindings pt))
                  (tokensIn semanticTokens [])).
Proof.
  unfold runChecks.
  eapply emits_eq.
  - eapply emits_bind;
      [apply emits_of_keeps; unfold checkDTCGCompliance; untouched_checker
      | intros _].
    eapply emits_bind;
      [apply emits_of_keeps; unfold checkReferenceIntegrity;
       untouched_checker | intros _].
    eapply emits_bind;
      [apply emits_of_keeps; unfold checkNamingConventions;
       untouched_checker | intros _].
    eapply emits_bind;
      [unfold checkValueFormatConsistency; repeat typography_step
      | intros _].
    apply emits_of_keeps.
    apply keeps_bind;
      [apply untouched_trans
      | unfold checkCompleteness; untouched_checker | intros _].
    unfold checkQuality. untouched_checker.
  - simpl. rewrite !app_nil_r. reflexivity.
  - simpl. rewrite !app_nil_r. reflexivity.
Qed.

Lemma emits_shadow_runChecks (primitiveTokens semanticTokens : json) :
  emits noWarning isShadowCritical
        (runChecks primitiveTokens semanticTokens)
        (flat_map (fun pt => fst (shadowFindings pt))
                  (tokensIn semanticTokens []))
        (flat_map (fun pt => snd (shadowFindings pt))
                  (tokensIn semanticTokens [])).
Proof.
  unfold runChecks.
  eapply emits_eq.
  - eapply emits_bind;
      [apply emits_of_keeps; unfold checkDTCGCompliance; untouched_checker
      | intros _].
    eapply emits_bind;
      [apply emits_of_keeps; unfold checkReferenceIntegrity;
       untouched_checker | intros _].
    eapply emits_bind;
      [apply emits_of_keeps; unfold checkNamingConventions;
       untouched_checker | intros _].
    eapply emits_bind;
      [unfold checkValueFormatConsistency; repeat shadow_step | intros _].
    apply emits_of_keeps.
    apply keeps_bind;
      [apply untouched_trans
      | unfold checkCompleteness; untouched_checker | intros _].
    unfold checkQuality. untouched_checker.
  - simpl. rewrite !app_nil_r. reflexivity.
  - simpl. rewrite !app_nil_r. reflexivity.
Qed.

(** X27.  The findings of the typography and of the shadow validator are
    reported once, and for semantic tokens only.  In the report of every run
    the typography findings are those of the semantic tokens of type
    typography, and the shadow findings those of the semantic tokens of type
    shadow, each in the order of the visit; a primitive token of one of
    these types is not validated. *)
Theorem composite_findings_are_reported_once
    (primitiveTokens semanticTokens : json) (rep : report) :
  audit primitiveTokens semanticTokens = inr rep ->
  let tokens := tokensIn semanticTokens [] in
  filter isTypographyCritical (critical (findings rep))
  = flat_map (fun pt => snd (typographyFindings pt)) tokens
  /\ filter isTypographyWarning (warnings (findings rep))
     = flat_map (fun pt => fst (typographyFindings pt)) tokens
  /\ filter isShadowCritical (critical (findings rep))
     = flat_map (fun pt => snd (shadowFindings pt)) tokens.
Proof.
  intros E. cbv zeta. unfold audit in E.
  destruct (runChecks primitiveTokens semanticTokens results0)
    as [[] r|] eqn:Er; [|discriminate].
  injection E as <-.
  destruct (emits_typography_runChecks _ _ _ _ _ Er) as (Hw & Hc).
  destruct (emits_shadow_runChecks _ _ _ _ _ Er) as (_ & Hc').
  cbn [findings printResults]. auto.
Qed.

Lemma composite_findings_are_reported_once_witness :
  exists rep,
    audit primitiveA semanticTypography = inr rep
    /\ filter isTypographyWarning (warnings (findings rep))
       = [TypographyMissing "typography.body.md" ["lineHeight"]].
Proof.
  eexists. split; [vm_compute; reflexivity|].
  match goal with
  | |- filter _ (warnings (findings ?rep)) = _ =>
      destruct (composite_findings_are_reported_once
                  primitiveA semanticTypography rep) as (_ & H & _)
  end.
  - vm_compute. reflexivity.
  - rewrite H. reflexivity.
Defined.

(** ** What the quality checker finds *)

Lemma sameFindings_refl r : sameFindings r r.
Proof. repeat split. Qed.

Lemma sameFindings_trans r1 r2 r3 :
  sameFindings r1 r2 -> sameFindings r2 r3 -> sameFindings r1 r3.
Proof. unfold sameFindings. intuition congruence. Qed.

Lemma sameFindings_count l r :
  sameFindings r (mkResults (pass r) (warnings r) (critical r)
                            (countToken l (stats r))).
Proof. repeat split. Qed.

Ltac sameFindings_tac :=
  repeat kstep sameFindings_refl sameFindings_trans sameFindings_count fail.

Lemma tallyWarnings_ret kw n : tallyWarnings kw (ret n) n.
Proof.
  intros r n' r' E. injection E as <- <-. repeat split.
  exists []. rewrite app_nil_r. simpl. auto.
Qed.

Lemma tallyWarnings_bind kw (m : M nat) (k : nat -> M nat) n :
  tallyWarnings kw m n -> (forall n1, tallyWarnings kw (k n1) n1) ->
  tallyWarnings kw (bind m k) n.
Proof.
  intros Hm Hk r n' r' E.
  destruct (bind_returned _ _ _ _ _ E) as (n1 & r1 & E1 & E2).
  destruct (Hm _ _ _ E1) as (Hp & Hc & ws & Hw & Hk1 & Hn).
  destruct (Hk n1 _ _ _ E2) as (Hp' & Hc' & ws' & Hw' & Hk2 & Hn').
  split; [congruence|]. split; [congruence|]. exists (ws ++ ws').
  rewrite Hw', Hw, app_assoc, length_app, forallb_app, Hk1, Hk2.
  repeat split. lia.
Qed.

Lemma tallyWarnings_after {A} kw (m : M A) (k : A -> M nat) n :
  keeps sameFindings m -> (forall a, tallyWarnings kw (k a) n) ->
  tallyWarnings kw (bind m k) n.
Proof.
  intros Hm Hk r n' r' E.
  destruct (bind_returned _ _ _ _ _ E) as (a & r1 & E1 & E2).
  destruct (Hm _ _ _ E1) as (Hp & Hw & Hc).
  destruct (Hk a _ _ _ E2) as (Hp' & Hc' & ws & Hw' & Hk1 & Hn).
  split; [congruence|]. split; [congruence|]. exists ws.
  repeat split; congruence.
Qed.

Lemma tallyWarnings_warning kw msg n :
  kw msg = true -> tallyWarnings kw (addWarning msg ;; ret (S n)) n.
Proof.
  intros Hk r n' r' E. injection E as <- <-. repeat split.
  exists [msg]. simpl. rewrite Hk. repeat split. lia.
Qed.

Lemma tallyWarnings_genericDescriptionCallback p t l n :
  tallyWarnings isDescriptionGeneric (genericDescriptionCallback p t l n) n.
Proof.
  unfold genericDescriptionCallback.
  destruct (getProp t "$description") as [d|]; [|apply tallyWarnings_ret].
  destruct (truthy (Some d)); [|apply tallyWarnings_ret].
  destruct d; try (intros r n' r' E; discriminate E).
  cbv zeta. destruct (_ && _);
    [apply tallyWarnings_warning; reflexivity | apply tallyWarnings_ret].
Qed.

Lemma tallyWarnings_fold kw
    (callback : list string -> json -> layer -> nat -> M nat)
    (l : layer) (ts : list (list string * json)) :
  (forall p t n, tallyWarnings kw (callback p t l n) n) ->
  forall n, tallyWarnings kw (foldM (visitToken callback l) ts n) n.
Proof.
  intros Hc. induction ts as [|[p t] ts IH]; intros n; cbn [foldM].
  - apply tallyWarnings_ret.
  - apply tallyWarnings_bind; [|exact IH].
    unfold visitToken. cbn [fst snd].
    apply tallyWarnings_bind; [apply Hc | intros n1].
    apply tallyWarnings_after; [|intros; apply tallyWarnings_ret].
    intros r x r' E. injection E as _ <-. apply sameFindings_count.
Qed.

Lemma tallyWarnings_checkTypeSets sets :
  forall n, tallyWarnings isMultipleTypes (checkTypeSets sets n) n.
Proof.
  induction sets as [|[c ts] sets IH]; intros n; cbn [checkTypeSets].
  - apply tallyWarnings_ret.
  - destruct (1 <? List.length ts); [|apply IH].
    apply tallyWarnings_after; [sameFindings_tac | intros _].
    intros r n' r' E.
    destruct (bind_returned _ _ _ _ _ E) as ([] & r1 & E1 & E2).
    injection E1 as <-.
    destruct (IH (S n) _ _ _ E2) as (Hp & Hc & ws & Hw & Hk & Hn).
    cbn [pass warnings critical] in Hp, Hc, Hw.
    split; [exact Hp|]. split; [exact Hc|].
    exists (MultipleTypes c ts :: ws). rewrite Hw, <- app_assoc.
    simpl. rewrite Hk. repeat split. lia.
Qed.

Lemma contrast_fold (ts : list (list string * json)) :
  forall b,
    fold_left (fun found pt => if hasContrast pt then true else found) ts b
    = b || contrastFound ts.
Proof.
  unfold contrastFound. induction ts as [|pt ts IH]; intros b; simpl.
  - rewrite orb_false_r. reflexivity.
  - rewrite IH. destruct (hasContrast pt), b; reflexivity.
Qed.

Lemma effect_accessibilityCallback p t l found :
  effect (accessibilityCallback p t l found)
         (if hasContrast (p, t) then true else found) [] [] [].
Proof.
  unfold accessibilityCallback, hasContrast. cbn [snd].
  destruct (getProp t "$extensions") as [ext|]; [|apply effect_ret].
  destruct (truthy (Some ext) && truthy (getProp ext "contrast"));
    apply effect_ret.
Qed.

(** X28.  The passing checks of the quality checker tell what the checker itself
    found.  When [checkQuality] returns it has added no critical finding;
    its warnings are, in this order, warnings about generic descriptions,
    warnings about categories with several types and, when no semantic token
    has a truthy [$extensions.contrast], the one warning about contrast
    information.  It has added "All token categories use consistent $type
    declarations" exactly when it has added no warning about several types,
    "All descriptions are clear and specific" exactly when it has added no
    warning about a generic description, and the passing check about
    accessibility exactly when it has not added the warning about it. *)
Theorem quality_passes_tell_what_was_found
    (primitiveTokens semanticTokens : json) (r r' : results) :
  checkQuality primitiveTokens semanticTokens r = Returned tt r' ->
  exists generic several,
    forallb isDescriptionGeneric generic = true
    /\ forallb isMultipleTypes several = true
    /\ warnings r'
       = warnings r ++ generic ++ several
         ++ (if contrastFound (tokensIn semanticTokens []) then []
             else [NoAccessibilityInfo])
    /\ pass r'
       = pass r
         ++ match several with [] => [TypesConsistent] | _ => [] end
         ++ match generic with [] => [DescriptionsClear] | _ => [] end
         ++ (if contrastFound (tokensIn semanticTokens [])
             then [AccessibilityIncluded] else [])
    /\ critical r' = critical r.
Proof.
  unfold checkQuality. intros E.
  apply bind_returned in E. destruct E as (unclear & r1 & E1 & E).
  apply bind_returned in E. destruct E as (sets & r2 & E2 & E).
  apply bind_returned in E. destruct E as (inconsistent & r3 & E3 & E).
  apply bind_returned in E. destruct E as ([] & r4 & E4 & E).
  apply bind_returned in E. destruct E as ([] & r5 & E5 & E).
  apply bind_returned in E. destruct E as (found & r6 & E6 & E).
  (* the descriptions *)
  assert (H1 : tallyWarnings isDescriptionGeneric
                 (traverseTokens primitiveTokens genericDescriptionCallback []
                    primitive 0) 0).
  { destruct (json_null_dec primitiveTokens) as [->|Hnn];
      [intros ? ? ? D; discriminate D|].
    intros ? ? ? D. rewrite traverseTokens_fold in D by exact Hnn.
    revert D. apply tallyWarnings_fold.
    intros. apply tallyWarnings_genericDescriptionCallback. }
  destruct (H1 _ _ _ E1) as (Hp1 & Hc1 & generic & Hw1 & Hg & Hn1).
  (* the types *)
  assert (H2 : sameFindings r1 r2).
  { revert E2. generalize (@nil (string * list (option json))).
    intros acc E2.
    assert (K : keeps sameFindings
                  (traverseTokens primitiveTokens typeCollectCallback []
                     primitive acc)).
    { apply keeps_traverseTokens;
        [exact sameFindings_refl | exact sameFindings_trans
        | exact sameFindings_count | ].
      intros. unfold typeCollectCallback. sameFindings_tac. }
    exact (K _ _ _ E2). }
  destruct H2 as (Hp2 & Hw2 & Hc2).
  destruct (tallyWarnings_checkTypeSets _ 0 _ _ _ E3)
    as (Hp3 & Hc3 & several & Hw3 & Hs & Hn3).
  (* the accessibility information *)
  assert (Hs6 : semanticTokens <> JNull)
    by (intros ->; discriminate E6).
  destruct (effect_traverse semanticTokens accessibilityCallback semantic
              (fun found pt => if hasContrast pt then true else found)
              (fun _ => []) (fun _ => []) false Hs6
              (fun p t acc => effect_accessibilityCallback p t semantic acc)
              r5) as (r6' & E6' & Hp6 & Hw6 & Hc6).
  rewrite E6 in E6'. injection E6' as -> <-.
  rewrite contrast_fold in E. cbn [orb] in E.
  rewrite flat_map_nil, app_nil_r in Hw6. rewrite flat_map_nil, app_nil_r in Hc6.
  rewrite app_nil_r in Hp6.
  exists generic, several. split; [exact Hg|]. split; [exact Hs|].
  simpl in Hn1, Hn3. subst unclear inconsistent.
  unfold when in E4, E5.
  destruct several as [|s0 several], generic as [|g0 generic];
    cbn [List.length Nat.eqb] in E4, E5;
    injection E4 as <-; injection E5 as <-;
    destruct (contrastFound (tokensIn semanticTokens []));
    injection E as <-;
    cbn [pass warnings critical] in *;
    rewrite ?Hw6, ?Hp6, ?Hc6, ?Hw3, ?Hp3, ?Hc3, ?Hw2, ?Hp2, ?Hc2, ?Hw1, ?Hp1,
      ?Hc1;
    rewrite <- ?app_assoc, ?app_nil_r; cbn [app]; repeat split.
Qed.

Lemma quality_passes_tell_what_was_found_witness :
  exists r' generic several,
    checkQuality primitiveA semanticA results0 = Returned tt r'
    /\ forallb isDescriptionGeneric generic = true
    /\ forallb isMultipleTypes several = true
    /\ warnings r'
       = warnings results0 ++ generic ++ several
         ++ (if contrastFound (tokensIn semanticA []) then []
             else [NoAccessibilityInfo])
    /\ pass r'
       = pass results0
         ++ match several with [] => [TypesConsistent] | _ => [] end
         ++ match generic with [] => [DescriptionsClear] | _ => [] end
         ++ (if contrastFound (tokensIn semanticA [])
             then [AccessibilityIncluded] else [])
    /\ critical r' = critical results0.
Proof.
  eexists.
  match goal with
  | |- exists generic several, ?m = Returned tt ?r' /\ _ =>
      assert (E : m = Returned tt r') by (vm_compute; reflexivity);
      destruct (quality_passes_tell_what_was_found primitiveA semanticA
                  results0 r' E) as (generic & several & H)
  end.
  exists generic, several. split; [exact E | exact H].
Defined.

(** *** The run on any stack *)

Lemma refines_refl {A} (m : M A) : refines m m.
Proof. intros r. right. reflexivity. Qed.

Lemma refines_bind {A B} (mWithin m : M A) (kWithin k : A -> M B) :
  refines mWithin m -> (forall a, refines (kWithin a) (k a)) ->
  refines (bind mWithin kWithin) (bind m k).
Proof.
  intros Hm Hk r. unfold bind. destruct (Hm r) as [E|E]; rewrite E.
  - left. reflexivity.
  - destruct (m r) as [a r1|e]; [apply Hk | right; reflexivity].
Qed.

Lemma refines_overflow {A} (m : M A) : refines (throw stackOverflow) m.
Proof. intros r. left. reflexivity. Qed.

Lemma traverseTokensWithin_refines {A}
    (callbackWithin : nat -> list string -> json -> layer -> A -> M A)
    (callback : list string -> json -> layer -> A -> M A) (l : layer) :
  (forall k p t acc, refines (callbackWithin k p t l acc) (callback p t l acc)) ->
  forall obj stack path acc,
    refines (traverseTokensWithin obj stack callbackWithin path l acc)
            (traverseTokens obj callback path l acc).
Proof.
  intros Hc.
  induction obj using json_ind; intros stack path acc;
    try apply refines_refl.
  - (* an array *)
    simpl.
    match goal with
    | |- refines (?W elems 0 acc) (?P elems 0 acc) =>
        enough (forall i acc, refines (W elems i acc) (P elems i acc)) by auto
    end.
    induction H as [|x elems Hx _ IH]; intros i acc0; [apply refines_refl|].
    apply refines_bind; [|intros a; apply IH].
    destruct (isMetadataKey (indexKey i)); [apply refines_refl|].
    destruct x; try apply refines_refl.
    + destruct stack as [|below]; [apply refines_overflow | apply Hx].
    + destruct (hasOwn "$value" props).
      * apply refines_bind; [apply Hc | intros a; apply refines_refl].
      * destruct stack as [|below]; [apply refines_overflow | apply Hx].
  - (* an object *)
    simpl. revert acc.
    induction H as [|[k x] props Hx _ IH]; intros acc; [apply refines_refl|].
    simpl in Hx.
    apply refines_bind; [|intros a; apply IH].
    destruct (isMetadataKey k); [apply refines_refl|].
    destruct x; try apply refines_refl.
    + destruct stack as [|below]; [apply refines_overflow | apply Hx].
    + destruct (hasOwn "$value" props0).
      * apply refines_bind; [apply Hc | intros a; apply refines_refl].
      * destruct stack as [|below]; [apply refines_overflow | apply Hx].
Qed.

Lemma traverseTokensWithin_direct_refines {A}
    (callback : list string -> json -> layer -> A -> M A) (l : layer)
    (obj : json) (stack : nat) (path : list string) (acc : A) :
  refines (traverseTokensWithin obj stack (direct callback) path l acc)
          (traverseTokens obj callback path l acc).
Proof.
  apply traverseTokensWithin_refines. intros. apply refines_refl.
Qed.

Lemma checkReferencesWithin_refines
    (primitiveIndex semanticIndex : list string) (tokenPath : string)
    (value : json) :
  forall stack all,
    refines (checkReferencesWithin primitiveIndex semanticIndex value stack
               tokenPath all)
            (checkReferences primitiveIndex semanticIndex value tokenPath all).
Proof.
  induction value using json_ind; intros stack all; try apply refines_refl.
  - (* an array *)
    simpl. revert all.
    induction H as [|x elems Hx _ IH]; intros all; [apply refines_refl|].
    apply refines_bind; [|intros a; apply IH].
    destruct stack as [|below]; [apply refines_overflow | apply Hx].
  - (* an object *)
    simpl. revert all.
    induction H as [|[k x] props Hx _ IH]; intros all; [apply refines_refl|].
    simpl in Hx.
    apply refines_bind; [|intros a; apply IH].
    destruct stack as [|below]; [apply refines_overflow | apply Hx].
Qed.

Lemma referenceCallbackWithin_refines
    (primitiveIndex semanticIndex : list string) (stack : nat)
    (path : list string) (tok : json) (l : layer) (all : list string) :
  refines (referenceCallbackWithin primitiveIndex semanticIndex stack path
             tok l all)
          (referenceCallback primitiveIndex semanticIndex path tok l all).
Proof.
  unfold referenceCallbackWithin, referenceCallback.
  apply refines_bind; [apply checkReferencesWithin_refines | intros a].
  destruct (getProp tok "$extensions") as [ext|]; [|apply refines_refl].
  destruct (truthy (Some ext)); [|apply refines_refl].
  destruct (getProp ext "opacity") as [opacity|]; [|apply refines_refl].
  destruct (truthy (Some opacity)); [|apply refines_refl].
  apply checkReferencesWithin_refines.
Qed.

Lemma refines_forEach {A} (f g : A -> M unit) (l : list A) :
  (forall x, refines (f x) (g x)) -> refines (forEach f l) (forEach g l).
Proof.
  intros H. induction l as [|x l IH]; [apply refines_refl|].
  simpl. apply refines_bind; [apply H | intros _; exact IH].
Qed.

Ltac refines_step :=
  first
    [ apply traverseTokensWithin_direct_refines
    | apply refines_bind; [|intros ?]
    | apply refines_refl ].

Lemma runChecksWithin_refines (stack : nat)
    (primitiveTokens semanticTokens : json) :
  refines (runChecksWithin stack primitiveTokens semanticTokens)
          (runChecks primitiveTokens semanticTokens).
Proof.
  unfold runChecksWithin, runChecks.
  apply refines_bind; [|intros _].
  { unfold checkDTCGComplianceWithin, checkDTCGCompliance.
    repeat refines_step. }
  apply refines_bind; [|intros _].
  { unfold checkReferenceIntegrityWithin, checkReferenceIntegrity.
    apply refines_bind; [apply traverseTokensWithin_direct_refines|].
    intros primitiveIndex.
    apply refines_bind; [apply traverseTokensWithin_direct_refines|].
    intros semanticIndex.
    apply refines_bind; [|intros ?; apply refines_refl].
    apply traverseTokensWithin_refines. intros.
    apply referenceCallbackWithin_refines. }
  apply refines_bind; [|intros _].
  { unfold checkNamingConventionsWithin, checkNamingConventions.
    repeat refines_step. }
  apply refines_bind; [|intros _].
  { unfold checkValueFormatConsistencyWithin, checkValueFormatConsistency.
    repeat refines_step. }
  apply refines_bind; [|intros _].
  { unfold checkCompletenessWithin, checkCompleteness.
    apply refines_bind; [apply traverseTokensWithin_direct_refines|].
    intros semanticIndex.
    apply refines_bind; [apply refines_refl | intros _].
    apply refines_bind; [|intros _].
    { apply refines_forEach. intros category.
      unfold checkScaleWithin, checkScale. repeat refines_step. }
    repeat refines_step. }
  unfold checkQualityWithin, checkQuality. repeat refines_step.
Qed.

(** X29.  The bound on the stack shows in one way only.  On a stack that holds
    any number of nested calls the run ends in a RangeError, or it ends as
    the run without a bound does: with the same report, or with the same
    exception.  What holds of the report of a run without a bound holds of
    every report. *)
Theorem bounded_run_agrees_or_overflows (stack : nat)
    (primitiveTokens semanticTokens : json) :
  auditWithin stack primitiveTokens semanticTokens = inl stackOverflow
  \/ auditWithin stack primitiveTokens semanticTokens
     = audit primitiveTokens semanticTokens.
Proof.
  unfold auditWithin, audit.
  destruct (runChecksWithin_refines stack primitiveTokens semanticTokens
              results0) as [E|E]; rewrite E.
  - left. reflexivity.
  - right. reflexivity.
Qed.
